(** * QRCodeMaker: the batch generation pipeline, its store and its CSV layer

    A shallow embedding of the JavaScript sources

    - [js/types.js]            constants and defaults,
    - [js/utils.js]            delimiter handling, validation, CSV,
    - [js/store.js]            the [AppStore] class with its undo/redo log,
    - [js/barcodeGenerator.js], [js/qrGenerator.js]  the two encoders,
    - [worker.js]              the enumeration worker,
    - [js/app_v2.js]           [generateCodes], [finalizeCodesFromWorker],
                               [exportData] and [importData],

    followed by the properties of the specification, each settled on the
    embedded code.

    Conventions.  A JavaScript string is a [string]: a sequence of code
    units, here restricted to the units below 256.  An object with a fixed
    set of keys is a record; an object literal used as a partial update
    ([{...b, ...updates}]) is a record of options.  A method of [AppStore]
    is a function on the store value; the values the environment supplies
    ([crypto.randomUUID()]) are arguments.  Subscribers are not modelled:
    [notify] does not change the store. *)

From Stdlib Require Import String Ascii List ZArith Lia Bool Arith.
From Stdlib Require Import Permutation.
From Stdlib Require Import Sorted.
Import ListNotations.

Local Open Scope string_scope.
Local Open Scope list_scope.

Set Implicit Arguments.

(* ------------------------------------------------------------------ *)
(** * JavaScript primitives on strings *)
(* ------------------------------------------------------------------ *)

Module JS.

(** [a || b] on strings: the empty string is the only falsy one. *)
Definition or (a b : string) : string :=
  match a with
  | EmptyString => b
  | _ => a
  end.

(** Truthiness of a string. *)
Definition truthy (s : string) : bool :=
  match s with
  | EmptyString => false
  | _ => true
  end.

Definition LF : ascii := ascii_of_nat 10.
Definition CR : ascii := ascii_of_nat 13.
Definition TAB : ascii := ascii_of_nat 9.
Definition DQUOTE : ascii := ascii_of_nat 34.
Definition COMMA : ascii := ascii_of_nat 44.

(** One-unit strings. *)
Definition str (c : ascii) : string := String c EmptyString.

(** [s + c] for a single unit [c]. *)
Definition snoc (s : string) (c : ascii) : string := s ++ str c.

(** White space and line terminators removed by [String.prototype.trim],
    among the units below 256: TAB, LF, VT, FF, CR, SP and NBSP. *)
Definition isWhiteSpace (c : ascii) : bool :=
  let n := nat_of_ascii c in
  (Nat.eqb n 9 || Nat.eqb n 10 || Nat.eqb n 11 || Nat.eqb n 12
   || Nat.eqb n 13 || Nat.eqb n 32 || Nat.eqb n 160)%bool.

Fixpoint trimStart (s : string) : string :=
  match s with
  | EmptyString => EmptyString
  | String c r => if isWhiteSpace c then trimStart r else s
  end.

Fixpoint trimEnd (s : string) : string :=
  match s with
  | EmptyString => EmptyString
  | String c r =>
      match trimEnd r with
      | EmptyString => if isWhiteSpace c then EmptyString else str c
      | r' => String c r'
      end
  end.

Definition trim (s : string) : string := trimEnd (trimStart s).

(** [s.includes(c)] for a one-unit needle. *)
Fixpoint includes (c : ascii) (s : string) : bool :=
  match s with
  | EmptyString => false
  | String d r => (Ascii.eqb d c || includes c r)%bool
  end.

(** Every unit of [s] satisfies [p]: the test of a regular expression of
    the shape [/^[class]*$/]. *)
Fixpoint all (p : ascii -> bool) (s : string) : bool :=
  match s with
  | EmptyString => true
  | String c r => (p c && all p r)%bool
  end.

(** [s.split(sep)] for a string separator.  The scan goes left to right;
    at an occurrence of [sep] the piece collected so far is emitted and the
    occurrence is skipped ([skip] counts the units of it still to pass).
    With the empty separator the string is cut into its units. *)
Fixpoint split_go (sep : string) (skip : nat) (cur s : string) : list string :=
  match s with
  | EmptyString => [cur]
  | String c r =>
      match skip with
      | S k => split_go sep k cur r
      | O =>
          if prefix sep s
          then cur :: split_go sep (String.length sep - 1) EmptyString r
          else split_go sep 0 (snoc cur c) r
      end
  end.

Definition split (sep s : string) : list string :=
  match sep with
  | EmptyString => map str (list_ascii_of_string s)
  | _ => split_go sep 0 EmptyString s
  end.

(** [s.split(/\r?\n/)]: a cut at every LF, and at every CR LF pair. *)
Fixpoint splitLines_go (cur s : string) : list string :=
  match s with
  | EmptyString => [cur]
  | String c r =>
      if Ascii.eqb c LF then cur :: splitLines_go EmptyString r
      else
        match r with
        | String d r' =>
            if (Ascii.eqb c CR && Ascii.eqb d LF)%bool
            then cur :: splitLines_go EmptyString r'
            else splitLines_go (snoc cur c) r
        | EmptyString => splitLines_go (snoc cur c) r
        end
  end.

Definition splitLines (s : string) : list string := splitLines_go EmptyString s.

(** [arr.join(sep)]. *)
Definition join (sep : string) (l : list string) : string := String.concat sep l.

(** [arr[i]] with [undefined] as [None]. *)
Definition at_ {A} (l : list A) (i : nat) : option A := nth_error l i.

(** [arr[i]] for an integer [i]: no negative key is an index. *)
Definition atZ {A} (l : list A) (i : Z) : option A :=
  if (i <? 0)%Z then None else nth_error l (Z.to_nat i).

(** [arr.slice(0, e)]: a negative [e] counts from the end. *)
Definition slice0 {A} (e : Z) (l : list A) : list A :=
  if (e <? 0)%Z
  then firstn (Z.to_nat (Z.of_nat (List.length l) + e)) l
  else firstn (Z.to_nat e) l.

(** [arr.splice(i, 0, x)] on a copy: insertion before position [i], at
    the end when [i] is past it. *)
Fixpoint insertAt {A} (i : nat) (x : A) (l : list A) : list A :=
  match i, l with
  | O, _ => x :: l
  | S _, [] => [x]
  | S k, y :: r => y :: insertAt k x r
  end.

(** [arr.splice(i, 1)] on a copy: the array without position [i]. *)
Fixpoint removeAt {A} (i : nat) (l : list A) : list A :=
  match i, l with
  | _, [] => []
  | O, _ :: r => r
  | S k, y :: r => y :: removeAt k r
  end.

(** [arr.findIndex(p)], with -1 as [None]. *)
Fixpoint findIndex {A} (p : A -> bool) (l : list A) : option nat :=
  match l with
  | [] => None
  | x :: r => if p x then Some 0 else option_map S (findIndex p r)
  end.

End JS.

(* ------------------------------------------------------------------ *)
(** * js/types.js: data model, constants, defaults *)
(* ------------------------------------------------------------------ *)

Record Block := mkBlock {
  id : string;
  subtitle : string;
  codeType : string;
  qrErrorCorrection : string;
  barcodeFormat : string;
  sizeOverride : string;
  content : string
}.

Record GlobalSettings := mkSettings {
  printTitle : string;
  delimiter : string;
  customDelimiter : string;
  theme : string;
  paperSize : string;
  paperOrientation : string
}.

Module CONSTANTS.
Definition VERSION : string := "2.0".
Definition MAX_HISTORY : nat := 20.
Definition PROGRESS_THRESHOLD : nat := 50.
Definition DELIMITERS : list (string * string) :=
  [ ("newline", JS.str JS.LF);
    ("comma", ",");
    ("semicolon", ";");
    ("tab", JS.str JS.TAB) ].
End CONSTANTS.

Module DEFAULTS.
Definition globalSettings : GlobalSettings :=
  {| printTitle := ""; delimiter := "newline"; customDelimiter := "";
     theme := "auto"; paperSize := "a4"; paperOrientation := "portrait" |}.

(** The block defaults, completed with an id. *)
Definition block (uuid : string) : Block :=
  {| id := uuid; subtitle := ""; codeType := "qr";
     qrErrorCorrection := "M"; barcodeFormat := "CODE128";
     sizeOverride := "auto"; content := "" |}.
End DEFAULTS.

(** The values the type definitions of [types.js] give to the enumerated
    fields of a block. *)
Definition isCodeType (s : string) : bool :=
  existsb (String.eqb s) ["qr"; "barcode"].
Definition isQRErrorCorrectionLevel (s : string) : bool :=
  existsb (String.eqb s) ["L"; "M"; "Q"; "H"].
Definition isBarcodeFormat (s : string) : bool :=
  existsb (String.eqb s) ["CODE128"; "EAN13"; "JAN"; "CODE39"; "ITF"].
Definition isSizeOverride (s : string) : bool :=
  existsb (String.eqb s) ["auto"; "small"; "medium"; "large"].

Definition wellTypedBlock (b : Block) : bool :=
  (isCodeType (codeType b) && isQRErrorCorrectionLevel (qrErrorCorrection b)
   && isBarcodeFormat (barcodeFormat b) && isSizeOverride (sizeOverride b))%bool.

(* ------------------------------------------------------------------ *)
(** * js/utils.js *)
(* ------------------------------------------------------------------ *)

(** [createNewBlock()]; the identifier comes from [generateUUID()]. *)
Definition createNewBlock (uuid : string) : Block := DEFAULTS.block uuid.

Definition createDefaultSettings : GlobalSettings := DEFAULTS.globalSettings.

(** Property lookup in the [DELIMITERS] table (own properties only). *)
Fixpoint lookup (key : string) (table : list (string * string)) : option string :=
  match table with
  | [] => None
  | (k, v) :: r => if String.eqb k key then Some v else lookup key r
  end.

Definition getDelimiter (delimiterType customDelimiter : string) : string :=
  if String.eqb delimiterType "custom"
  then JS.or customDelimiter (JS.str JS.LF)
  else
    match lookup delimiterType CONSTANTS.DELIMITERS with
    | Some d => JS.or d (JS.str JS.LF)
    | None => JS.str JS.LF
    end.

Definition parseContent (content delimiter : string) : list string :=
  filter (fun item => Nat.ltb 0 (String.length item))
         (map JS.trim (JS.split delimiter content)).

(** Character classes of the three regular expressions. *)
Definition inRange (lo hi : nat) (c : ascii) : bool :=
  let n := nat_of_ascii c in (Nat.leb lo n && Nat.leb n hi)%bool.

(** [\x20-\x7E] *)
Definition isAsciiChar (c : ascii) : bool := inRange 32 126 c.

(** [\d] *)
Definition isDigitChar (c : ascii) : bool := inRange 48 57 c.

(** [A-Z0-9\-. $/+%] *)
Definition isCode39Char (c : ascii) : bool :=
  (inRange 65 90 c || inRange 48 57 c
   || Ascii.eqb c "-" || Ascii.eqb c "." || Ascii.eqb c " "
   || Ascii.eqb c "$" || Ascii.eqb c "/" || Ascii.eqb c "+"
   || Ascii.eqb c "%")%bool.

(** [/^[\x20-\x7E]*$/.test(str)] *)
Definition isAscii (s : string) : bool := JS.all isAsciiChar s.

(** [/^\d+$/.test(str)]: at least one unit. *)
Definition isNumeric (s : string) : bool :=
  match s with
  | EmptyString => false
  | _ => JS.all isDigitChar s
  end.

(** [/^[A-Z0-9\-. $/+%]*$/.test(str)] *)
Definition isCode39Compatible (s : string) : bool := JS.all isCode39Char s.

Definition getQRSize (moduleCount : nat) : string :=
  if Nat.leb moduleCount 33 then "small" else "medium".

Definition getBarcodeSize (textLength : nat) : string :=
  if Nat.leb textLength 16 then "small" else "medium".

(** The validation objects of the code: [{valid: true}] and
    [{valid: false, error}], which [validateBarcodeFormat] returns, and
    [{valid: false, error: undefined}], which only the [catch] of
    [BarcodeGenerator.generate] can build, from a thrown value that has
    no [message]. *)
Inductive Validation :=
| Valid
| Invalid (error : string)
| InvalidNoMessage.

Definition valid (v : Validation) : bool :=
  match v with
  | Valid => true
  | Invalid _ => false
  | InvalidNoMessage => false
  end.

(** [v.error], [undefined] on a valid result and on a failure without a
    message. *)
Definition error (v : Validation) : option string :=
  match v with
  | Valid => None
  | Invalid e => Some e
  | InvalidNoMessage => None
  end.

(** The messages of the validator. *)
Module Msg.
Definition nonAscii : string := "非ASCII文字を含む（CODE128はASCII文字のみ対応）".
Definition digitsOnly : string := "数字のみ入力してください".
Definition eanLength : string := "12桁または13桁の数字を入力してください".
Definition code39 : string := "CODE39は英大文字、数字、記号(-. $/+%)のみ対応".
Definition itfOdd : string := "ITFは偶数桁のみ対応".
Definition unknownFormat : string := "不明なバーコード形式".
Definition qrFailed : string := "QRコード生成に失敗しました".
Definition barcodeFailed : string := "バーコード生成に失敗しました".
Definition barcodeLibrary : string := "バーコードライブラリが読み込まれていません".
End Msg.

Section Validation.

(** [String.prototype.toUpperCase], a builtin of the host. *)
Variable toUpperCase : string -> string.

Definition validateEAN (text : string) : Validation :=
  if negb (isNumeric text) then Invalid Msg.digitsOnly
  else if (negb (Nat.eqb (String.length text) 12)
           && negb (Nat.eqb (String.length text) 13))%bool
  then Invalid Msg.eanLength
  else Valid.

Definition validateBarcodeFormat (text format : string) : Validation :=
  if String.eqb format "CODE128" then
    if negb (isAscii text) then Invalid Msg.nonAscii else Valid
  else if (String.eqb format "EAN13" || String.eqb format "JAN")%bool then
    validateEAN text
  else if String.eqb format "CODE39" then
    if negb (isCode39Compatible (toUpperCase text)) then Invalid Msg.code39
    else Valid
  else if String.eqb format "ITF" then
    if negb (isNumeric text) then Invalid Msg.digitsOnly
    else if negb (Nat.eqb (Nat.modulo (String.length text) 2) 0)
    then Invalid Msg.itfOdd
    else Valid
  else Invalid Msg.unknownFormat.

End Validation.

(** [toUpperCase] on the units below 128, where it stays inside them. *)
Definition asciiUpperChar (c : ascii) : ascii :=
  if inRange 97 122 c then ascii_of_nat (nat_of_ascii c - 32) else c.

Fixpoint asciiToUpperCase (s : string) : string :=
  match s with
  | EmptyString => EmptyString
  | String c r => String (asciiUpperChar c) (asciiToUpperCase r)
  end.

(** ** CSV *)

(** The state of the scanning loop of [parseCSV]. *)
Record CsvState := mkCsv {
  result : list (list string);
  row : list string;
  current : string;
  inQuote : bool
}.

(** One pass of the [for] loop from position [i] on, [text] being the
    units from [i] to the end; [i++] inside the body is a recursive call
    on the text after [nextChar]. *)
Fixpoint parseCSV_loop (text : string) (st : CsvState) : CsvState :=
  match text with
  | EmptyString => st
  | String char rest =>
      let nextIs (c : ascii) : bool :=
        match rest with String n _ => Ascii.eqb n c | EmptyString => false end in
      let skipNext (st' : CsvState) : CsvState :=
        match rest with
        | String _ rest' => parseCSV_loop rest' st'
        | EmptyString => st'
        end in
      if inQuote st then
        if Ascii.eqb char JS.DQUOTE then
          if nextIs JS.DQUOTE
          then skipNext (mkCsv (result st) (row st)
                               (JS.snoc (current st) JS.DQUOTE) true)
          else parseCSV_loop rest (mkCsv (result st) (row st) (current st) false)
        else parseCSV_loop rest
               (mkCsv (result st) (row st) (JS.snoc (current st) char) true)
      else
        if Ascii.eqb char JS.DQUOTE then
          parseCSV_loop rest (mkCsv (result st) (row st) (current st) true)
        else if Ascii.eqb char JS.COMMA then
          parseCSV_loop rest
            (mkCsv (result st) (row st ++ [current st]) EmptyString false)
        else if (Ascii.eqb char JS.LF || Ascii.eqb char JS.CR)%bool then
          let st' := mkCsv (result st ++ [row st ++ [current st]]) []
                           EmptyString false in
          if (Ascii.eqb char JS.CR && nextIs JS.LF)%bool
          then skipNext st'
          else parseCSV_loop rest st'
        else parseCSV_loop rest
               (mkCsv (result st) (row st) (JS.snoc (current st) char) false)
  end.

Definition parseCSV (text : string) : list (list string) :=
  let st := parseCSV_loop text (mkCsv [] [] EmptyString false) in
  if (JS.truthy (current st) || Nat.ltb 0 (List.length (row st)))%bool
  then result st ++ [row st ++ [current st]]
  else result st.

(** [stringField.replace] of every double quote by two of them. *)
Fixpoint escapeQuotes (s : string) : string :=
  match s with
  | EmptyString => EmptyString
  | String c r =>
      if Ascii.eqb c JS.DQUOTE
      then String JS.DQUOTE (String JS.DQUOTE (escapeQuotes r))
      else String c (escapeQuotes r)
  end.

(** The field callback of [toCSV]; [String(field || '')] is [field] on a
    string. *)
Definition csvField (field : string) : string :=
  let stringField := JS.or field EmptyString in
  if (JS.includes JS.DQUOTE stringField || JS.includes JS.COMMA stringField
      || JS.includes JS.LF stringField)%bool
  then JS.str JS.DQUOTE ++ escapeQuotes stringField ++ JS.str JS.DQUOTE
  else stringField.

Definition toCSV (data : list (list string)) : string :=
  JS.join (JS.str JS.LF)
    (map (fun row => JS.join "," (map csvField row)) data).

(* ------------------------------------------------------------------ *)
(** * js/qrGenerator.js and js/barcodeGenerator.js *)
(* ------------------------------------------------------------------ *)

(** The result of [QRGenerator.generate] when it is not [null]. *)
Record QRData := mkQRData {
  svgString : string;
  moduleCount : nat;
  qrSize : string
}.

(** The result of [BarcodeGenerator.generate]. *)
Record BarcodeData := mkBarcodeData {
  svg : option string;
  barcodeSize : string;
  validation : Validation
}.

(** What the barcode library does on one call: it fills the SVG element,
    or throws an error with a message, or throws a value that has no
    [message] (a bare string), on which [error.message] is [undefined]. *)
Inductive Drawing :=
| Drawn (picture : string)
| Throws (message : string)
| ThrowsNoMessage.

(** An invocation of a drawing library, as a generation run logs it. *)
Inductive Call :=
| CallQR (text errorCorrectionLevel : string)
| CallBarcode (text format : string).

Section Generators.

Variable toUpperCase : string -> string.

(** The QR library, [undefined] ([None]) when its script did not load.
    One use of it is [qrcode(0, level)], [addData(text)], [make()], then
    [createSvgTag] and [getModuleCount]: the tag and the count, or [None]
    when one of the calls throws. *)
Variable qrcode : option (string -> string -> option (string * nat)).

(** The barcode library [JsBarcode(svg, text, {format, ...})], [undefined]
    ([None]) when its script did not load. *)
Variable JsBarcode : option (string -> string -> Drawing).

Definition QRGenerator_generate (text errorCorrectionLevel : string)
  : option QRData * list Call :=
  match qrcode with
  | None => (None, [])
  | Some make =>
      (match make text errorCorrectionLevel with
       | Some (svgTag, count) => Some (mkQRData svgTag count (getQRSize count))
       | None => None
       end,
       [CallQR text errorCorrectionLevel])
  end.

(** [getFormatConfig(format).format]; [generate] reads it after the
    validator has accepted the format, which is then one of the five keys
    of the table. *)
Definition getFormatConfig (format : string) : string :=
  if String.eqb format "CODE128" then "CODE128"
  else if String.eqb format "EAN13" then "EAN13"
  else if String.eqb format "JAN" then "EAN13"
  else if String.eqb format "CODE39" then "CODE39"
  else if String.eqb format "ITF" then "ITF"
  else "CODE128".

Definition BarcodeGenerator_generate (text format : string)
  : BarcodeData * list Call :=
  match JsBarcode with
  | None => (mkBarcodeData None "medium" (Invalid Msg.barcodeLibrary), [])
  | Some draw =>
      let validation := validateBarcodeFormat toUpperCase text format in
      if negb (valid validation) then
        (mkBarcodeData None (getBarcodeSize (String.length text)) validation, [])
      else
        let config := getFormatConfig format in
        (match draw text config with
         | Drawn picture =>
             mkBarcodeData (Some picture) (getBarcodeSize (String.length text))
                           Valid
         | Throws message =>
             mkBarcodeData None "medium" (Invalid message)
         | ThrowsNoMessage =>
             mkBarcodeData None "medium" InvalidNoMessage
         end,
         [CallBarcode text config])
  end.

End Generators.

(* ------------------------------------------------------------------ *)
(** * Results of a generation run *)
(* ------------------------------------------------------------------ *)

Inductive CodeData :=
| OfQR (qrData : QRData)
| OfBarcode (barcodeData : BarcodeData).

(** An entry of [codes].  The key [subtitle] is absent from the entries
    built by [finalizeCodesFromWorker]. *)
Record GeneratedCode := mkCode {
  code_blockId : string;
  code_blockIndex : nat;
  code_index : nat;
  code_text : string;
  code_type : string;
  code_data : CodeData;
  code_size : string;
  code_subtitle : option string
}.

(** An entry of [errors]. *)
Record ValidationError := mkError {
  err_blockId : string;
  err_lineNumber : nat;
  err_text : string;
  errorType : string;
  message : string
}.

(* ------------------------------------------------------------------ *)
(** * js/store.js: the AppStore class *)
(* ------------------------------------------------------------------ *)

Record State := mkState {
  blocks : list Block;
  settings : GlobalSettings;
  generatedCodes : list GeneratedCode;
  errors : list ValidationError;
  mode : string;
  isGenerating : bool;
  progress : nat * nat
}.

(** An entry of [history]: [{blocks, settings}]. *)
Record Snapshot := mkSnapshot {
  snap_blocks : list Block;
  snap_settings : GlobalSettings
}.

Record AppStore := mkStore {
  state : State;
  history : list Snapshot;
  historyIndex : Z
}.

(** The argument of [setState]: an object holding some of the keys of the
    state. *)
Record StateUpdate := mkStateUpdate {
  new_blocks : option (list Block);
  new_settings : option GlobalSettings;
  new_generatedCodes : option (list GeneratedCode);
  new_errors : option (list ValidationError);
  new_mode : option string;
  new_isGenerating : option bool;
  new_progress : option (nat * nat)
}.

Definition noUpdate : StateUpdate :=
  mkStateUpdate None None None None None None None.

(** The argument of [updateBlock]. *)
Record BlockUpdates := mkBlockUpdates {
  upd_id : option string;
  upd_subtitle : option string;
  upd_codeType : option string;
  upd_qrErrorCorrection : option string;
  upd_barcodeFormat : option string;
  upd_sizeOverride : option string;
  upd_content : option string
}.

(** The argument of [updateSettings]. *)
Record SettingsUpdates := mkSettingsUpdates {
  upd_printTitle : option string;
  upd_delimiter : option string;
  upd_customDelimiter : option string;
  upd_theme : option string;
  upd_paperSize : option string;
  upd_paperOrientation : option string
}.

(** A key of a spread [{...old, ...new}]: the new value when present. *)
Definition spread {A} (old : A) (new : option A) : A :=
  match new with Some v => v | None => old end.

Definition spreadState (s : State) (u : StateUpdate) : State :=
  {| blocks := spread (blocks s) (new_blocks u);
     settings := spread (settings s) (new_settings u);
     generatedCodes := spread (generatedCodes s) (new_generatedCodes u);
     errors := spread (errors s) (new_errors u);
     mode := spread (mode s) (new_mode u);
     isGenerating := spread (isGenerating s) (new_isGenerating u);
     progress := spread (progress s) (new_progress u) |}.

Definition spreadBlock (b : Block) (u : BlockUpdates) : Block :=
  {| id := spread (id b) (upd_id u);
     subtitle := spread (subtitle b) (upd_subtitle u);
     codeType := spread (codeType b) (upd_codeType u);
     qrErrorCorrection := spread (qrErrorCorrection b) (upd_qrErrorCorrection u);
     barcodeFormat := spread (barcodeFormat b) (upd_barcodeFormat u);
     sizeOverride := spread (sizeOverride b) (upd_sizeOverride u);
     content := spread (content b) (upd_content u) |}.

Definition spreadSettings (s : GlobalSettings) (u : SettingsUpdates)
  : GlobalSettings :=
  {| printTitle := spread (printTitle s) (upd_printTitle u);
     delimiter := spread (delimiter s) (upd_delimiter u);
     customDelimiter := spread (customDelimiter s) (upd_customDelimiter u);
     theme := spread (theme s) (upd_theme u);
     paperSize := spread (paperSize s) (upd_paperSize u);
     paperOrientation := spread (paperOrientation s) (upd_paperOrientation u) |}.

(** [deepClone] is [JSON.parse(JSON.stringify(obj))]: on objects whose
    leaves are strings it builds a fresh object with the same keys and
    values. *)
Definition deepCloneBlock (b : Block) : Block :=
  mkBlock (id b) (subtitle b) (codeType b) (qrErrorCorrection b)
          (barcodeFormat b) (sizeOverride b) (content b).

Definition deepCloneBlocks (l : list Block) : list Block := map deepCloneBlock l.

Definition deepCloneSettings (s : GlobalSettings) : GlobalSettings :=
  mkSettings (printTitle s) (delimiter s) (customDelimiter s) (theme s)
             (paperSize s) (paperOrientation s).

Definition deepCloneSnapshot (blocks : list Block) (settings : GlobalSettings)
  : Snapshot :=
  mkSnapshot (deepCloneBlocks blocks) (deepCloneSettings settings).

Module Store.

(** [new AppStore()] *)
Definition constructor (uuid : string) : AppStore :=
  {| state := {| blocks := [createNewBlock uuid];
                 settings := createDefaultSettings;
                 generatedCodes := [];
                 errors := [];
                 mode := "edit";
                 isGenerating := false;
                 progress := (0, 0) |};
     history := [];
     historyIndex := -1 |}.

Definition recordHistory (st : AppStore) : AppStore :=
  let history1 := JS.slice0 (historyIndex st + 1) (history st) in
  let history2 :=
    history1 ++ [deepCloneSnapshot (blocks (state st)) (settings (state st))] in
  if Nat.ltb CONSTANTS.MAX_HISTORY (List.length history2)
  then mkStore (state st) (tl history2) (historyIndex st)
  else mkStore (state st) history2 (historyIndex st + 1).

Definition setState (newState : StateUpdate) (record : bool) (st : AppStore)
  : AppStore :=
  let st1 := if record then recordHistory st else st in
  mkStore (spreadState (state st1) newState) (history st1) (historyIndex st1).

Definition withBlocks (l : list Block) : StateUpdate :=
  mkStateUpdate (Some l) None None None None None None.

Definition addBlock (uuid : string) (st : AppStore) : AppStore :=
  let newBlock := createNewBlock uuid in
  setState (withBlocks (blocks (state st) ++ [newBlock])) true st.

Definition removeBlock (id0 : string) (st : AppStore) : AppStore :=
  if Nat.leb (List.length (blocks (state st))) 1 then st
  else
    setState
      (withBlocks (filter (fun b => negb (String.eqb (id b) id0))
                          (blocks (state st))))
      true st.

Definition updateBlock (id0 : string) (updates : BlockUpdates) (st : AppStore)
  : AppStore :=
  setState
    (withBlocks (map (fun b => if String.eqb (id b) id0
                               then spreadBlock b updates else b)
                     (blocks (state st))))
    true st.

(** [newId] is the value of [crypto.randomUUID()] or [Date.now()]. *)
Definition duplicateBlock (id0 newId : string) (st : AppStore) : AppStore :=
  match find (fun b => String.eqb (id b) id0) (blocks (state st)) with
  | None => st
  | Some block =>
      let newBlock := spreadBlock (deepCloneBlock block)
                        (mkBlockUpdates (Some newId) None None None None None None) in
      match JS.findIndex (fun b => String.eqb (id b) id0) (blocks (state st)) with
      | Some index =>
          setState (withBlocks (JS.insertAt (index + 1) newBlock
                                            (blocks (state st)))) true st
      | None => st
      end
  end.

(** [reorderBlocks(fromIndex, toIndex)] for a position [fromIndex] of the
    list, as the drop handler calls it.  Past the end the source moves
    [undefined], a value no list of blocks holds: [None]. *)
Definition reorderBlocks (fromIndex toIndex : nat) (st : AppStore)
  : option AppStore :=
  match JS.at_ (blocks (state st)) fromIndex with
  | Some removed =>
      let blocks1 := JS.removeAt fromIndex (blocks (state st)) in
      Some (setState (withBlocks (JS.insertAt toIndex removed blocks1)) true st)
  | None => None
  end.

Definition updateSettings (updates : SettingsUpdates) (st : AppStore)
  : AppStore :=
  setState
    (mkStateUpdate None (Some (spreadSettings (settings (state st)) updates))
                   None None None None None)
    true st.

Definition setGeneratedCodes (codes : list GeneratedCode) (st : AppStore)
  : AppStore :=
  setState (mkStateUpdate None None (Some codes) None None None None) false st.

Definition setErrors (errs : list ValidationError) (st : AppStore) : AppStore :=
  setState (mkStateUpdate None None None (Some errs) None None None) false st.

Definition setGenerating (flag : bool) (st : AppStore) : AppStore :=
  setState (mkStateUpdate None None None None None (Some flag) None) false st.

Definition setProgress (current total : nat) (st : AppStore) : AppStore :=
  setState (mkStateUpdate None None None None None None (Some (current, total)))
           false st.

Definition setMode (m : string) (st : AppStore) : AppStore :=
  setState (mkStateUpdate None None None None (Some m) None None) false st.

Definition reset (uuid : string) (st : AppStore) : AppStore :=
  let st1 :=
    setState
      (mkStateUpdate (Some [createNewBlock uuid]) (Some createDefaultSettings)
                     (Some []) (Some []) (Some "edit") (Some false)
                     (Some (0, 0)))
      true st in
  mkStore (state st1) [] (-1).

Definition canUndo (st : AppStore) : bool := (0 <? historyIndex st)%Z.

Definition canRedo (st : AppStore) : bool :=
  (historyIndex st <? Z.of_nat (List.length (history st)) - 1)%Z.

(** The assignment shared by [undo] and [redo], after the move of the
    cursor to [i]: [None] when [history[i]] is [undefined], where reading
    its [blocks] throws. *)
Definition restore (i : Z) (st : AppStore) : option AppStore :=
  match JS.atZ (history st) i with
  | Some entry =>
      Some (mkStore
              (spreadState (state st)
                 (mkStateUpdate (Some (deepCloneBlocks (snap_blocks entry)))
                                (Some (deepCloneSettings (snap_settings entry)))
                                None None None None None))
              (history st) i)
  | None => None
  end.

Definition undo (st : AppStore) : option AppStore :=
  if negb (canUndo st) then Some st
  else restore (historyIndex st - 1) st.

Definition redo (st : AppStore) : option AppStore :=
  if negb (canRedo st) then Some st
  else restore (historyIndex st + 1) st.

(** The argument of [fromJSON]: the keys [blocks] and [globalSettings] of
    a parsed file or of a saved record, either of which may be missing. *)
Record SavedData := mkSavedData {
  data_version : option string;
  data_globalSettings : option SettingsUpdates;
  data_blocks : option (list Block)
}.

(** An array is truthy, the empty one too: [data.blocks || [...]] keeps
    every array. *)
Definition fromJSON (uuid : string) (data : SavedData) (st : AppStore)
  : AppStore :=
  setState
    (mkStateUpdate
       (Some (match data_blocks data with
              | Some l => l
              | None => [createNewBlock uuid]
              end))
       (Some (spreadSettings createDefaultSettings
                (match data_globalSettings data with
                 | Some u => u
                 | None => mkSettingsUpdates None None None None None None
                 end)))
       None None None None None)
    true st.

End Store.

(* ------------------------------------------------------------------ *)
(** * worker.js: the enumeration worker *)
(* ------------------------------------------------------------------ *)

(** An entry of the flat list the worker returns. *)
Record WorkItem := mkWorkItem {
  item_blockId : string;
  item_blockIndex : nat;
  item_itemIndex : nat;
  item_text : string;
  item_codeType : string;
  item_qrErrorCorrection : string;
  item_barcodeFormat : string;
  item_sizeOverride : string
}.

(** Messages to the worker and from it. *)
Inductive WorkerRequest :=
| GENERATE_CODES (blocks : list Block) (settings : GlobalSettings).

Inductive WorkerMessage :=
| PROGRESS (current total : nat)
| COMPLETE (results : list WorkItem)
| ERROR (description : string).

Module Worker.

(** The worker has its own copies of the two helpers. *)
Definition getDelimiter (delimiterType customDelimiter : string) : string :=
  let delimiters :=
    [ ("newline", JS.str JS.LF); ("comma", ","); ("semicolon", ";");
      ("tab", JS.str JS.TAB);
      ("custom", JS.or customDelimiter (JS.str JS.LF)) ] in
  match lookup delimiterType delimiters with
  | Some d => JS.or d (JS.str JS.LF)
  | None => JS.str JS.LF
  end.

Definition parseContent (content : string) (settings : GlobalSettings)
  : list string :=
  let delimiter := getDelimiter (delimiter settings) (customDelimiter settings) in
  filter (fun item => Nat.ltb 0 (String.length item))
         (map JS.trim (JS.split delimiter content)).

(** The first [forEach]: the count of all items. *)
Definition countItems (blocks : list Block) (settings : GlobalSettings) : nat :=
  fold_left
    (fun totalItems block =>
       if JS.truthy (JS.trim (content block))
       then totalItems + List.length (parseContent (content block) settings)
       else totalItems)
    blocks 0.

(** The loop variables of the second [forEach]. *)
Record Progress := mkProgress {
  results : list WorkItem;
  processedItems : nat;
  posted : list WorkerMessage
}.

Fixpoint forItems (totalItems : nat) (block : Block) (blockIndex : nat)
    (items : list string) (itemIndex : nat) (p : Progress) : Progress :=
  match items with
  | [] => p
  | item :: rest =>
      let results1 :=
        results p ++
        [mkWorkItem (id block) blockIndex itemIndex item (codeType block)
                    (qrErrorCorrection block) (barcodeFormat block)
                    (sizeOverride block)] in
      let processed1 := processedItems p + 1 in
      let posted1 :=
        if (Nat.eqb (Nat.modulo processed1 10) 0
            || Nat.eqb processed1 totalItems)%bool
        then posted p ++ [PROGRESS processed1 totalItems]
        else posted p in
      forItems totalItems block blockIndex rest (itemIndex + 1)
               (mkProgress results1 processed1 posted1)
  end.

Fixpoint forBlocks (totalItems : nat) (settings : GlobalSettings)
    (blocks : list Block) (blockIndex : nat) (p : Progress) : Progress :=
  match blocks with
  | [] => p
  | block :: rest =>
      let p1 :=
        if JS.truthy (JS.trim (content block))
        then forItems totalItems block blockIndex
                      (parseContent (content block) settings) 0 p
        else p in
      forBlocks totalItems settings rest (blockIndex + 1) p1
  end.

(** The listener: all the messages posted for one request, in order. *)
Definition onmessage (request : WorkerRequest) : list WorkerMessage :=
  match request with
  | GENERATE_CODES blocks settings =>
      let totalItems := countItems blocks settings in
      let p := forBlocks totalItems settings blocks 0 (mkProgress [] 0 []) in
      posted p ++ [COMPLETE (results p)]
  end.

End Worker.

(* ------------------------------------------------------------------ *)
(** * js/app_v2.js: the QRBarcodeApp class *)
(* ------------------------------------------------------------------ *)

(** The fields of the application the generation uses.  [worker] is
    [null] ([None]) when [new Worker] threw in [initWorker]; otherwise it
    holds the messages posted to the worker so far. *)
Record QRBarcodeApp := mkApp {
  store : AppStore;
  worker : option (list WorkerRequest)
}.

(** The local variables of a generation run: the two arrays, and the log
    of the calls made to the drawing libraries. *)
Record Run := mkRun {
  codes : list GeneratedCode;
  run_errors : list ValidationError;
  calls : list Call
}.

Definition emptyRun : Run := mkRun [] [] [].

Definition pushCode (r : Run) (c : GeneratedCode) (log : list Call) : Run :=
  mkRun (codes r ++ [c]) (run_errors r) (calls r ++ log).

Definition pushError (r : Run) (e : ValidationError) (log : list Call) : Run :=
  mkRun (codes r) (run_errors r ++ [e]) (calls r ++ log).

(** [validation.error || fallback] *)
Definition errorOr (v : Validation) (fallback : string) : string :=
  match error v with
  | Some e => JS.or e fallback
  | None => fallback
  end.

(** [message: validation.error], read on an invalid result. *)
Definition errorOf (v : Validation) : string :=
  match error v with
  | Some e => e
  | None => EmptyString
  end.

(** The step 2 of the planner: the count over all blocks. *)
Definition countItems (blocks : list Block) (delimiter : string) : nat :=
  fold_left
    (fun totalCount block =>
       if JS.truthy (JS.trim (content block))
       then totalCount + List.length (parseContent (content block) delimiter)
       else totalCount)
    blocks 0.

Section App.

Variable toUpperCase : string -> string.
Variable qrcode : option (string -> string -> option (string * nat)).
Variable JsBarcode : option (string -> string -> Drawing).

(** The body of [items.forEach] in [generateCodes]; the pair holds the
    arrays and the counter [itemIndex]. *)
Definition encodeItem (block : Block) (blockIndex : nat)
    (st : Run * nat) (text : string) : Run * nat :=
  let (r, itemIndex) := st in
  if String.eqb (codeType block) "qr" then
    let (qrData, log) := QRGenerator_generate qrcode text (qrErrorCorrection block) in
    match qrData with
    | Some q =>
        let size := if String.eqb (sizeOverride block) "auto"
                    then qrSize q else sizeOverride block in
        (pushCode r
           (mkCode (id block) blockIndex itemIndex text "qr" (OfQR q) size
                   (Some (subtitle block)))
           log,
         itemIndex + 1)
    | None =>
        (pushError r
           (mkError (id block) itemIndex text "generation_failed" Msg.qrFailed)
           log,
         itemIndex + 1)
    end
  else
    let checked := validateBarcodeFormat toUpperCase text (barcodeFormat block) in
    if negb (valid checked) then
      (pushError r
         (mkError (id block) itemIndex text "validation_failed"
                  (errorOf checked))
         [],
       itemIndex + 1)
    else
      let (barcodeData, log) :=
        BarcodeGenerator_generate toUpperCase JsBarcode text (barcodeFormat block) in
      match svg barcodeData with
      | Some _ =>
          let size := if String.eqb (sizeOverride block) "auto"
                      then barcodeSize barcodeData else sizeOverride block in
          (pushCode r
             (mkCode (id block) blockIndex itemIndex text "barcode"
                     (OfBarcode barcodeData) size (Some (subtitle block)))
             log,
           itemIndex + 1)
      | None =>
          (pushError r
             (mkError (id block) itemIndex text "generation_failed"
                      (errorOr (validation barcodeData) Msg.barcodeFailed))
             log,
           itemIndex + 1)
      end.

(** The body of [blocks.forEach]. *)
Definition encodeBlock (delimiter : string) (block : Block) (blockIndex : nat)
    (r : Run) : Run :=
  if negb (JS.truthy (JS.trim (content block))) then r
  else
    let items := parseContent (content block) delimiter in
    fst (fold_left (encodeItem block blockIndex) items (r, 1)).

Fixpoint encodeBlocks (delimiter : string) (blocks : list Block)
    (blockIndex : nat) (r : Run) : Run :=
  match blocks with
  | [] => r
  | block :: rest =>
      encodeBlocks delimiter rest (blockIndex + 1)
                   (encodeBlock delimiter block blockIndex r)
  end.

(** The direct path of [generateCodes], from [blocks.forEach] to the three
    writes to the store. *)
Definition generateDirect (blocks : list Block) (settings : GlobalSettings)
  : Run :=
  let delimiter := getDelimiter (delimiter settings) (customDelimiter settings) in
  encodeBlocks delimiter blocks 0 emptyRun.

Definition generateWithWorker (blocks : list Block) (settings : GlobalSettings)
    (app : QRBarcodeApp) : QRBarcodeApp :=
  mkApp (Store.setGenerating true (store app))
        (option_map (fun sent => sent ++ [GENERATE_CODES blocks settings])
                    (worker app)).

(** [generateCodes()]: the application after the call, and the calls made
    to the drawing libraries during it. *)
Definition generateCodes (app : QRBarcodeApp) : QRBarcodeApp * list Call :=
  let blocks := blocks (state (store app)) in
  let settings := settings (state (store app)) in
  let delimiter := getDelimiter (delimiter settings) (customDelimiter settings) in
  let totalCount := countItems blocks delimiter in
  if (Nat.leb CONSTANTS.PROGRESS_THRESHOLD totalCount
      && match worker app with Some _ => true | None => false end)%bool
  then (generateWithWorker blocks settings app, [])
  else
    let store1 := Store.setGenerating true (store app) in
    let r := encodeBlocks delimiter blocks 0 emptyRun in
    let store2 := Store.setGenerating false store1 in
    let store3 := Store.setGeneratedCodes (codes r) store2 in
    let store4 := Store.setErrors (run_errors r) store3 in
    (mkApp store4 (worker app), calls r).

(** The body of [results.forEach] in [finalizeCodesFromWorker]. *)
Definition finalizeItem (r : Run) (item : WorkItem) : Run :=
  if String.eqb (item_codeType item) "qr" then
    let (qrData, log) :=
      QRGenerator_generate qrcode (item_text item) (item_qrErrorCorrection item) in
    match qrData with
    | Some q =>
        let size := if String.eqb (item_sizeOverride item) "auto"
                    then qrSize q else item_sizeOverride item in
        pushCode r
          (mkCode (item_blockId item) (item_blockIndex item)
                  (item_itemIndex item + 1) (item_text item) "qr" (OfQR q)
                  size None)
          log
    | None => mkRun (codes r) (run_errors r) (calls r ++ log)
    end
  else
    let (barcodeData, log) :=
      BarcodeGenerator_generate toUpperCase JsBarcode (item_text item)
                                (item_barcodeFormat item) in
    match svg barcodeData with
    | Some _ =>
        let size := if String.eqb (item_sizeOverride item) "auto"
                    then barcodeSize barcodeData else item_sizeOverride item in
        pushCode r
          (mkCode (item_blockId item) (item_blockIndex item)
                  (item_itemIndex item + 1) (item_text item) "barcode"
                  (OfBarcode barcodeData) size None)
          log
    | None => mkRun (codes r) (run_errors r) (calls r ++ log)
    end.

(** The two arrays of [finalizeCodesFromWorker] when its loop ends. *)
Definition finalizeRun (results : list WorkItem) : Run :=
  fold_left finalizeItem results emptyRun.

(** [finalizeCodesFromWorker(results)]: only [codes] reaches the store. *)
Definition finalizeCodesFromWorker (results : list WorkItem)
    (app : QRBarcodeApp) : QRBarcodeApp :=
  mkApp (Store.setGeneratedCodes (codes (finalizeRun results)) (store app))
        (worker app).

Definition handleWorkerMessage (m : WorkerMessage) (app : QRBarcodeApp)
  : QRBarcodeApp :=
  match m with
  | PROGRESS current total =>
      mkApp (Store.setProgress current total (store app)) (worker app)
  | COMPLETE results =>
      finalizeCodesFromWorker results
        (mkApp (Store.setGenerating false (store app)) (worker app))
  | ERROR _ =>
      mkApp (Store.setGenerating false (store app)) (worker app)
  end.

End App.

(** ** Export and import of the columnar CSV format *)

(** [lines[i] || ''] *)
Definition lineOr (lines : list string) (i : nat) : string :=
  match JS.at_ lines i with
  | Some l => JS.or l EmptyString
  | None => EmptyString
  end.

(** [Math.max(...lengths, 0)] *)
Definition maxLength (blockContents : list (list string)) : nat :=
  fold_right Nat.max 0 (map (@List.length string) blockContents).

(** The rows [exportData] hands to [toCSV]. *)
Definition exportRows (blocks : list Block) : list (list string) :=
  let blockContents :=
    map (fun b => if negb (JS.truthy (content b)) then []
                  else JS.splitLines (content b)) blocks in
  let maxLines := maxLength blockContents in
  [ "Subtitle" :: map (fun b => JS.or (subtitle b) EmptyString) blocks;
    "CodeType" :: map codeType blocks;
    "QRErrorCorrection" :: map qrErrorCorrection blocks;
    "BarcodeFormat" :: map barcodeFormat blocks;
    "SizeOverride" :: map sizeOverride blocks ]
  ++ map (fun i =>
            (if Nat.eqb i 0 then "Content" else EmptyString)
            :: map (fun lines => lineOr lines i) blockContents)
         (seq 0 maxLines).

(** The text [exportData] writes. *)
Definition exportCSV (blocks : list Block) : string := toCSV (exportRows blocks).

(** [row[0] === key] *)
Definition firstCellIs (key : string) (row : list string) : bool :=
  match JS.at_ row 0 with
  | Some c => String.eqb c key
  | None => false
  end.

(** [findRow(key)] *)
Definition findRow (csvData : list (list string)) (key : string)
  : option (list string) :=
  find (firstCellIs key) csvData.

(** [row[col] || fallback] *)
Definition cellOr (row : list string) (col : nat) (fallback : string) : string :=
  match JS.at_ row col with
  | Some c => JS.or c fallback
  | None => fallback
  end.

Definition knownKeys : list string :=
  ["Subtitle"; "CodeType"; "QRErrorCorrection"; "BarcodeFormat"; "SizeOverride"].

(** The test that ends the content loop at a row after the first. *)
Definition isKeyRow (row : list string) : bool :=
  match JS.at_ row 0 with
  | Some c => (JS.truthy c && existsb (String.eqb c) knownKeys)%bool
  | None => false
  end.

(** [csvData[i][col]], [undefined] read as the empty string. *)
Definition cell (row : list string) (col : nat) : string :=
  match JS.at_ row col with
  | Some c => c
  | None => EmptyString
  end.

(** The content loop from the row after the content row on. *)
Fixpoint contentBelow (col : nat) (rows : list (list string)) : list string :=
  match rows with
  | [] => []
  | r :: rest => if isKeyRow r then [] else cell r col :: contentBelow col rest
  end.

(** The content loop: [rows] starts at the content row. *)
Definition contentLines (col : nat) (rows : list (list string)) : list string :=
  match rows with
  | [] => []
  | r :: rest => cell r col :: contentBelow col rest
  end.

(** The [while] loop that pops the empty strings at the end. *)
Definition dropTrailingEmpty (l : list string) : list string :=
  fold_right (fun x acc =>
                match acc with
                | [] => if String.eqb x EmptyString then [] else [x]
                | _ => x :: acc
                end) [] l.

(** The body of the [for] loop over the columns; [uuid] is the identifier
    [createNewBlock] draws. *)
Definition importBlock (csvData : list (list string)) (uuid : string)
    (col : nat) : Block :=
  let b0 := createNewBlock uuid in
  let b1 := match findRow csvData "Subtitle" with
            | Some r => spreadBlock b0
                (mkBlockUpdates None (Some (cellOr r col EmptyString))
                                None None None None None)
            | None => b0
            end in
  let b2 := match findRow csvData "CodeType" with
            | Some r => spreadBlock b1
                (mkBlockUpdates None None
                   (Some (if String.eqb (cell r col) "barcode"
                          then "barcode" else "qr"))
                   None None None None)
            | None => b1
            end in
  let b3 := match findRow csvData "QRErrorCorrection" with
            | Some r => spreadBlock b2
                (mkBlockUpdates None None None (Some (cellOr r col "M"))
                                None None None)
            | None => b2
            end in
  let b4 := match findRow csvData "BarcodeFormat" with
            | Some r => spreadBlock b3
                (mkBlockUpdates None None None None
                                (Some (cellOr r col "CODE128")) None None)
            | None => b3
            end in
  let b5 := match findRow csvData "SizeOverride" with
            | Some r => spreadBlock b4
                (mkBlockUpdates None None None None None
                                (Some (cellOr r col "auto")) None)
            | None => b4
            end in
  match JS.findIndex (firstCellIs "Content") csvData with
  | Some contentRowIndex =>
      let lines := dropTrailingEmpty
                     (contentLines col (skipn contentRowIndex csvData)) in
      spreadBlock b5
        (mkBlockUpdates None None None None None None
                        (Some (JS.join (JS.str JS.LF) lines)))
  | None => b5
  end.

(** What the import of a CSV file comes to. *)
Inductive Imported :=
| NewBlocks (newBlocks : list Block)
| ImportError (description : string).

(** The branch [if (isNewFormat)] of [importData], with the two checks
    around it; [uuid col] is the identifier drawn for column [col]. *)
Definition importColumnar (uuid : nat -> string) (csvData : list (list string))
  : Imported :=
  match csvData with
  | [] => ImportError "データが空です"
  | headerRow :: _ =>
      let numBlocks := List.length headerRow - 1 in
      if Nat.ltb numBlocks 1 then ImportError "有効なデータ列が見つかりません"
      else
        let newBlocks :=
          map (fun col => importBlock csvData (uuid col) col) (seq 1 numBlocks) in
        match newBlocks with
        | [] => ImportError "有効なデータが見つかりませんでした"
        | _ => NewBlocks newBlocks
        end
  end.

(** Equality of two blocks on every key but [id]. *)
Definition sameBlock (a b : Block) : Prop :=
  subtitle a = subtitle b /\ codeType a = codeType b
  /\ qrErrorCorrection a = qrErrorCorrection b
  /\ barcodeFormat a = barcodeFormat b
  /\ sizeOverride a = sizeOverride b /\ content a = content b.

(* ------------------------------------------------------------------ *)
(** * The reachable stores *)
(* ------------------------------------------------------------------ *)

(** One call of a method of the store that changes it.  [step_import] is
    the write [importData] makes after a CSV import, which it guards by
    [newBlocks.length === 0]. *)
Inductive step : AppStore -> AppStore -> Prop :=
| step_addBlock uuid st : step st (Store.addBlock uuid st)
| step_removeBlock id0 st : step st (Store.removeBlock id0 st)
| step_updateBlock id0 updates st : step st (Store.updateBlock id0 updates st)
| step_duplicateBlock id0 newId st : step st (Store.duplicateBlock id0 newId st)
| step_reorderBlocks fromIndex toIndex st st' :
    Store.reorderBlocks fromIndex toIndex st = Some st' -> step st st'
| step_updateSettings updates st : step st (Store.updateSettings updates st)
| step_setGeneratedCodes l st : step st (Store.setGeneratedCodes l st)
| step_setErrors l st : step st (Store.setErrors l st)
| step_setGenerating flag st : step st (Store.setGenerating flag st)
| step_setProgress current total st : step st (Store.setProgress current total st)
| step_setMode m st : step st (Store.setMode m st)
| step_reset uuid st : step st (Store.reset uuid st)
| step_undo st st' : Store.undo st = Some st' -> step st st'
| step_redo st st' : Store.redo st = Some st' -> step st st'
| step_fromJSON uuid data st : step st (Store.fromJSON uuid data st)
| step_import newBlocks st :
    newBlocks <> [] -> step st (Store.setState (Store.withBlocks newBlocks) true st).

Inductive reachable : AppStore -> Prop :=
| reach_new uuid : reachable (Store.constructor uuid)
| reach_step st st' : reachable st -> step st st' -> reachable st'.

(** The cursor points into the log, or is -1 on the empty log, and the log
    respects the bound. *)
Definition historyInv (st : AppStore) : Prop :=
  (-1 <= historyIndex st < Z.of_nat (List.length (history st)))%Z
  /\ List.length (history st) <= CONSTANTS.MAX_HISTORY.

(** [k] calls of [undo], then of [redo]. *)
Fixpoint undos (k : nat) (st : AppStore) : option AppStore :=
  match k with
  | O => Some st
  | S k' => match Store.undo st with
            | Some st' => undos k' st'
            | None => None
            end
  end.

Fixpoint redos (k : nat) (st : AppStore) : option AppStore :=
  match k with
  | O => Some st
  | S k' => match Store.redo st with
            | Some st' => redos k' st'
            | None => None
            end
  end.

(** The part of the store the log is about. *)
Definition live (st : AppStore) : list Block * GlobalSettings :=
  (blocks (state st), settings (state st)).

(** The update [{printTitle: title}]. *)
Definition retitle (title : string) : SettingsUpdates :=
  mkSettingsUpdates (Some title) None None None None None.

(** A saved file of the current version whose [blocks] is the empty
    array. *)
Definition emptyFile : Store.SavedData :=
  Store.mkSavedData (Some "2.0")
              (Some (mkSettingsUpdates None None None None None None))
              (Some []).

(* ------------------------------------------------------------------ *)
(** * Notions the statements use *)
(* ------------------------------------------------------------------ *)

(** [sep] occurs in [s], at some position. *)
Fixpoint occurs (sep s : string) : bool :=
  (prefix sep s ||
   match s with
   | EmptyString => false
   | String _ r => occurs sep r
   end)%bool.

(** The delimiter the specification gives for a selection. *)
Definition resolvedDelimiter (selection custom : string) : string :=
  if String.eqb selection "comma" then ","
  else if String.eqb selection "semicolon" then ";"
  else if String.eqb selection "tab" then JS.str JS.TAB
  else if String.eqb selection "custom" then
    (if String.eqb custom "" then JS.str JS.LF else custom)
  else JS.str JS.LF.

Definition delimiterSelections : list string :=
  ["newline"; "comma"; "semicolon"; "tab"; "custom"].

(** A list is made of some of the elements of another, in their order. *)
Inductive subsequence {A} : list A -> list A -> Prop :=
| sub_nil : subsequence [] []
| sub_take x l l' : subsequence l l' -> subsequence (x :: l) (x :: l')
| sub_drop x l l' : subsequence l l' -> subsequence l (x :: l').

(** The units of a string. *)
Definition units (s : string) : list ascii := list_ascii_of_string s.

Definition digits : list ascii := units "0123456789".

Definition code39Alphabet : list ascii :=
  units "ABCDEFGHIJKLMNOPQRSTUVWXYZ0123456789-. $/+%".

(** Every unit of [s] is one of [alphabet]. *)
Definition onlyOf (alphabet : list ascii) (s : string) : Prop :=
  Forall (fun c => In c alphabet) (units s).

(** Every unit of [s] is between 0x20 and 0x7E. *)
Definition printableAscii (s : string) : Prop :=
  Forall (fun c => 32 <= nat_of_ascii c <= 126) (units s).

Definition knownFormats : list string :=
  ["CODE128"; "EAN13"; "JAN"; "CODE39"; "ITF"].

(** The items a block contributes to a run. *)
Definition itemsOf (delimiter : string) (b : Block) : list string :=
  if JS.truthy (JS.trim (content b))
  then parseContent (content b) delimiter
  else [].

(** The count of the specification: the sum over the blocks. *)
Definition totalCount (blocks : list Block) (delimiter : string) : nat :=
  list_sum (map (fun b => List.length (itemsOf delimiter b)) blocks).

(** A block of [n] lines x, and an application that holds it. *)
Definition linesBlock (n : nat) : Block :=
  mkBlock "block-0" "" "qr" "M" "CODE128" "auto"
          (JS.join (JS.str JS.LF) (repeat "x" n)).

Definition appWith (b : Block) (w : option (list WorkerRequest)) : QRBarcodeApp :=
  mkApp (Store.setState (Store.withBlocks [b]) false (Store.constructor "block-0")) w.

(** A host without the two drawing libraries. *)
Definition noQR : option (string -> string -> option (string * nat)) := None.
Definition noBarcode : option (string -> string -> Drawing) := None.

(** A host whose libraries draw every text: the picture is named after
    the text, and every QR symbol has 21 modules. *)
Definition drawQR : option (string -> string -> option (string * nat)) :=
  Some (fun text level => Some (("qr:" ++ text)%string, 21)).
Definition drawBarcode : option (string -> string -> Drawing) :=
  Some (fun text format => Drawn ("bars:" ++ text)%string).

(** The block of the end-to-end example: two EAN13 lines, the second one
    of eleven digits. *)
Definition eanBlock : Block :=
  mkBlock "block-0" "" "barcode" "M" "EAN13" "auto"
          ("123456789012" ++ JS.str JS.LF ++ "12345678901")%string.

(** The entry a generation run makes for one item: a code or an error. *)
Definition Entry : Type := GeneratedCode + ValidationError.

Definition entryNumber (e : Entry) : nat :=
  match e with
  | inl c => code_index c
  | inr v => err_lineNumber v
  end.

Definition entryText (e : Entry) : string :=
  match e with
  | inl c => code_text c
  | inr v => err_text v
  end.

Fixpoint codesOf (l : list Entry) : list GeneratedCode :=
  match l with
  | [] => []
  | inl c :: r => c :: codesOf r
  | inr _ :: r => codesOf r
  end.

Fixpoint errorsOf (l : list Entry) : list ValidationError :=
  match l with
  | [] => []
  | inl _ :: r => errorsOf r
  | inr v :: r => v :: errorsOf r
  end.

(** The flat list the worker returns for [eanBlock]. *)
Definition eanResults : list WorkItem :=
  [ mkWorkItem "block-0" 0 0 "123456789012" "barcode" "M" "EAN13" "auto";
    mkWorkItem "block-0" 0 1 "12345678901" "barcode" "M" "EAN13" "auto" ].

(** No unit of [s] is a carriage return. *)
Definition noCR (s : string) : Prop := JS.includes JS.CR s = false.

(** A text that does not begin with a double quote. *)
Definition noQuoteAhead (s : string) : Prop :=
  match s with
  | String c _ => c <> JS.DQUOTE
  | EmptyString => True
  end.

(** A table whose fields hold a comma, a double quote and a line feed. *)
Definition sampleTable : list (list string) :=
  [ ["a"; "b,c"];
    [("d" ++ JS.str JS.DQUOTE ++ "e")%string; EmptyString];
    [EmptyString];
    [("x" ++ JS.str JS.LF ++ "y")%string] ].

(** The last unit of a string. *)
Fixpoint lastUnit (s : string) : option ascii :=
  match s with
  | EmptyString => None
  | String c EmptyString => Some c
  | String _ r => lastUnit r
  end.

(** The blocks the columnar format gives back as they are: the
    enumerated fields hold values of their types, the subtitle and the
    content hold no carriage return, and the content is not empty and
    does not end with a line feed. *)
Definition exportable (b : Block) : Prop :=
  wellTypedBlock b = true
  /\ noCR (subtitle b) /\ noCR (content b)
  /\ content b <> EmptyString
  /\ lastUnit (content b) <> Some JS.LF.

(** The lines [exportData] computes for every block. *)
Definition blockContents (blocks : list Block) : list (list string) :=
  map (fun b => if negb (JS.truthy (content b)) then []
                else JS.splitLines (content b)) blocks.

(** The content row of index [i]. *)
Definition contentRow (contents : list (list string)) (i : nat) : list string :=
  (if Nat.eqb i 0 then "Content" else EmptyString)
  :: map (fun lines => lineOr lines i) contents.

(** A block with one line of content and a line feed after it. *)
Definition trailingBlock : Block :=
  mkBlock "block-0" "" "qr" "M" "CODE128" "auto" ("a" ++ JS.str JS.LF)%string.

(** A block whose two lines are separated by a carriage return and a
    line feed. *)
Definition crlfBlock : Block :=
  mkBlock "block-0" "" "qr" "M" "CODE128" "auto"
          ("a" ++ JS.str JS.CR ++ JS.str JS.LF ++ "b")%string.

(* ------------------------------------------------------------------ *)
(** * Stores reached with fresh identifiers *)
(* ------------------------------------------------------------------ *)

(** The identifiers of a list of blocks. *)
Definition ids (l : list Block) : list string := map id l.

(** A list of blocks a live state may hold: one block at least, and no
    identifier twice. *)
Definition properBlocks (l : list Block) : Prop := l <> [] /\ NoDup (ids l).

(** The calls the application makes when [generateUUID] and
    [crypto.randomUUID] give identifiers no block of the store has, the
    updates come from the inputs of a block (none of which sets [id]),
    and the files loaded hold proper lists of blocks. *)
Inductive freshStep : AppStore -> AppStore -> Prop :=
| fresh_addBlock uuid st :
    ~ In uuid (ids (blocks (state st))) -> freshStep st (Store.addBlock uuid st)
| fresh_removeBlock id0 st : freshStep st (Store.removeBlock id0 st)
| fresh_updateBlock id0 updates st :
    upd_id updates = None -> freshStep st (Store.updateBlock id0 updates st)
| fresh_duplicateBlock id0 newId st :
    ~ In newId (ids (blocks (state st))) ->
    freshStep st (Store.duplicateBlock id0 newId st)
| fresh_reorderBlocks fromIndex toIndex st st' :
    Store.reorderBlocks fromIndex toIndex st = Some st' -> freshStep st st'
| fresh_updateSettings updates st : freshStep st (Store.updateSettings updates st)
| fresh_setGeneratedCodes l st : freshStep st (Store.setGeneratedCodes l st)
| fresh_setErrors l st : freshStep st (Store.setErrors l st)
| fresh_setGenerating flag st : freshStep st (Store.setGenerating flag st)
| fresh_setProgress current total st :
    freshStep st (Store.setProgress current total st)
| fresh_setMode m st : freshStep st (Store.setMode m st)
| fresh_reset uuid st : freshStep st (Store.reset uuid st)
| fresh_undo st st' : Store.undo st = Some st' -> freshStep st st'
| fresh_redo st st' : Store.redo st = Some st' -> freshStep st st'
| fresh_fromJSON uuid data st :
    match Store.data_blocks data with
    | Some l => properBlocks l
    | None => True
    end ->
    freshStep st (Store.fromJSON uuid data st)
| fresh_import newBlocks st :
    properBlocks newBlocks ->
    freshStep st (Store.setState (Store.withBlocks newBlocks) true st).

Inductive freshlyReachable : AppStore -> Prop :=
| fresh_new uuid : freshlyReachable (Store.constructor uuid)
| fresh_step st st' : freshlyReachable st -> freshStep st st' -> freshlyReachable st'.

(** The live blocks are proper, and so are the blocks of every entry of
    the log. *)
Definition properStore (st : AppStore) : Prop :=
  properBlocks (blocks (state st))
  /\ Forall (fun entry => properBlocks (snap_blocks entry)) (history st).

(** The cursor is -1 on an empty log and points into the log otherwise. *)
Definition cursorInv (st : AppStore) : Prop :=
  (history st = [] /\ historyIndex st = (-1)%Z)
  \/ (0 <= historyIndex st < Z.of_nat (List.length (history st)))%Z.

(** The snapshot of the live blocks and settings. *)
Definition snapshotOf (st : AppStore) : Snapshot :=
  mkSnapshot (blocks (state st)) (settings (state st)).

(** A store with three blocks and two entries in its log. *)
Definition threeBlocks : AppStore :=
  Store.addBlock "block-2" (Store.addBlock "block-1" (Store.constructor "block-0")).

(** The store after the cursor moved to [i] and the entry [entry] became
    the live blocks and settings. *)
Definition restored (st : AppStore) (entry : Snapshot) (i : Z) : AppStore :=
  mkStore
    (spreadState (state st)
       (mkStateUpdate (Some (snap_blocks entry)) (Some (snap_settings entry))
                      None None None None None))
    (history st) i.

(* ------------------------------------------------------------------ *)
(** * js/app_v2.js: the CSV branch of importData as a whole *)
(* ------------------------------------------------------------------ *)

(** [row.includes(key)] *)
Definition rowIncludes (key : string) (row : list string) : bool :=
  existsb (String.eqb key) row.

(** [isOldFormat]: the first row holds both words. *)
Definition isOldFormat (csvData : list (list string)) : bool :=
  match csvData with
  | headerRow :: _ =>
      (rowIncludes "CodeType" headerRow && rowIncludes "Content" headerRow)%bool
  | [] => false
  end.

(** [isNewFormat]: not the old one, and some row starts with CodeType. *)
Definition isNewFormat (csvData : list (list string)) : bool :=
  (negb (isOldFormat csvData) && existsb (firstCellIs "CodeType") csvData)%bool.

(** [if (row[k]) block.key = row[k]] *)
Definition cellIfTruthy (row : list string) (k : nat) : option string :=
  match JS.at_ row k with
  | Some c => if JS.truthy c then Some c else None
  | None => None
  end.

(** The block the row-oriented branch builds from a row of three cells
    or more. *)
Definition importLegacyBlock (uuid : string) (row : list string) : Block :=
  spreadBlock (createNewBlock uuid)
    (mkBlockUpdates None
       (Some (cellOr row 0 EmptyString))
       (Some (if String.eqb (cell row 1) "barcode" then "barcode" else "qr"))
       (cellIfTruthy row 3)
       (cellIfTruthy row 4)
       (cellIfTruthy row 5)
       (Some (cellOr row 2 EmptyString))).

(** The loop of the row-oriented branch from row [i] on. *)
Fixpoint importLegacyFrom (uuid : nat -> string) (i : nat)
    (rows : list (list string)) : list Block :=
  match rows with
  | [] => []
  | row :: rest =>
      if Nat.ltb (List.length row) 3
      then importLegacyFrom uuid (S i) rest
      else importLegacyBlock (uuid i) row :: importLegacyFrom uuid (S i) rest
  end.

(** The row-oriented branch: a row that starts with Subtitle at the top
    is a header and is skipped. *)
Definition importLegacy (uuid : nat -> string) (csvData : list (list string))
  : list Block :=
  let startRow :=
    match csvData with
    | headerRow :: _ => if firstCellIs "Subtitle" headerRow then 1 else 0
    | [] => 0
    end in
  importLegacyFrom uuid startRow (skipn startRow csvData).

(** The CSV branch of [importData], from the text of the file to the
    blocks handed to [setState], or to the error shown. *)
Definition importCSV (uuid : nat -> string) (text : string) : Imported :=
  let csvData := parseCSV text in
  match csvData with
  | [] => ImportError "データが空です"
  | _ =>
      if isNewFormat csvData then importColumnar uuid csvData
      else
        match importLegacy uuid csvData with
        | [] => ImportError "有効なデータが見つかりませんでした"
        | newBlocks => NewBlocks newBlocks
        end
  end.

(** The text of one row, and the rows joined by an end of line. *)
Definition rowText (row : list string) : string :=
  JS.join "," (map csvField row).

Definition joinRows (eol : string) (data : list (list string)) : string :=
  JS.join eol (map rowText data).

Definition CRLF : string := String JS.CR (String JS.LF EmptyString).

(** The first cells of the rows of a table. *)
Definition firstCells (rows : list (list string)) : list string :=
  map (fun r => cell r 0) rows.

(** What every imported block satisfies: a code type of the two, and no
    empty value in the three other enumerated fields. *)
Definition importedShape (b : Block) : Prop :=
  (codeType b = "qr" \/ codeType b = "barcode")
  /\ qrErrorCorrection b <> EmptyString
  /\ barcodeFormat b <> EmptyString
  /\ sizeOverride b <> EmptyString.

(** The first cells of the content rows of an export of [n] lines. *)
Definition contentKeys (n : nat) : list string :=
  match n with
  | O => []
  | S m => "Content" :: repeat EmptyString m
  end.

(* ------------------------------------------------------------------ *)
(** * Notions for the generation run and the worker *)
(* ------------------------------------------------------------------ *)

(** The entries the worker makes for one block. *)
Definition workItems (settings : GlobalSettings) (block : Block)
    (blockIndex : nat) : list WorkItem :=
  if JS.truthy (JS.trim (content block)) then
    let items := Worker.parseContent (content block) settings in
    map (fun it : nat * string =>
           mkWorkItem (id block) blockIndex (fst it) (snd it) (codeType block)
                      (qrErrorCorrection block) (barcodeFormat block)
                      (sizeOverride block))
        (combine (seq 0 (List.length items)) items)
  else [].

(** The entries for the blocks from index [blockIndex] on. *)
Fixpoint enumerate (settings : GlobalSettings) (blocks : list Block)
    (blockIndex : nat) : list WorkItem :=
  match blocks with
  | [] => []
  | block :: rest =>
      workItems settings block blockIndex
      ++ enumerate settings rest (S blockIndex)
  end.

(** The counts at which the worker reports its progress. *)
Definition reported (total current : nat) : bool :=
  (Nat.eqb (Nat.modulo current 10) 0 || Nat.eqb current total)%bool.

(** The progress messages for the items [first + 1] to [first + n]. *)
Definition progressOf (total first n : nat) : list WorkerMessage :=
  map (fun current => PROGRESS current total)
      (filter (reported total) (seq (S first) n)).

(** A code without its subtitle key. *)
Definition withoutSubtitle (c : GeneratedCode) : GeneratedCode :=
  mkCode (code_blockId c) (code_blockIndex c) (code_index c) (code_text c)
         (code_type c) (code_data c) (code_size c) None.

(** What a code of the direct path owes to its block. *)
Definition codeOfBlock (delimiter : string) (b : Block) (c : GeneratedCode)
  : Prop :=
  code_blockId c = id b
  /\ code_subtitle c = Some (subtitle b)
  /\ In (code_text c) (itemsOf delimiter b)
  /\ (code_type c = "qr" <-> codeType b = "qr")
  /\ (code_type c = "qr" \/ code_type c = "barcode")
  /\ (if String.eqb (sizeOverride b) "auto"
      then code_size c = "small" \/ code_size c = "medium"
      else code_size c = sizeOverride b).

(** The first unit of a string. *)
Definition firstUnit (s : string) : option ascii :=
  match s with
  | EmptyString => None
  | String c _ => Some c
  end.

(** The unit, if any, is not white space. *)
Definition notWhiteSpace (u : option ascii) : Prop :=
  match u with
  | Some c => JS.isWhiteSpace c = false
  | None => True
  end.

(** An application with a worker, holding 50 lines in one block. *)
Definition fiftyLines : QRBarcodeApp := appWith (linesBlock 50) (Some []).

(** What a code owes to the item [text] of the block [b] it was made
    for. *)
Definition codeOfItem (b : Block) (text : string) (c : GeneratedCode) : Prop :=
  code_blockId c = id b
  /\ code_subtitle c = Some (subtitle b)
  /\ code_text c = text
  /\ (code_type c = "qr" <-> codeType b = "qr")
  /\ (code_type c = "qr" \/ code_type c = "barcode")
  /\ (if String.eqb (sizeOverride b) "auto"
      then code_size c = "small" \/ code_size c = "medium"
      else code_size c = sizeOverride b).

(** The run completed from the list of the worker holds the codes of the
    run [r] of the direct path, without their subtitles, and the same
    calls. *)
Definition sameCodes (r r' : Run) : Prop :=
  codes r' = map withoutSubtitle (codes r) /\ calls r' = calls r.

(** ** The words of the specification on trimming and on blank content *)

(** [item] is [piece] with the white space at its two ends taken off:
    the piece is white space, then the item, then white space, and the
    item neither starts nor ends with white space. *)
Definition trimmedOf (piece item : string) : Prop :=
  exists l r : string,
    piece = (l ++ item ++ r)%string
    /\ JS.all JS.isWhiteSpace l = true
    /\ JS.all JS.isWhiteSpace r = true
    /\ notWhiteSpace (firstUnit item)
    /\ notWhiteSpace (lastUnit item).

(** A blank string: white space only, the empty string included. *)
Definition isBlank (s : string) : bool := JS.all JS.isWhiteSpace s.

(** The items of a block, counted without trimming anything: none for a
    block of blank content, and for any other the pieces of its content,
    cut at the delimiter, that are not blank. *)
Definition itemCount (delimiter : string) (b : Block) : nat :=
  if isBlank (content b) then 0
  else List.length (filter (fun piece => negb (isBlank piece))
                           (JS.split delimiter (content b))).

(** The size of a batch: the sum of the item counts of its blocks. *)
Definition batchSize (blocks : list Block) (delimiter : string) : nat :=
  list_sum (map (itemCount delimiter) blocks).

(** A block whose content is three spaces, and an application that holds
    the given blocks. *)
Definition blankBlock : Block :=
  mkBlock "block-1" "" "qr" "M" "CODE128" "auto" "   ".

Definition appOf (bs : list Block) (w : option (list WorkerRequest))
  : QRBarcodeApp :=
  mkApp (Store.setState (Store.withBlocks bs) false (Store.constructor "block-0"))
        w.

(** ** The words of the import on cells and defaults *)

(** The value the import keeps for a cell: the cell when it is there and
    is not empty, the default otherwise. *)
Definition cellOrDefault (c : option string) (default : string) : string :=
  match c with
  | Some v => if String.eqb v EmptyString then default else v
  | None => default
  end.

(** The cell of column [col] in the first row that starts with [key],
    when there is such a row and it reaches the column. *)
Definition keyCell (csvData : list (list string)) (key : string) (col : nat)
  : option string :=
  match findRow csvData key with
  | Some r => JS.at_ r col
  | None => None
  end.

(** The code type read from a cell: barcode for the word barcode, qr for
    anything else. *)
Definition codeTypeOf (c : option string) : string :=
  if String.eqb (cellOrDefault c EmptyString) "barcode" then "barcode" else "qr".

(** What the columnar format says of the block of column [col]. *)
Definition columnBlock (csvData : list (list string)) (col : nat) (b : Block)
  : Prop :=
  subtitle b = cellOrDefault (keyCell csvData "Subtitle" col) EmptyString
  /\ codeType b = codeTypeOf (keyCell csvData "CodeType" col)
  /\ qrErrorCorrection b
     = cellOrDefault (keyCell csvData "QRErrorCorrection" col) "M"
  /\ barcodeFormat b
     = cellOrDefault (keyCell csvData "BarcodeFormat" col) "CODE128"
  /\ sizeOverride b = cellOrDefault (keyCell csvData "SizeOverride" col) "auto".

(** What the row-oriented format says of the block of a row. *)
Definition rowBlock (row : list string) (b : Block) : Prop :=
  subtitle b = cellOrDefault (JS.at_ row 0) EmptyString
  /\ codeType b = codeTypeOf (JS.at_ row 1)
  /\ content b = cellOrDefault (JS.at_ row 2) EmptyString
  /\ qrErrorCorrection b = cellOrDefault (JS.at_ row 3) "M"
  /\ barcodeFormat b = cellOrDefault (JS.at_ row 4) "CODE128"
  /\ sizeOverride b = cellOrDefault (JS.at_ row 5) "auto".

(** The rows the row-oriented format reads: those of three cells or
    more, the first row left out when it starts with Subtitle. *)
Definition legacyRows (csvData : list (list string)) : list (list string) :=
  filter (fun row => Nat.leb 3 (List.length row))
         (match csvData with
          | headerRow :: rest =>
              if firstCellIs "Subtitle" headerRow then rest else csvData
          | [] => []
          end).

(** A columnar file of one block, with an empty cell for the error
    correction level and no row for the barcode format and the size. *)
Definition sparseFile : string :=
  JS.join (JS.str JS.LF)
          ["Subtitle,s"; "CodeType,barcode"; "QRErrorCorrection,"; "Content,abc"].

(* ================================================================== *)
(** * Properties *)
(* ================================================================== *)

(** ** Deep copies *)

Lemma deepCloneBlock_id (b : Block) : deepCloneBlock b = b.
Proof. destruct b; reflexivity. Qed.

Lemma deepCloneBlocks_id (l : list Block) : deepCloneBlocks l = l.
Proof.
  unfold deepCloneBlocks. induction l as [|b l IH]; simpl.
  - reflexivity.
  - now rewrite deepCloneBlock_id, IH.
Qed.

Lemma deepCloneSettings_id (s : GlobalSettings) : deepCloneSettings s = s.
Proof. destruct s; reflexivity. Qed.

Lemma deepCloneSnapshot_id (l : list Block) (s : GlobalSettings) :
  deepCloneSnapshot l s = mkSnapshot l s.
Proof.
  unfold deepCloneSnapshot. now rewrite deepCloneBlocks_id, deepCloneSettings_id.
Qed.

(** ** The history log *)

Lemma slice0_nonneg {A} (e : Z) (l : list A) :
  (0 <= e)%Z -> JS.slice0 e l = firstn (Z.to_nat e) l.
Proof.
  intros He. unfold JS.slice0.
  destruct (Z.ltb_spec e 0); [lia | reflexivity].
Qed.

Lemma recordHistory_state (st : AppStore) :
  state (Store.recordHistory st) = state st.
Proof.
  unfold Store.recordHistory.
  destruct (Nat.ltb _ _); reflexivity.
Qed.

Lemma recordHistory_inv (st : AppStore) :
  historyInv st -> historyInv (Store.recordHistory st).
Proof.
  intros [Hidx Hlen].
  unfold historyInv, Store.recordHistory, CONSTANTS.MAX_HISTORY in *.
  rewrite slice0_nonneg by lia.
  set (kept := firstn _ _).
  assert (Hkept : List.length kept = Z.to_nat (historyIndex st + 1)).
  { unfold kept. rewrite length_firstn. lia. }
  set (entry := deepCloneSnapshot (blocks (state st)) (settings (state st))).
  destruct (Nat.ltb_spec 20 (List.length (kept ++ [entry]))) as [Hgt|Hle];
    rewrite length_app in *; simpl in *.
  - destruct kept as [|x kept']; simpl in *; [lia|].
    rewrite length_app; simpl. lia.
  - rewrite length_app; simpl. lia.
Qed.

Lemma setState_inv (u : StateUpdate) (record : bool) (st : AppStore) :
  historyInv st -> historyInv (Store.setState u record st).
Proof.
  intros H. unfold Store.setState. destruct record.
  - apply recordHistory_inv in H. exact H.
  - exact H.
Qed.

Lemma restore_inv (i : Z) (st st' : AppStore) :
  historyInv st -> (0 <= i < Z.of_nat (List.length (history st)))%Z ->
  Store.restore i st = Some st' -> historyInv st'.
Proof.
  intros [Hidx Hlen] Hi. unfold Store.restore.
  destruct (JS.atZ (history st) i); [|discriminate].
  intros [= <-]. split; simpl; [lia | exact Hlen].
Qed.

Lemma step_inv (st st' : AppStore) :
  step st st' -> historyInv st -> historyInv st'.
Proof.
  intros Hstep Hinv. destruct Hstep;
    try (now apply setState_inv).
  - unfold Store.removeBlock.
    destruct (Nat.leb _ _); [exact Hinv | now apply setState_inv].
  - unfold Store.duplicateBlock.
    destruct (find _ _); [|exact Hinv].
    destruct (JS.findIndex _ _); [now apply setState_inv | exact Hinv].
  - unfold Store.reorderBlocks in H.
    destruct (JS.at_ _ _); [|discriminate].
    injection H as <-. now apply setState_inv.
  - unfold historyInv, Store.reset, CONSTANTS.MAX_HISTORY; simpl. lia.
  - unfold Store.undo, Store.canUndo in H.
    destruct (Z.ltb_spec 0 (historyIndex st)); simpl in H.
    + eapply restore_inv; [exact Hinv | | exact H]. destruct Hinv; lia.
    + injection H as <-. exact Hinv.
  - unfold Store.redo, Store.canRedo in H.
    destruct (Z.ltb_spec (historyIndex st)
                         (Z.of_nat (List.length (history st)) - 1)); simpl in H.
    + eapply restore_inv; [exact Hinv | | exact H]. destruct Hinv; lia.
    + injection H as <-. exact Hinv.
Qed.

Lemma reachable_inv (st : AppStore) : reachable st -> historyInv st.
Proof.
  induction 1 as [uuid | st st' _ IH Hstep].
  - unfold historyInv, CONSTANTS.MAX_HISTORY; simpl. lia.
  - eapply step_inv; eassumption.
Qed.

(** On a reachable store neither [undo] nor [redo] throws. *)
Lemma undo_total (st : AppStore) :
  reachable st -> exists st', Store.undo st = Some st'.
Proof.
  intros Hr. destruct (reachable_inv Hr) as [Hidx _].
  unfold Store.undo, Store.canUndo.
  destruct (Z.ltb_spec 0 (historyIndex st)); simpl; [|eauto].
  unfold Store.restore, JS.atZ.
  destruct (Z.ltb_spec (historyIndex st - 1) 0); [lia|].
  destruct (nth_error (history st) (Z.to_nat (historyIndex st - 1))) eqn:E; [eauto|].
  apply nth_error_None in E. lia.
Qed.

Lemma redo_total (st : AppStore) :
  reachable st -> exists st', Store.redo st = Some st'.
Proof.
  intros Hr. destruct (reachable_inv Hr) as [Hidx _].
  unfold Store.redo, Store.canRedo.
  destruct (Z.ltb_spec (historyIndex st) (Z.of_nat (List.length (history st)) - 1));
    simpl; [|eauto].
  unfold Store.restore, JS.atZ.
  destruct (Z.ltb_spec (historyIndex st + 1) 0); [lia|].
  destruct (nth_error (history st) (Z.to_nat (historyIndex st + 1))) eqn:E; [eauto|].
  apply nth_error_None in E. lia.
Qed.

(** C9.  On every reachable store [recordHistory] keeps the entries 0 to
    the cursor, appends a copy of the blocks and settings as they are at
    the call (which [setState] makes before it applies the change), then
    drops the oldest entry and keeps the cursor when more than 20 entries
    result, and moves the cursor by one otherwise; the log of a reachable
    store, and of the store after any further operation, has at most 20
    entries. *)
Theorem recordHistory_bounded (st : AppStore) (Hr : reachable st) :
  let kept := firstn (Z.to_nat (historyIndex st + 1)) (history st) in
  let appended := kept ++ [mkSnapshot (blocks (state st)) (settings (state st))] in
  state (Store.recordHistory st) = state st
  /\ (CONSTANTS.MAX_HISTORY < List.length appended ->
      history (Store.recordHistory st) = tl appended
      /\ historyIndex (Store.recordHistory st) = historyIndex st)
  /\ (List.length appended <= CONSTANTS.MAX_HISTORY ->
      history (Store.recordHistory st) = appended
      /\ historyIndex (Store.recordHistory st) = (historyIndex st + 1)%Z)
  /\ (forall u : StateUpdate,
        history (Store.setState u true st) = history (Store.recordHistory st)
        /\ historyIndex (Store.setState u true st)
           = historyIndex (Store.recordHistory st)
        /\ state (Store.setState u true st) = spreadState (state st) u)
  /\ List.length (history (Store.recordHistory st)) <= 20
  /\ List.length (history st) <= 20
  /\ (forall st', step st st' -> List.length (history st') <= 20).
Proof.
  intros kept appended.
  pose proof (reachable_inv Hr) as Hinv.
  assert (Hrec : Store.recordHistory st =
                 if Nat.ltb CONSTANTS.MAX_HISTORY (List.length appended)
                 then mkStore (state st) (tl appended) (historyIndex st)
                 else mkStore (state st) appended (historyIndex st + 1)).
  { unfold Store.recordHistory. destruct Hinv as [Hidx _].
    rewrite slice0_nonneg by lia. rewrite deepCloneSnapshot_id. reflexivity. }
  split; [apply recordHistory_state|].
  split.
  { intros Hgt. rewrite Hrec.
    destruct (Nat.ltb_spec CONSTANTS.MAX_HISTORY (List.length appended)); [|lia].
    split; reflexivity. }
  split.
  { intros Hle. rewrite Hrec.
    destruct (Nat.ltb_spec CONSTANTS.MAX_HISTORY (List.length appended)); [lia|].
    split; reflexivity. }
  split.
  { intros u. unfold Store.setState; simpl.
    rewrite recordHistory_state. repeat split. }
  split; [apply (recordHistory_inv Hinv)|].
  split; [apply Hinv|].
  intros st' Hstep. apply (step_inv Hstep Hinv).
Qed.

Lemma recordHistory_bounded_witness :
  reachable (Store.constructor "block-0")
  /\ history (Store.recordHistory (Store.constructor "block-0"))
     = [mkSnapshot [createNewBlock "block-0"] createDefaultSettings]
  /\ historyIndex (Store.recordHistory (Store.constructor "block-0")) = 0%Z.
Proof.
  split; [apply reach_new|].
  destruct (recordHistory_bounded (reach_new "block-0"))
    as (_ & _ & Hle & _).
  apply Hle. vm_compute. lia.
Defined.

(** ** Undo and redo *)

(** C1.  Two recording mutations on a new store (the print title set to
    a, then to b), one [undo], one [redo]: the log holds one entry before
    the cursor, [undo] restores the title of the new store and [redo] the
    title a, so the store does not come back to the title b it had before
    the [undo]. *)
Theorem undo_redo_diverges :
  let st0 := Store.constructor "block-0" in
  let st2 := Store.updateSettings (retitle "b")
               (Store.updateSettings (retitle "a") st0) in
  historyIndex st2 = 1%Z
  /\ printTitle (settings (state st2)) = "b"
  /\ option_map (fun st => printTitle (settings (state st))) (undos 1 st2)
     = Some ""
  /\ (exists st3 st4,
        undos 1 st2 = Some st3 /\ redos 1 st3 = Some st4
        /\ printTitle (settings (state st4)) = "a"
        /\ live st4 <> live st2).
Proof.
  intros st0 st2.
  split; [reflexivity|]. split; [reflexivity|]. split; [reflexivity|].
  eexists. eexists.
  split; [reflexivity|]. split; [reflexivity|]. split; [reflexivity|].
  discriminate.
Qed.

(** A single mutation cannot be undone at all: [canUndo] asks for a
    cursor above 0. *)
Lemma undo_first_mutation_noop (uuid : string) (u : SettingsUpdates) :
  Store.undo (Store.updateSettings u (Store.constructor uuid))
  = Some (Store.updateSettings u (Store.constructor uuid)).
Proof. reflexivity. Qed.

(** ** The blocks of a live state *)

Lemma setState_blocks (l : list Block) (st : AppStore) :
  blocks (state (Store.setState (Store.withBlocks l) true st)) = l.
Proof. reflexivity. Qed.

Lemma insertAt_not_nil {A} (i : nat) (x : A) (l : list A) :
  JS.insertAt i x l <> [].
Proof. destruct i, l; discriminate. Qed.

(** The methods that do not look at identifiers keep a list of blocks
    that is not empty, and [removeBlock] leaves a single block alone. *)
Lemma blocks_kept (st : AppStore) :
  blocks (state st) <> [] ->
  (forall uuid, blocks (state (Store.addBlock uuid st)) <> [])
  /\ (forall id0 updates, blocks (state (Store.updateBlock id0 updates st)) <> [])
  /\ (forall id0 newId, blocks (state (Store.duplicateBlock id0 newId st)) <> [])
  /\ (forall fromIndex toIndex st',
        Store.reorderBlocks fromIndex toIndex st = Some st' ->
        blocks (state st') <> [])
  /\ (forall updates, blocks (state (Store.updateSettings updates st)) <> [])
  /\ (forall uuid, blocks (state (Store.reset uuid st)) <> [])
  /\ (forall id0, List.length (blocks (state st)) = 1 ->
        Store.removeBlock id0 st = st).
Proof.
  intros Hne. repeat split.
  - intros uuid. unfold Store.addBlock. rewrite setState_blocks.
    destruct (blocks (state st)); discriminate.
  - intros id0 updates. unfold Store.updateBlock. rewrite setState_blocks.
    destruct (blocks (state st)); [congruence | discriminate].
  - intros id0 newId. unfold Store.duplicateBlock.
    destruct (find _ _); [|exact Hne].
    destruct (JS.findIndex _ _); [|exact Hne].
    rewrite setState_blocks. apply insertAt_not_nil.
  - intros fromIndex toIndex st'. unfold Store.reorderBlocks.
    destruct (JS.at_ _ _); [|discriminate].
    intros [= <-]. rewrite setState_blocks. apply insertAt_not_nil.
  - intros updates. unfold Store.updateSettings, Store.setState. simpl.
    rewrite recordHistory_state. exact Hne.
  - intros uuid. discriminate.
  - intros id0 Hlen. unfold Store.removeBlock. now rewrite Hlen.
Qed.

(** C3.  [fromJSON] on a file whose [blocks] is the empty array (which
    [importData] lets through, and [migrateV1ToV2] returns as it is)
    leaves a reachable store with no block: the fallback to one new block
    is taken on a missing key only. *)
Theorem fromJSON_empty_blocks :
  (forall uuid st, blocks (state (Store.fromJSON uuid emptyFile st)) = [])
  /\ (exists st, reachable st /\ blocks (state st) = [])
  /\ (forall uuid settingsOfFile st,
        blocks (state (Store.fromJSON uuid
                         (Store.mkSavedData (Some "2.0") settingsOfFile None) st))
        = [createNewBlock uuid]).
Proof.
  split; [reflexivity|]. split; [|reflexivity].
  exists (Store.fromJSON "u" emptyFile (Store.constructor "block-0")).
  split; [|reflexivity].
  eapply reach_step; [apply reach_new | apply step_fromJSON].
Qed.

(** ** Strings *)

Lemma append_nil_r (s : string) : (s ++ "")%string = s.
Proof. induction s as [|c s IH]; simpl; [reflexivity | now rewrite IH]. Qed.

Lemma append_assoc (a b c : string) :
  ((a ++ b) ++ c)%string = (a ++ (b ++ c))%string.
Proof. induction a as [|x a IH]; simpl; [reflexivity | now rewrite IH]. Qed.

Lemma length_append (a b : string) :
  String.length (a ++ b) = String.length a + String.length b.
Proof. induction a as [|x a IH]; simpl; [reflexivity | now rewrite IH]. Qed.

Lemma snoc_append (a b : string) (c : ascii) :
  (JS.snoc a c ++ b)%string = (a ++ String c b)%string.
Proof. unfold JS.snoc, JS.str. now rewrite append_assoc. Qed.

Lemma all_Forall (p : ascii -> bool) (s : string) :
  JS.all p s = true <-> Forall (fun c => p c = true) (list_ascii_of_string s).
Proof.
  induction s as [|c s IH]; simpl.
  - split; [constructor | reflexivity].
  - rewrite andb_true_iff, IH. split.
    + intros [H1 H2]. now constructor.
    + intros H. inversion H; subst. now split.
Qed.

Lemma prefix_append (p s : string) :
  prefix p s = true -> exists r, s = (p ++ r)%string.
Proof.
  revert s. induction p as [|c p IH]; intros s H.
  - exists s. reflexivity.
  - destruct s as [|d s]; simpl in H; [discriminate|].
    destruct (ascii_dec c d) as [->|]; [|discriminate].
    destruct (IH _ H) as [r ->]. exists r. reflexivity.
Qed.

(** ** [split] cuts at the separator and [join] undoes it *)

Lemma split_go_skip (sep p cur r : string) :
  JS.split_go sep (String.length p) cur (p ++ r) = JS.split_go sep 0 cur r.
Proof.
  induction p as [|c p IH]; simpl.
  - destruct r; reflexivity.
  - exact IH.
Qed.

Lemma split_go_cons (sep : string) (k : nat) (cur s : string) :
  exists x l, JS.split_go sep k cur s = x :: l.
Proof.
  revert k cur. induction s as [|c s IH]; intros k cur; cbn [JS.split_go].
  - eauto.
  - destruct k; [|apply IH].
    destruct (prefix sep (String c s)); [eauto | apply IH].
Qed.

Lemma join_cons (sep x : string) (l : list string) :
  l <> [] -> JS.join sep (x :: l) = (x ++ sep ++ JS.join sep l)%string.
Proof. destruct l; [congruence | reflexivity]. Qed.

Lemma join_split_go (sep : string) :
  sep <> EmptyString ->
  forall n s cur, String.length s <= n ->
    JS.join sep (JS.split_go sep 0 cur s) = (cur ++ s)%string.
Proof.
  intros Hsep. induction n as [|n IH]; intros s cur Hn.
  - destruct s; simpl in *; [|lia]. now rewrite append_nil_r.
  - destruct s as [|c s]; cbn [JS.split_go]; [simpl; now rewrite append_nil_r|].
    destruct (prefix sep (String c s)) eqn:Hp.
    + destruct (prefix_append _ _ Hp) as [rest Hrest].
      destruct sep as [|c' sep']; [congruence|].
      simpl in Hrest. injection Hrest as -> ->.
      replace (String.length (String c' sep') - 1) with (String.length sep')
        by (simpl; lia).
      rewrite split_go_skip.
      destruct (split_go_cons (String c' sep') 0 "" rest) as (x & l & Hl).
      rewrite join_cons by (rewrite Hl; discriminate).
      rewrite IH.
      * reflexivity.
      * simpl in Hn. rewrite length_append in Hn. lia.
    + rewrite IH by (simpl in Hn; lia). apply snoc_append.
Qed.

Lemma join_split (sep s : string) :
  sep <> EmptyString -> JS.join sep (JS.split sep s) = s.
Proof.
  intros Hsep. unfold JS.split. destruct sep as [|c sep]; [congruence|].
  now rewrite (@join_split_go _ Hsep (String.length s) s "" (le_n _)).
Qed.

Lemma prefix_append_mono (p v s : string) :
  prefix p v = true -> prefix p (v ++ s) = true.
Proof.
  revert v. induction p as [|c p IH]; intros v H;
    [destruct (v ++ s)%string; reflexivity|].
  destruct v as [|d v]; simpl in *; [discriminate|].
  destruct (ascii_dec c d); [now apply IH | discriminate].
Qed.

Lemma prefix_nil_r (p : string) : p <> EmptyString -> prefix p "" = false.
Proof. destruct p; [congruence | reflexivity]. Qed.

Lemma occurs_false (sep s : string) :
  (forall u v, s = (u ++ v)%string -> prefix sep v = false) ->
  occurs sep s = false.
Proof.
  induction s as [|c s IH]; intros H.
  - cbn [occurs]. rewrite (H "" ""); reflexivity.
  - cbn [occurs]. rewrite (H "" (String c s)) by reflexivity. simpl.
    apply IH. intros u v ->. apply (H (String c u) v). reflexivity.
Qed.

Lemma snoc_suffix (cur u v : string) (c : ascii) :
  JS.snoc cur c = (u ++ v)%string -> v <> EmptyString ->
  exists v', v = JS.snoc v' c /\ cur = (u ++ v')%string.
Proof.
  revert cur. induction u as [|x u IH]; intros cur H Hv.
  - simpl in H. subst v. exists cur. split; reflexivity.
  - destruct cur as [|y cur].
    + unfold JS.snoc, JS.str in H. simpl in H. injection H as _ H.
      destruct u; simpl in H; [|discriminate]. congruence.
    + unfold JS.snoc in *. simpl in H. injection H as -> H.
      destruct (IH cur H Hv) as (v' & -> & ->).
      exists v'. split; reflexivity.
Qed.

(** No piece holds the separator: each tested position of the text is
    one where the separator does not begin. *)
Lemma split_go_no_sep (sep : string) :
  sep <> EmptyString ->
  forall n s cur, String.length s <= n ->
    (forall u v, cur = (u ++ v)%string -> v <> EmptyString ->
                 prefix sep (v ++ s) = false) ->
    Forall (fun piece => occurs sep piece = false) (JS.split_go sep 0 cur s).
Proof.
  intros Hsep. induction n as [|n IH]; intros s cur Hn Hcur.
  - destruct s; simpl in Hn; [|lia]. cbn [JS.split_go].
    constructor; [|constructor].
    apply occurs_false. intros u v Huv.
    destruct v as [|d v]; [now apply prefix_nil_r|].
    specialize (Hcur u (String d v) Huv).
    rewrite append_nil_r in Hcur. apply Hcur. discriminate.
  - destruct s as [|c s]; cbn [JS.split_go].
    + constructor; [|constructor].
      apply occurs_false. intros u v Huv.
      destruct v as [|d v]; [now apply prefix_nil_r|].
      specialize (Hcur u (String d v) Huv).
      rewrite append_nil_r in Hcur. apply Hcur. discriminate.
    + destruct (prefix sep (String c s)) eqn:Hp.
      * constructor.
        { apply occurs_false. intros u v Huv.
          destruct v as [|d v]; [now apply prefix_nil_r|].
          destruct (prefix sep (String d v)) eqn:E; [|reflexivity].
          apply (prefix_append_mono _ _ (String c s)) in E.
          rewrite (Hcur u (String d v) Huv) in E; [discriminate E | discriminate]. }
        destruct (prefix_append _ _ Hp) as [rest Hrest].
        destruct sep as [|c' sep']; [congruence|].
        simpl in Hrest. injection Hrest as -> ->.
        replace (String.length (String c' sep') - 1) with (String.length sep')
          by (simpl; lia).
        rewrite split_go_skip. apply IH.
        { simpl in Hn. rewrite length_append in Hn. lia. }
        intros u v Huv Hv. destruct u; destruct v; simpl in Huv; congruence.
      * apply IH; [simpl in Hn; lia|].
        intros u v Huv Hv.
        destruct (snoc_suffix _ _ _ Huv Hv) as (v' & -> & ->).
        rewrite snoc_append.
        destruct v' as [|d v']; [exact Hp|].
        apply (Hcur u (String d v')); [reflexivity | discriminate].
Qed.

Lemma split_no_sep (sep s : string) :
  sep <> EmptyString ->
  Forall (fun piece => occurs sep piece = false) (JS.split sep s).
Proof.
  intros Hsep. unfold JS.split. destruct sep as [|c sep]; [congruence|].
  apply (@split_go_no_sep _ Hsep (String.length s) s "" (le_n _)).
  intros u v Huv Hv. destruct u; destruct v; simpl in Huv; congruence.
Qed.

(** ** Content splitting *)

Lemma filter_subsequence {A} (p : A -> bool) (l : list A) :
  subsequence (filter p l) l.
Proof.
  induction l as [|x l IH]; simpl.
  - constructor.
  - destruct (p x); now constructor.
Qed.

Lemma getDelimiter_nonempty (selection custom : string) :
  getDelimiter selection custom <> EmptyString.
Proof.
  unfold getDelimiter.
  destruct (String.eqb selection "custom").
  - destruct custom; discriminate.
  - destruct (lookup selection CONSTANTS.DELIMITERS) as [d|] eqn:E;
      [|discriminate].
    destruct d; discriminate.
Qed.

(** ** Trimmed items *)

Lemma trimStart_first (s : string) : notWhiteSpace (firstUnit (JS.trimStart s)).
Proof.
  induction s as [|c r IH]; simpl; [exact I|].
  destruct (JS.isWhiteSpace c) eqn:E; [exact IH | exact E].
Qed.

Lemma trimEnd_first (s : string) :
  notWhiteSpace (firstUnit s) -> firstUnit (JS.trimEnd s) = firstUnit s.
Proof.
  destruct s as [|c r]; intros H; [reflexivity|].
  simpl in H. cbn [JS.trimEnd].
  destruct (JS.trimEnd r); [rewrite H|]; reflexivity.
Qed.

Lemma trimEnd_last (s : string) : notWhiteSpace (lastUnit (JS.trimEnd s)).
Proof.
  induction s as [|c r IH]; [exact I|].
  cbn [JS.trimEnd].
  destruct (JS.trimEnd r) as [|d r'] eqn:E.
  - destruct (JS.isWhiteSpace c) eqn:Ec; [exact I | exact Ec].
  - exact IH.
Qed.

Lemma trimEnd_idempotent (s : string) :
  JS.trimEnd (JS.trimEnd s) = JS.trimEnd s.
Proof.
  induction s as [|c r IH]; [reflexivity|].
  cbn [JS.trimEnd].
  destruct (JS.trimEnd r) as [|d r'] eqn:E.
  - destruct (JS.isWhiteSpace c) eqn:Ec; [reflexivity|].
    unfold JS.str. cbn [JS.trimEnd]. rewrite Ec. reflexivity.
  - change (JS.trimEnd (String c (String d r')))
      with (match JS.trimEnd (String d r') with
            | EmptyString => if JS.isWhiteSpace c then EmptyString else JS.str c
            | r'' => String c r''
            end).
    rewrite IH. reflexivity.
Qed.

Lemma trimStart_fixed (s : string) :
  notWhiteSpace (firstUnit s) -> JS.trimStart s = s.
Proof.
  destruct s as [|c r]; intros H; [reflexivity|].
  simpl in H. cbn [JS.trimStart]. rewrite H. reflexivity.
Qed.

Lemma trim_facts (s : string) :
  JS.trim (JS.trim s) = JS.trim s
  /\ notWhiteSpace (firstUnit (JS.trim s))
  /\ notWhiteSpace (lastUnit (JS.trim s)).
Proof.
  unfold JS.trim.
  pose proof (trimStart_first s) as H1.
  pose proof (trimEnd_first _ H1) as H2.
  assert (H3 : notWhiteSpace (firstUnit (JS.trimEnd (JS.trimStart s))))
    by (rewrite H2; exact H1).
  split; [|split; [exact H3 | apply trimEnd_last]].
  rewrite (trimStart_fixed _ H3). apply trimEnd_idempotent.
Qed.

Lemma trimStart_blank (s : string) :
  JS.all JS.isWhiteSpace s = true -> JS.trimStart s = EmptyString.
Proof.
  induction s as [|c r IH]; intros H; [reflexivity|].
  simpl in H. apply andb_true_iff in H. destruct H as [Hc Hr].
  cbn [JS.trimStart]. rewrite Hc. exact (IH Hr).
Qed.

Lemma trimEnd_not_blank (s : string) :
  notWhiteSpace (firstUnit s) -> s <> EmptyString ->
  JS.trimEnd s <> EmptyString.
Proof.
  destruct s as [|c r]; intros H Hne; [congruence|].
  simpl in H. cbn [JS.trimEnd].
  destruct (JS.trimEnd r); [rewrite H|]; discriminate.
Qed.

Lemma trimStart_all (s : string) :
  JS.trimStart s = EmptyString -> JS.all JS.isWhiteSpace s = true.
Proof.
  induction s as [|c r IH]; intros H; [reflexivity|].
  cbn [JS.trimStart] in H. simpl.
  destruct (JS.isWhiteSpace c); [exact (IH H) | discriminate].
Qed.

(** A string trims to the empty string exactly when it is made of white
    space. *)
Lemma trim_blank (s : string) :
  JS.trim s = EmptyString <-> JS.all JS.isWhiteSpace s = true.
Proof.
  unfold JS.trim. split.
  - intros H. apply trimStart_all.
    destruct (JS.trimStart s) as [|c r] eqn:E; [reflexivity|].
    exfalso. pose proof (trimStart_first s) as H1. rewrite E in H1.
    apply (@trimEnd_not_blank (String c r)); [exact H1 | discriminate | exact H].
  - intros H. rewrite (trimStart_blank _ H). reflexivity.
Qed.

Lemma all_append (p : ascii -> bool) (s t : string) :
  JS.all p (s ++ t) = (JS.all p s && JS.all p t)%bool.
Proof.
  induction s as [|c r IH]; simpl; [reflexivity|].
  rewrite IH. apply andb_assoc.
Qed.

(** The pieces of a string of white space are of white space. *)
Lemma split_go_all (p : ascii -> bool) (sep s : string) :
  forall (skip : nat) (cur : string),
    JS.all p cur = true -> JS.all p s = true ->
    Forall (fun piece => JS.all p piece = true) (JS.split_go sep skip cur s).
Proof.
  induction s as [|c r IH]; intros skip cur Hcur Hs.
  - constructor; [exact Hcur | constructor].
  - simpl in Hs. apply andb_true_iff in Hs. destruct Hs as [Hc Hr].
    cbn [JS.split_go]. destruct skip as [|k]; [|apply IH; assumption].
    destruct (prefix sep (String c r)).
    + constructor; [exact Hcur|]. apply IH; [reflexivity | exact Hr].
    + apply IH; [|exact Hr].
      unfold JS.snoc, JS.str. rewrite all_append, Hcur. simpl.
      rewrite Hc. reflexivity.
Qed.

Lemma split_all (p : ascii -> bool) (sep s : string) :
  JS.all p s = true ->
  Forall (fun piece => JS.all p piece = true) (JS.split sep s).
Proof.
  intros H. unfold JS.split. destruct sep as [|d sep'].
  - induction s as [|c r IH]; [constructor|].
    simpl in H. apply andb_true_iff in H. destruct H as [Hc Hr].
    cbn [list_ascii_of_string map]. constructor; [|exact (IH Hr)].
    unfold JS.str. simpl. rewrite Hc. reflexivity.
  - apply split_go_all; [reflexivity | exact H].
Qed.

Lemma trimStart_split (s : string) :
  exists l : string,
    s = (l ++ JS.trimStart s)%string /\ JS.all JS.isWhiteSpace l = true.
Proof.
  induction s as [|c r IH]; [exists EmptyString; now split|].
  cbn [JS.trimStart].
  destruct (JS.isWhiteSpace c) eqn:Ec; [|exists EmptyString; now split].
  destruct IH as (l & Hl & Hws).
  exists (String c l). split.
  - cbn [append]. now rewrite <- Hl.
  - simpl. now rewrite Ec, Hws.
Qed.

Lemma trimEnd_split (s : string) :
  exists r : string,
    s = (JS.trimEnd s ++ r)%string /\ JS.all JS.isWhiteSpace r = true.
Proof.
  induction s as [|c s' IH]; [exists EmptyString; now split|].
  destruct IH as (r & Hr & Hws).
  cbn [JS.trimEnd].
  destruct (JS.trimEnd s') as [|d t] eqn:E.
  - cbn [append] in Hr. subst s'.
    destruct (JS.isWhiteSpace c) eqn:Ec.
    + exists (String c r). split; [reflexivity|]. simpl. now rewrite Ec, Hws.
    + exists r. split; [reflexivity | exact Hws].
  - exists r. split; [|exact Hws].
    cbn [append]. cbn [append] in Hr. now rewrite <- Hr.
Qed.

Lemma trimStart_app_blank (l s : string) :
  JS.all JS.isWhiteSpace l = true ->
  JS.trimStart (l ++ s) = JS.trimStart s.
Proof.
  induction l as [|c l IH]; intros H; [reflexivity|].
  simpl in H. apply andb_true_iff in H. destruct H as [Hc Hl].
  cbn [append JS.trimStart]. rewrite Hc. exact (IH Hl).
Qed.

Lemma trimEnd_blank (r : string) :
  JS.all JS.isWhiteSpace r = true -> JS.trimEnd r = EmptyString.
Proof.
  induction r as [|c r IH]; intros H; [reflexivity|].
  simpl in H. apply andb_true_iff in H. destruct H as [Hc Hr].
  cbn [JS.trimEnd]. rewrite (IH Hr), Hc. reflexivity.
Qed.

Lemma trimEnd_app_blank (s r : string) :
  JS.all JS.isWhiteSpace r = true ->
  JS.trimEnd (s ++ r) = JS.trimEnd s.
Proof.
  intros H. induction s as [|c s IH]; [exact (@trimEnd_blank r H)|].
  cbn [append JS.trimEnd]. rewrite IH. reflexivity.
Qed.

Lemma trimEnd_fixed (s : string) :
  notWhiteSpace (lastUnit s) -> JS.trimEnd s = s.
Proof.
  induction s as [|c s' IH]; intros H; [reflexivity|].
  destruct s' as [|d s''].
  - simpl in H. cbn [JS.trimEnd]. rewrite H. reflexivity.
  - change (lastUnit (String c (String d s''))) with (lastUnit (String d s''))
      in H.
    change (JS.trimEnd (String c (String d s'')))
      with (match JS.trimEnd (String d s'') with
            | EmptyString => if JS.isWhiteSpace c then EmptyString else JS.str c
            | r' => String c r'
            end).
    rewrite (IH H). reflexivity.
Qed.

(** [trim] does what the specification says of trimming, and nothing
    else does. *)
Lemma trim_trimmedOf (piece : string) : trimmedOf piece (JS.trim piece).
Proof.
  destruct (trimStart_split piece) as (l & Hl & Hlws).
  destruct (trimEnd_split (JS.trimStart piece)) as (r & Hr & Hrws).
  destruct (trim_facts piece) as (_ & Hfirst & Hlast).
  exists l, r. unfold JS.trim in *.
  split; [rewrite <- Hr; exact Hl|]. auto.
Qed.

Lemma trimmedOf_trim (piece item : string) :
  trimmedOf piece item -> JS.trim piece = item.
Proof.
  intros (l & r & -> & Hl & Hr & Hfirst & Hlast).
  unfold JS.trim. rewrite (@trimStart_app_blank l _ Hl).
  destruct item as [|c item'].
  - cbn [append]. rewrite (@trimStart_blank r Hr). reflexivity.
  - rewrite (@trimStart_fixed (String c item' ++ r)) by exact Hfirst.
    rewrite (@trimEnd_app_blank (String c item') r Hr).
    apply trimEnd_fixed. exact Hlast.
Qed.

(** The items are as many as the pieces that are not blank. *)
Lemma parseContent_count (text delimiter : string) :
  List.length (parseContent text delimiter)
  = List.length (filter (fun piece => negb (isBlank piece))
                        (JS.split delimiter text)).
Proof.
  unfold parseContent.
  generalize (JS.split delimiter text). intros pieces.
  induction pieces as [|piece pieces IH]; [reflexivity|].
  cbn [map filter]. unfold isBlank at 1.
  destruct (JS.all JS.isWhiteSpace piece) eqn:E.
  - apply trim_blank in E. rewrite E. exact IH.
  - destruct (JS.trim piece) as [|c t] eqn:Et.
    + apply trim_blank in Et. congruence.
    + change (Nat.ltb 0 (String.length (String c t))) with true.
      cbn [negb List.length]. f_equal. exact IH.
Qed.

Lemma parseContent_blank (text delimiter : string) :
  isBlank text = true -> parseContent text delimiter = [].
Proof.
  intros E.
  pose proof (split_all JS.isWhiteSpace delimiter text E) as Hp.
  unfold parseContent.
  induction Hp as [|piece pieces Hpiece _ IH]; [reflexivity|].
  cbn [map filter]. apply trim_blank in Hpiece. rewrite Hpiece. exact IH.
Qed.

Lemma itemsOf_blank (delimiter : string) (b : Block) :
  isBlank (content b) = true -> itemsOf delimiter b = [].
Proof.
  intros E. unfold itemsOf. rewrite (@parseContent_blank (content b) delimiter E).
  destruct (JS.truthy _); reflexivity.
Qed.

Lemma itemsOf_count (delimiter : string) (b : Block) :
  List.length (itemsOf delimiter b) = itemCount delimiter b.
Proof.
  unfold itemCount. destruct (isBlank (content b)) eqn:E.
  - now rewrite (@itemsOf_blank delimiter b E).
  - unfold itemsOf.
    destruct (JS.trim (content b)) eqn:Et.
    + apply trim_blank in Et. unfold isBlank in E. congruence.
    + cbn [JS.truthy]. apply parseContent_count.
Qed.

Lemma totalCount_batchSize (blocks : list Block) (delimiter : string) :
  totalCount blocks delimiter = batchSize blocks delimiter.
Proof.
  unfold totalCount, batchSize. f_equal. apply map_ext.
  intros b. apply itemsOf_count.
Qed.

(** C7.  For the five selections [getDelimiter] gives the line feed, the
    comma, the semicolon, the tab, or the custom string (the line feed
    when that one is empty).  The pieces [parseContent] works on are cut
    at the delimiter (joined by it they give the content back, and none
    holds it).  Each piece is trimmed: what is kept of a piece is the
    piece without the white space at its two ends, it neither starts nor
    ends with white space, and nothing else fits that description.  The
    result is the trimmed pieces that are not empty, in their order: no
    item is the empty string, every trimmed piece that is not empty is an
    item, and there are as many items as pieces that are not blank. *)
Theorem parseContent_split (content selection custom : string)
    (Hsel : In selection delimiterSelections) :
  let d := getDelimiter selection custom in
  let pieces := JS.split d content in
  d = resolvedDelimiter selection custom
  /\ d <> EmptyString
  /\ JS.join d pieces = content
  /\ Forall (fun piece => occurs d piece = false) pieces
  /\ parseContent content d
     = filter (fun item => negb (String.eqb item "")) (map JS.trim pieces)
  /\ subsequence (parseContent content d) (map JS.trim pieces)
  /\ Forall (fun item => item <> EmptyString) (parseContent content d)
  /\ (forall piece, In piece pieces -> JS.trim piece <> EmptyString ->
        In (JS.trim piece) (parseContent content d))
  /\ (exists trimmed : list string,
        Forall2 trimmedOf pieces trimmed
        /\ parseContent content d
           = filter (fun item => negb (String.eqb item "")) trimmed)
  /\ (forall piece item item' : string,
        trimmedOf piece item -> trimmedOf piece item' -> item = item')
  /\ Forall (fun item => notWhiteSpace (firstUnit item)
                         /\ notWhiteSpace (lastUnit item))
            (parseContent content d)
  /\ List.length (parseContent content d)
     = List.length (filter (fun piece => negb (isBlank piece)) pieces).
Proof.
  intros d pieces.
  assert (Hd : d <> EmptyString) by apply getDelimiter_nonempty.
  assert (Hfilter : forall l,
             filter (fun item => Nat.ltb 0 (String.length item)) l
             = filter (fun item => negb (String.eqb item "")) l).
  { intros l. apply filter_ext. intros [|c s]; reflexivity. }
  split.
  { unfold d, getDelimiter, resolvedDelimiter.
    simpl in Hsel.
    destruct Hsel as [<-|[<-|[<-|[<-|[<-|[]]]]]]; try reflexivity.
    simpl. destruct custom; reflexivity. }
  split; [exact Hd|].
  split; [now apply join_split|].
  split; [now apply split_no_sep|].
  split; [apply Hfilter|].
  split; [apply filter_subsequence|].
  split.
  { apply Forall_forall. intros item Hin.
    unfold parseContent in Hin. apply filter_In in Hin.
    destruct Hin as [_ Hlen]. destruct item; [discriminate | discriminate]. }
  split.
  { intros piece Hin Hne. unfold parseContent. apply filter_In. split.
    - now apply in_map.
    - destruct (JS.trim piece); [congruence | reflexivity]. }
  split.
  { exists (map JS.trim pieces). split; [|apply Hfilter].
    generalize pieces. intros l.
    induction l as [|piece rest IH]; constructor;
      [apply trim_trimmedOf | exact IH]. }
  split.
  { intros piece item item' H H'.
    rewrite <- (trimmedOf_trim H), <- (trimmedOf_trim H'). reflexivity. }
  split.
  { apply Forall_forall. intros item Hin.
    unfold parseContent in Hin. apply filter_In in Hin.
    destruct Hin as [Hin _]. apply in_map_iff in Hin.
    destruct Hin as (piece & <- & _).
    destruct (trim_facts piece) as (_ & Hfirst & Hlast). now split. }
  apply parseContent_count.
Qed.

(** Pieces with white space around them and an empty piece, cut at the
    comma; and a content of three spaces, which has no item. *)
Lemma parseContent_split_witness :
  In "comma" delimiterSelections
  /\ parseContent " A , B ,, C " (getDelimiter "comma" "") = ["A"; "B"; "C"]
  /\ parseContent "   " (getDelimiter "comma" "") = []
  /\ Forall (fun item => item <> EmptyString)
            (parseContent " A , B ,, C " (getDelimiter "comma" ""))
  /\ Forall (fun item => notWhiteSpace (firstUnit item)
                         /\ notWhiteSpace (lastUnit item))
            (parseContent " A , B ,, C " (getDelimiter "comma" "")).
Proof.
  assert (Hsel : In "comma" delimiterSelections) by (simpl; tauto).
  split; [exact Hsel|].
  split; [reflexivity|].
  split; [reflexivity|].
  destruct (@parseContent_split " A , B ,, C " "comma" "" Hsel)
    as (_ & _ & _ & _ & _ & _ & Hitems & _ & _ & _ & Hends & _).
  split; [exact Hitems | exact Hends].
Defined.

(** ** Validation of barcode texts *)

Lemma existsb_eqb_In (c : ascii) (l : list ascii) :
  existsb (Ascii.eqb c) l = true <-> In c l.
Proof.
  rewrite existsb_exists. split.
  - intros (x & Hin & Heq). apply Ascii.eqb_eq in Heq. now subst.
  - intros Hin. exists c. split; [exact Hin | apply Ascii.eqb_refl].
Qed.

Lemma isDigitChar_digits (c : ascii) : isDigitChar c = true <-> In c digits.
Proof.
  rewrite <- existsb_eqb_In.
  assert (E : isDigitChar c = existsb (Ascii.eqb c) digits)
    by (destruct c as [[] [] [] [] [] [] [] []]; reflexivity).
  now rewrite E.
Qed.

Lemma isCode39Char_alphabet (c : ascii) :
  isCode39Char c = true <-> In c code39Alphabet.
Proof.
  rewrite <- existsb_eqb_In.
  assert (E : isCode39Char c = existsb (Ascii.eqb c) code39Alphabet)
    by (destruct c as [[] [] [] [] [] [] [] []]; reflexivity).
  now rewrite E.
Qed.

Lemma isAsciiChar_range (c : ascii) :
  isAsciiChar c = true <-> 32 <= nat_of_ascii c <= 126.
Proof.
  unfold isAsciiChar, inRange.
  rewrite andb_true_iff, !Nat.leb_le. tauto.
Qed.

Lemma all_iff (p : ascii -> bool) (P : ascii -> Prop) (s : string) :
  (forall c, p c = true <-> P c) ->
  (JS.all p s = true <-> Forall P (units s)).
Proof.
  intros H. rewrite all_Forall. unfold units. split; intros HF;
    (eapply Forall_impl; [|exact HF]); intros c Hc; now apply H.
Qed.

Lemma isNumeric_digits (s : string) :
  isNumeric s = true <-> s <> EmptyString /\ onlyOf digits s.
Proof.
  unfold isNumeric, onlyOf. destruct s as [|c s].
  - split; [discriminate | intros [H _]; congruence].
  - rewrite (@all_iff _ _ _ isDigitChar_digits). split.
    + intros H. split; [discriminate | exact H].
    + now intros [_ H].
Qed.

Lemma even_mod2 (n : nat) : Nat.eqb (Nat.modulo n 2) 0 = Nat.even n.
Proof.
  rewrite <- Nat.negb_odd, <- Nat.bit0_mod, Nat.bit0_odd.
  destruct (Nat.odd n); reflexivity.
Qed.

Lemma validate_ITF (toUpperCase : string -> string) (text : string) :
  validateBarcodeFormat toUpperCase text "ITF"
  = if negb (isNumeric text) then Invalid Msg.digitsOnly
    else if negb (Nat.even (String.length text)) then Invalid Msg.itfOdd
    else Valid.
Proof. unfold validateBarcodeFormat. rewrite even_mod2. reflexivity. Qed.

(** C6.  [validateBarcodeFormat] accepts for CODE128 exactly the texts of
    units from 0x20 to 0x7E; for EAN13 and JAN exactly the texts of digits
    of length 12 or 13; for CODE39 exactly the texts whose upper-casing is
    made of A-Z, 0-9, hyphen, period, space, dollar, slash, plus and
    percent; for ITF exactly the texts of digits of even length that are
    not empty; and no text for any other format.  The result depends on
    the text and the format only. *)
Theorem validateBarcodeFormat_rules (toUpperCase : string -> string)
    (text format : string) :
  let accepts := valid (validateBarcodeFormat toUpperCase text format) = true in
  (format = "CODE128" -> (accepts <-> printableAscii text))
  /\ (format = "EAN13" \/ format = "JAN" ->
      (accepts <-> onlyOf digits text
                   /\ (String.length text = 12 \/ String.length text = 13)))
  /\ (format = "CODE39" ->
      (accepts <-> onlyOf code39Alphabet (toUpperCase text)))
  /\ (format = "ITF" ->
      (accepts <-> text <> EmptyString /\ onlyOf digits text
                   /\ Nat.even (String.length text) = true))
  /\ (~ In format knownFormats -> ~ accepts).
Proof.
  intros accepts. unfold accepts.
  split; [|split; [|split; [|split]]].
  - intros ->. unfold validateBarcodeFormat; simpl. unfold isAscii, printableAscii.
    rewrite <- (@all_iff _ _ _ isAsciiChar_range).
    destruct (JS.all isAsciiChar text); simpl; split; congruence.
  - intros Hf.
    assert (E : validateBarcodeFormat toUpperCase text format = validateEAN text)
      by (destruct Hf; subst format; reflexivity).
    rewrite E. unfold validateEAN. split.
    + intros Hv.
      destruct (isNumeric text) eqn:En; simpl in Hv; [|discriminate].
      apply isNumeric_digits in En. split; [apply En|].
      destruct (Nat.eqb_spec (String.length text) 12); [now left|].
      destruct (Nat.eqb_spec (String.length text) 13); [now right|].
      discriminate.
    + intros [Hd Hl].
      assert (Hne : text <> EmptyString)
        by (intros ->; simpl in Hl; destruct Hl; discriminate).
      rewrite (proj2 (isNumeric_digits text) (conj Hne Hd)). simpl.
      destruct Hl as [-> | ->]; reflexivity.
  - intros ->. unfold validateBarcodeFormat; simpl. unfold isCode39Compatible, onlyOf.
    rewrite <- (@all_iff _ _ _ isCode39Char_alphabet).
    destruct (JS.all isCode39Char (toUpperCase text)); simpl; split; congruence.
  - intros ->. rewrite validate_ITF. split.
    + intros Hv.
      destruct (isNumeric text) eqn:En; simpl in Hv; [|discriminate].
      apply isNumeric_digits in En. destruct En as [Hne Hd].
      split; [exact Hne|]. split; [exact Hd|].
      destruct (Nat.even (String.length text)); [reflexivity | discriminate].
    + intros (Hne & Hd & He).
      rewrite (proj2 (isNumeric_digits text) (conj Hne Hd)), He. reflexivity.
  - intros Hnot Hacc. apply Hnot. unfold knownFormats. simpl.
    unfold validateBarcodeFormat in Hacc.
    destruct (String.eqb_spec format "CODE128"); [subst; auto 10|].
    destruct (String.eqb_spec format "EAN13"); [subst; auto 10|].
    destruct (String.eqb_spec format "JAN"); [subst; auto 10|].
    destruct (String.eqb_spec format "CODE39"); [subst; auto 10|].
    destruct (String.eqb_spec format "ITF"); [subst; auto 10|].
    simpl in Hacc. discriminate.
Qed.

Lemma validateBarcodeFormat_rules_witness :
  ("EAN13" = "EAN13" \/ "EAN13" = "JAN")
  /\ valid (validateBarcodeFormat asciiToUpperCase "123456789012" "EAN13") = true
  /\ valid (validateBarcodeFormat asciiToUpperCase "12345678901" "EAN13") = false.
Proof.
  split; [now left|]. split.
  - destruct (validateBarcodeFormat_rules asciiToUpperCase "123456789012" "EAN13")
      as (_ & Hean & _).
    apply Hean; [now left|].
    split; [|now left].
    apply isNumeric_digits. reflexivity.
  - reflexivity.
Defined.

(** C6, with the rule of ITF as the specification words it.  The empty
    text is made of digits only and its length is even, and the validator
    rejects it with the message of [isNumeric], which asks for one digit
    at least. *)
Lemma validateBarcodeFormat_ITF_empty :
  onlyOf digits EmptyString
  /\ Nat.even (String.length EmptyString) = true
  /\ validateBarcodeFormat asciiToUpperCase EmptyString "ITF"
     = Invalid Msg.digitsOnly
  /\ ~ (valid (validateBarcodeFormat asciiToUpperCase EmptyString "ITF") = true
        <-> onlyOf digits EmptyString
            /\ Nat.even (String.length EmptyString) = true).
Proof.
  assert (Hd : onlyOf digits EmptyString) by constructor.
  split; [exact Hd|]. split; [reflexivity|]. split; [reflexivity|].
  intros [_ H]. specialize (H (conj Hd eq_refl)). discriminate H.
Qed.

(** ** The choice between the direct path and the worker *)

Lemma countItems_from (delimiter : string) (blocks : list Block) (n : nat) :
  fold_left
    (fun totalCount block =>
       if JS.truthy (JS.trim (content block))
       then totalCount + List.length (parseContent (content block) delimiter)
       else totalCount)
    blocks n
  = n + totalCount blocks delimiter.
Proof.
  revert n. induction blocks as [|b blocks IH]; intros n; simpl.
  - unfold totalCount; simpl. lia.
  - rewrite IH. unfold totalCount, itemsOf; simpl.
    destruct (JS.truthy (JS.trim (content b))); simpl; lia.
Qed.

Lemma countItems_totalCount (blocks : list Block) (delimiter : string) :
  countItems blocks delimiter = totalCount blocks delimiter.
Proof. unfold countItems. now rewrite countItems_from. Qed.

Lemma snoc_neq {A} (l : list A) (x : A) : l ++ [x] <> l.
Proof.
  intros H. apply (f_equal (@List.length A)) in H.
  rewrite length_app in H. simpl in H. lia.
Qed.

Section Planner.

Variable toUpperCase : string -> string.
Variable qrcode : option (string -> string -> option (string * nat)).
Variable JsBarcode : option (string -> string -> Drawing).

(** C8.  [generateCodes] posts the request to the worker exactly when
    the size of the batch is 50 or more and the worker exists; it then
    posts the blocks and settings, draws nothing and leaves the results
    untouched.  In every other case, and so whenever the worker is
    missing, nothing is posted and the direct path writes its codes and
    errors to the store.  The size of the batch is the sum over the
    blocks of the pieces of the content that are not blank, a block of
    blank content counting for none: it is the count the planner makes,
    and a blank block has no item. *)
Theorem generateCodes_threshold (app : QRBarcodeApp) :
  let blocks := blocks (state (store app)) in
  let settings := settings (state (store app)) in
  let d := getDelimiter (delimiter settings) (customDelimiter settings) in
  let total := batchSize blocks d in
  let after := fst (generateCodes toUpperCase qrcode JsBarcode app) in
  let direct := generateDirect toUpperCase qrcode JsBarcode blocks settings in
  countItems blocks d = total
  /\ totalCount blocks d = total
  /\ (forall b : Block,
        isBlank (content b) = true ->
        itemCount d b = 0 /\ itemsOf d b = []
        /\ batchSize (b :: blocks) d = total
        /\ countItems (b :: blocks) d = total)
  /\ (worker after <> worker app
      <-> CONSTANTS.PROGRESS_THRESHOLD <= total /\ worker app <> None)
  /\ (forall sent,
        50 <= total -> worker app = Some sent ->
        generateCodes toUpperCase qrcode JsBarcode app
        = (mkApp (Store.setGenerating true (store app))
                 (Some (sent ++ [GENERATE_CODES blocks settings])),
           []))
  /\ (total < 50 \/ worker app = None ->
        worker after = worker app
        /\ generatedCodes (state (store after)) = codes direct
        /\ errors (state (store after)) = run_errors direct
        /\ isGenerating (state (store after)) = false
        /\ snd (generateCodes toUpperCase qrcode JsBarcode app) = calls direct).
Proof.
  intros blocks0 settings0 d total after direct.
  assert (Hcount : forall bs, countItems bs d = batchSize bs d)
    by (intros bs; now rewrite countItems_totalCount, totalCount_batchSize).
  split; [apply Hcount|].
  split; [apply totalCount_batchSize|].
  split.
  { intros b Hb.
    assert (H0 : itemCount d b = 0) by (unfold itemCount; now rewrite Hb).
    split; [exact H0|].
    split; [now apply itemsOf_blank|].
    assert (Hsize : batchSize (b :: blocks0) d = total)
      by (unfold total, batchSize; cbn [map list_sum]; now rewrite H0).
    split; [exact Hsize | now rewrite Hcount]. }
  unfold after, direct, generateCodes, generateDirect, generateWithWorker.
  fold blocks0. fold settings0. fold d.
  rewrite Hcount. fold total.
  unfold CONSTANTS.PROGRESS_THRESHOLD.
  destruct (Nat.leb_spec 50 total) as [Hge|Hlt];
    destruct (worker app) as [sent|] eqn:Hw; simpl.
  - split; [|split].
    + split; [intros _; split; [exact Hge | discriminate]|].
      intros _ H. injection H as H. now apply snoc_neq in H.
    + intros sent' _ [= <-]. reflexivity.
    + intros [H | H]; [lia | discriminate].
  - split; [|split].
    + split; [congruence | intros [_ H]; congruence].
    + intros sent' _ H. discriminate.
    + intros _. repeat split.
  - split; [|split].
    + split; [congruence | intros [H _]; lia].
    + intros sent' H. lia.
    + intros _. repeat split.
  - split; [|split].
    + split; [congruence | intros [H _]; lia].
    + intros sent' H. lia.
    + intros _. repeat split.
Qed.

End Planner.

(** A batch of 49 items stays on the direct path, also with a block of
    three spaces beside it, which counts for none; one of 50 goes to the
    worker, and without a worker 50 items stay on the direct path. *)
Lemma generateCodes_threshold_witness :
  batchSize [linesBlock 49] (JS.str JS.LF) = 49
  /\ batchSize [linesBlock 50] (JS.str JS.LF) = 50
  /\ batchSize [linesBlock 49; blankBlock] (JS.str JS.LF) = 49
  /\ worker (fst (generateCodes asciiToUpperCase noQR noBarcode
                    (appWith (linesBlock 49) (Some []))))
     = Some []
  /\ worker (fst (generateCodes asciiToUpperCase noQR noBarcode
                    (appOf [linesBlock 49; blankBlock] (Some []))))
     = Some []
  /\ worker (fst (generateCodes asciiToUpperCase noQR noBarcode
                    (appWith (linesBlock 50) (Some []))))
     = Some [GENERATE_CODES [linesBlock 50] createDefaultSettings]
  /\ worker (fst (generateCodes asciiToUpperCase noQR noBarcode
                    (appWith (linesBlock 50) None)))
     = None.
Proof.
  split; [vm_compute; reflexivity|].
  split; [vm_compute; reflexivity|].
  split; [vm_compute; reflexivity|].
  split.
  { destruct (generateCodes_threshold asciiToUpperCase noQR noBarcode
                (appWith (linesBlock 49) (Some [])))
      as (_ & _ & _ & _ & _ & Hdirect).
    apply Hdirect. left. vm_compute. lia. }
  split.
  { destruct (generateCodes_threshold asciiToUpperCase noQR noBarcode
                (appOf [linesBlock 49; blankBlock] (Some [])))
      as (_ & _ & _ & _ & _ & Hdirect).
    apply Hdirect. left. vm_compute. lia. }
  split.
  { destruct (generateCodes_threshold asciiToUpperCase noQR noBarcode
                (appWith (linesBlock 50) (Some [])))
      as (_ & _ & _ & _ & Hworker & _).
    rewrite (Hworker []); [reflexivity | vm_compute; lia | reflexivity]. }
  destruct (generateCodes_threshold asciiToUpperCase noQR noBarcode
              (appWith (linesBlock 50) None))
    as (_ & _ & _ & _ & _ & Hdirect).
  apply Hdirect. right. reflexivity.
Defined.

(** ** The direct path, item by item *)

Lemma codesOf_app (a b : list Entry) : codesOf (a ++ b) = codesOf a ++ codesOf b.
Proof.
  induction a as [|[c|v] a IH]; simpl; [reflexivity | now rewrite IH | exact IH].
Qed.

Lemma errorsOf_app (a b : list Entry) :
  errorsOf (a ++ b) = errorsOf a ++ errorsOf b.
Proof.
  induction a as [|[c|v] a IH]; simpl; [reflexivity | exact IH | now rewrite IH].
Qed.

Section DirectPath.

Variable toUpperCase : string -> string.
Variable qrcode : option (string -> string -> option (string * nat)).
Variable JsBarcode : option (string -> string -> Drawing).

Ltac entry_done := simpl; rewrite ?app_nil_r; repeat split; reflexivity.

(** Whatever the branch, one item makes one entry, numbered by the
    counter, and moves the counter by one. *)
Lemma encodeItem_entry (block : Block) (blockIndex itemIndex : nat)
    (r : Run) (text : string) :
  let next :=
    encodeItem toUpperCase qrcode JsBarcode block blockIndex
               (r, itemIndex) text in
  exists e : Entry,
    entryNumber e = itemIndex /\ entryText e = text
    /\ codes (fst next) = codes r ++ codesOf [e]
    /\ run_errors (fst next) = run_errors r ++ errorsOf [e]
    /\ snd next = itemIndex + 1.
Proof.
  intros next. unfold next.
  unfold encodeItem, QRGenerator_generate, BarcodeGenerator_generate.
  destruct (String.eqb (codeType block) "qr").
  - destruct qrcode as [make|]; [|eexists (inr _); entry_done].
    destruct (make text (qrErrorCorrection block)) as [[svgTag count]|].
    + eexists (inl _); entry_done.
    + eexists (inr _); entry_done.
  - destruct (valid (validateBarcodeFormat toUpperCase text (barcodeFormat block)));
      simpl.
    + destruct JsBarcode as [draw|]; [|eexists (inr _); entry_done].
      destruct (draw text (getFormatConfig (barcodeFormat block))); simpl.
      * eexists (inl _); entry_done.
      * eexists (inr _); entry_done.
      * eexists (inr _); entry_done.
    + eexists (inr _); entry_done.
Qed.

Lemma encodeItems_entries (block : Block) (blockIndex : nat)
    (items : list string) :
  forall (r : Run) (start : nat),
  let final :=
    fold_left (encodeItem toUpperCase qrcode JsBarcode block blockIndex)
              items (r, start) in
  exists entries : list Entry,
    map entryNumber entries = seq start (List.length items)
    /\ map entryText entries = items
    /\ codes (fst final) = codes r ++ codesOf entries
    /\ run_errors (fst final) = run_errors r ++ errorsOf entries
    /\ snd final = start + List.length items.
Proof.
  induction items as [|text items IH]; intros r start final; unfold final.
  - exists []. simpl. rewrite !app_nil_r. repeat split. lia.
  - destruct (encodeItem_entry block blockIndex start r text)
      as (e & Hn & Ht & Hc & He & Hs).
    cbn [fold_left].
    destruct (encodeItem toUpperCase qrcode JsBarcode block blockIndex
                         (r, start) text) as [r1 next] eqn:E.
    simpl in Hc, He, Hs. subst next.
    destruct (IH r1 (start + 1)) as (entries & Hns & Hts & Hcs & Hes & Hss).
    exists (e :: entries).
    split; [simpl; rewrite Hn, Hns; f_equal; f_equal; lia|].
    split; [simpl; now rewrite Ht, Hts|].
    split; [rewrite Hcs, Hc, <- app_assoc; f_equal;
            change (e :: entries) with ([e] ++ entries);
            now rewrite codesOf_app|].
    split; [rewrite Hes, He, <- app_assoc; f_equal;
            change (e :: entries) with ([e] ++ entries);
            now rewrite errorsOf_app|].
    rewrite Hss. simpl. lia.
Qed.


End DirectPath.


(** ** The run completed from the list of the worker *)

Section WorkerPath.

Variable toUpperCase : string -> string.
Variable qrcode : option (string -> string -> option (string * nat)).
Variable JsBarcode : option (string -> string -> Drawing).

Lemma finalizeItem_errors (r : Run) (item : WorkItem) :
  run_errors (finalizeItem toUpperCase qrcode JsBarcode r item) = run_errors r.
Proof.
  unfold finalizeItem.
  destruct (String.eqb (item_codeType item) "qr").
  - destruct (QRGenerator_generate qrcode (item_text item)
                (item_qrErrorCorrection item)) as [[q|] log]; reflexivity.
  - destruct (BarcodeGenerator_generate toUpperCase JsBarcode (item_text item)
                (item_barcodeFormat item)) as [data log].
    destruct (svg data); reflexivity.
Qed.

Lemma finalize_errors (results : list WorkItem) (r : Run) :
  run_errors (fold_left (finalizeItem toUpperCase qrcode JsBarcode) results r)
  = run_errors r.
Proof.
  revert r. induction results as [|item results IH]; intros r; cbn [fold_left].
  - reflexivity.
  - now rewrite IH, finalizeItem_errors.
Qed.

End WorkerPath.

(** C2.  [finalizeCodesFromWorker] never records an error: its [errors]
    array stays empty whatever the list, and the errors of the store stay
    as they were.  On the list the worker returns for the block of the
    end-to-end example the direct path records the line of eleven digits
    as [validation_failed], the worker path records nothing for it; the
    code of the first line lacks the subtitle the direct path gives it. *)
Theorem finalizeCodesFromWorker_records_no_error :
  (forall toUpperCase qrcode JsBarcode results,
     run_errors (finalizeRun toUpperCase qrcode JsBarcode results) = [])
  /\ (forall toUpperCase qrcode JsBarcode results app,
        errors (state (store (finalizeCodesFromWorker toUpperCase qrcode
                                JsBarcode results app)))
        = errors (state (store app)))
  /\ Worker.onmessage (GENERATE_CODES [eanBlock] createDefaultSettings)
     = [PROGRESS 2 2; COMPLETE eanResults]
  /\ (forall toUpperCase qrcode JsBarcode,
        In (mkError "block-0" 2 "12345678901" "validation_failed" Msg.eanLength)
           (run_errors (generateDirect toUpperCase qrcode JsBarcode [eanBlock]
                          createDefaultSettings)))
  /\ run_errors (generateDirect asciiToUpperCase drawQR drawBarcode [eanBlock]
                   createDefaultSettings)
     = [mkError "block-0" 2 "12345678901" "validation_failed" Msg.eanLength]
  /\ run_errors (finalizeRun asciiToUpperCase drawQR drawBarcode eanResults) = []
  /\ map code_subtitle
       (codes (generateDirect asciiToUpperCase drawQR drawBarcode [eanBlock]
                 createDefaultSettings)) = [Some ""]
  /\ map code_subtitle
       (codes (finalizeRun asciiToUpperCase drawQR drawBarcode eanResults))
     = [None].
Proof.
  split.
  { intros. unfold finalizeRun. now rewrite finalize_errors. }
  split; [reflexivity|].
  split; [vm_compute; reflexivity|].
  split.
  { intros toUpperCase qrcode JsBarcode.
    unfold generateDirect, eanBlock.
    cbv - [In Msg.eanLength].
    destruct JsBarcode as [draw|]; [|simpl; auto].
    destruct (draw "123456789012" "EAN13"); simpl; auto. }
  repeat split; vm_compute; reflexivity.
Qed.

(** ** CSV: parsing what [toCSV] writes *)

Lemma or_empty (s : string) : JS.or s EmptyString = s.
Proof. destruct s; reflexivity. Qed.

Lemma includes_cons (c d : ascii) (s : string) :
  JS.includes c (String d s) = false -> d <> c /\ JS.includes c s = false.
Proof.
  simpl. intros H. apply orb_false_iff in H. destruct H as [H1 H2].
  apply Ascii.eqb_neq in H1. now split.
Qed.

(** The steps of the scanning loop, one by one. *)

Lemma loop_plain (c : ascii) (rest : string) res r cur :
  c <> JS.DQUOTE -> c <> JS.COMMA -> c <> JS.LF -> c <> JS.CR ->
  parseCSV_loop (String c rest) (mkCsv res r cur false)
  = parseCSV_loop rest (mkCsv res r (JS.snoc cur c) false).
Proof.
  intros H1 H2 H3 H4. cbn [parseCSV_loop inQuote result row current].
  apply Ascii.eqb_neq in H1, H2, H3, H4. rewrite H1, H2, H3, H4. reflexivity.
Qed.

Lemma loop_comma (rest : string) res r cur :
  parseCSV_loop (String JS.COMMA rest) (mkCsv res r cur false)
  = parseCSV_loop rest (mkCsv res (r ++ [cur]) EmptyString false).
Proof. reflexivity. Qed.

Lemma loop_lf (rest : string) res r cur :
  parseCSV_loop (String JS.LF rest) (mkCsv res r cur false)
  = parseCSV_loop rest (mkCsv (res ++ [r ++ [cur]]) [] EmptyString false).
Proof. reflexivity. Qed.

Lemma loop_open (rest : string) res r cur :
  parseCSV_loop (String JS.DQUOTE rest) (mkCsv res r cur false)
  = parseCSV_loop rest (mkCsv res r cur true).
Proof. reflexivity. Qed.

Lemma loop_close (rest : string) res r cur :
  noQuoteAhead rest ->
  parseCSV_loop (String JS.DQUOTE rest) (mkCsv res r cur true)
  = parseCSV_loop rest (mkCsv res r cur false).
Proof.
  intros H. cbn [parseCSV_loop inQuote result row current].
  rewrite Ascii.eqb_refl.
  destruct rest as [|d rest]; [reflexivity|].
  simpl in H. apply Ascii.eqb_neq in H. rewrite H. reflexivity.
Qed.

Lemma loop_escaped (rest : string) res r cur :
  parseCSV_loop (String JS.DQUOTE (String JS.DQUOTE rest)) (mkCsv res r cur true)
  = parseCSV_loop rest (mkCsv res r (JS.snoc cur JS.DQUOTE) true).
Proof. reflexivity. Qed.

Lemma loop_quoted (c : ascii) (rest : string) res r cur :
  c <> JS.DQUOTE ->
  parseCSV_loop (String c rest) (mkCsv res r cur true)
  = parseCSV_loop rest (mkCsv res r (JS.snoc cur c) true).
Proof.
  intros H. cbn [parseCSV_loop inQuote result row current].
  apply Ascii.eqb_neq in H. rewrite H. reflexivity.
Qed.

(** A field written as it is. *)
Lemma loop_bare (f rest : string) res r cur :
  JS.includes JS.DQUOTE f = false -> JS.includes JS.COMMA f = false ->
  JS.includes JS.LF f = false -> noCR f ->
  parseCSV_loop (f ++ rest) (mkCsv res r cur false)
  = parseCSV_loop rest (mkCsv res r (cur ++ f) false).
Proof.
  unfold noCR. revert cur. induction f as [|c f IH]; intros cur H1 H2 H3 H4.
  - simpl. now rewrite append_nil_r.
  - apply includes_cons in H1, H2, H3, H4.
    destruct H1 as [N1 H1], H2 as [N2 H2], H3 as [N3 H3], H4 as [N4 H4].
    change (String c f ++ rest)%string with (String c (f ++ rest)).
    rewrite loop_plain by assumption.
    rewrite IH by assumption. now rewrite snoc_append.
Qed.

(** A field written between quotes, from the unit after the opening one. *)
Lemma loop_inside (f rest : string) res r cur :
  noQuoteAhead rest ->
  parseCSV_loop (escapeQuotes f ++ String JS.DQUOTE rest) (mkCsv res r cur true)
  = parseCSV_loop rest (mkCsv res r (cur ++ f) false).
Proof.
  intros Hrest. revert cur. induction f as [|c f IH]; intros cur.
  - simpl escapeQuotes. change ("" ++ String JS.DQUOTE rest)%string
      with (String JS.DQUOTE rest).
    rewrite loop_close by assumption. now rewrite append_nil_r.
  - cbn [escapeQuotes]. destruct (Ascii.eqb_spec c JS.DQUOTE) as [->|Hc].
    + change (String JS.DQUOTE (String JS.DQUOTE (escapeQuotes f))
              ++ String JS.DQUOTE rest)%string
        with (String JS.DQUOTE (String JS.DQUOTE
                (escapeQuotes f ++ String JS.DQUOTE rest))).
      rewrite loop_escaped, IH. now rewrite snoc_append.
    + change (String c (escapeQuotes f) ++ String JS.DQUOTE rest)%string
        with (String c (escapeQuotes f ++ String JS.DQUOTE rest)).
      rewrite loop_quoted by assumption. rewrite IH. now rewrite snoc_append.
Qed.

(** A field as [toCSV] writes it. *)
Lemma loop_field (f rest : string) res r cur :
  noCR f -> noQuoteAhead rest ->
  parseCSV_loop (csvField f ++ rest) (mkCsv res r cur false)
  = parseCSV_loop rest (mkCsv res r (cur ++ f) false).
Proof.
  intros Hcr Hrest. unfold csvField. rewrite or_empty.
  destruct (JS.includes JS.DQUOTE f || JS.includes JS.COMMA f
            || JS.includes JS.LF f)%bool eqn:E.
  - rewrite !append_assoc.
    change (JS.str JS.DQUOTE ++ escapeQuotes f ++ JS.str JS.DQUOTE ++ rest)%string
      with (String JS.DQUOTE (escapeQuotes f ++ String JS.DQUOTE rest)).
    rewrite loop_open. now apply loop_inside.
  - apply orb_false_iff in E. destruct E as [E E3].
    apply orb_false_iff in E. destruct E as [E1 E2].
    now apply loop_bare.
Qed.

(** A row as [toCSV] writes it: the fields [fs] and a last field [f]. *)
Lemma loop_row (fs : list string) (f rest : string) res r :
  Forall noCR (fs ++ [f]) -> noQuoteAhead rest ->
  parseCSV_loop (JS.join "," (map csvField (fs ++ [f])) ++ rest)
                (mkCsv res r EmptyString false)
  = parseCSV_loop rest (mkCsv res (r ++ fs) f false).
Proof.
  intros Hcr Hrest. revert r. induction fs as [|g fs IH]; intros r.
  - simpl. inversion Hcr; subst.
    rewrite loop_field by assumption. now rewrite app_nil_r.
  - inversion Hcr; subst.
    cbn [app map]. rewrite join_cons
      by (destruct fs; discriminate).
    rewrite !append_assoc.
    rewrite loop_field; [|assumption|exact (fun H => ltac:(discriminate H))].
    change ("," ++ JS.join "," (map csvField (fs ++ [f])) ++ rest)%string
      with (String JS.COMMA (JS.join "," (map csvField (fs ++ [f])) ++ rest)).
    rewrite loop_comma. simpl append.
    rewrite IH by assumption. now rewrite <- app_assoc.
Qed.

Lemma toCSV_single (r : list string) :
  toCSV [r] = JS.join "," (map csvField r).
Proof. reflexivity. Qed.

Lemma toCSV_cons (r : list string) (rs : list (list string)) :
  rs <> [] ->
  toCSV (r :: rs)
  = (JS.join "," (map csvField r) ++ String JS.LF (toCSV rs))%string.
Proof.
  intros H. unfold toCSV. cbn [map]. rewrite join_cons.
  - reflexivity.
  - destruct rs; [congruence | discriminate].
Qed.

(** The rows [rs] and a last row, from the start of a row. *)
Lemma loop_rows (rs : list (list string)) (fs : list string) (f : string) res :
  Forall (fun r => r <> []) rs ->
  Forall (Forall noCR) (rs ++ [fs ++ [f]]) ->
  parseCSV_loop (toCSV (rs ++ [fs ++ [f]])) (mkCsv res [] EmptyString false)
  = mkCsv (res ++ rs) fs f false.
Proof.
  revert res. induction rs as [|r rs IH]; intros res Hne Hcr.
  - cbn [app]. rewrite toCSV_single.
    inversion Hcr; subst.
    rewrite <- (append_nil_r (JS.join "," (map csvField (fs ++ [f])))).
    rewrite loop_row; [|assumption|exact I].
    simpl. now rewrite app_nil_r.
  - inversion Hne; subst. inversion Hcr; subst.
    destruct (exists_last H1) as (gs & g & ->).
    cbn [app]. rewrite toCSV_cons by (destruct rs; discriminate).
    rewrite loop_row; [|assumption|exact (fun H => ltac:(discriminate H))].
    rewrite loop_lf. cbn [app].
    rewrite IH by assumption. now rewrite <- app_assoc.
Qed.

(** The round trip, shared by the statements below. *)
Lemma parseCSV_written_rows (rows : list (list string)) :
  Forall (fun r => r <> []) rows ->
  Forall (Forall noCR) rows ->
  last rows [] <> [EmptyString] ->
  parseCSV (toCSV rows) = rows.
Proof.
  intros Hne Hcr Hlast.
  destruct rows as [|r0 rows0]; [reflexivity|].
  destruct (@exists_last _ (r0 :: rows0)) as (rs & r & E); [discriminate|].
  rewrite E in *. clear E r0 rows0.
  rewrite last_last in Hlast.
  assert (Hr : r <> []).
  { apply Forall_app in Hne. destruct Hne as [_ Hne]. now inversion Hne. }
  destruct (exists_last Hr) as (fs & f & ->).
  unfold parseCSV. rewrite loop_rows.
  - cbn [current row result].
    destruct f as [|c f]; simpl.
    + destruct fs as [|g fs]; [simpl in Hlast; congruence|]. reflexivity.
    + reflexivity.
  - apply Forall_app in Hne. apply Hne.
  - exact Hcr.
Qed.

(** C10.  A table of at least one row, whose rows have at least one field
    each, whose fields hold no carriage return and whose last row is not
    the single empty field, is what [parseCSV] reads from the text [toCSV]
    writes for it; the fields may hold commas, double quotes and line
    feeds. *)
Theorem parseCSV_toCSV (rows : list (list string))
    (Hrows : rows <> [])
    (Hfields : Forall (fun r => r <> []) rows)
    (Hcr : Forall (Forall (fun f => JS.includes JS.CR f = false)) rows)
    (Hlast : last rows [] <> [EmptyString]) :
  parseCSV (toCSV rows) = rows.
Proof.
  destruct (exists_last Hrows) as (rs & r & ->).
  rewrite last_last in Hlast.
  apply Forall_app in Hfields. destruct Hfields as [Hrs Hr].
  assert (Hne : r <> []) by now inversion Hr.
  destruct (exists_last Hne) as (fs & f & ->).
  unfold parseCSV. rewrite loop_rows by assumption.
  cbn [current row result].
  destruct f as [|c f]; simpl.
  - destruct fs as [|g fs]; [simpl in Hlast; congruence | reflexivity].
  - reflexivity.
Qed.

Lemma parseCSV_toCSV_witness :
  sampleTable <> []
  /\ Forall (fun r => r <> []) sampleTable
  /\ Forall (Forall (fun f => JS.includes JS.CR f = false)) sampleTable
  /\ last sampleTable [] <> [EmptyString]
  /\ parseCSV (toCSV sampleTable) = sampleTable.
Proof.
  assert (H1 : sampleTable <> []) by discriminate.
  assert (H2 : Forall (fun r : list string => r <> []) sampleTable)
    by (repeat constructor; discriminate).
  assert (H3 : Forall (Forall (fun f => JS.includes JS.CR f = false)) sampleTable)
    by (repeat constructor).
  assert (H4 : last sampleTable [] <> [EmptyString]) by (simpl; discriminate).
  split; [exact H1|]. split; [exact H2|]. split; [exact H3|].
  split; [exact H4|].
  exact (parseCSV_toCSV H1 H2 H3 H4).
Defined.

(** ** Lines of a content *)

Lemma noCR_snoc (cur : string) (c : ascii) :
  noCR cur -> c <> JS.CR -> noCR (JS.snoc cur c).
Proof.
  unfold noCR, JS.snoc. intros H Hc. induction cur as [|d cur IH]; simpl in *.
  - apply Ascii.eqb_neq in Hc. now rewrite Hc.
  - apply orb_false_iff in H. destruct H as [H1 H2].
    rewrite H1. simpl. now apply IH.
Qed.

Lemma splitLines_go_cons (cur s : string) :
  exists x l, JS.splitLines_go cur s = x :: l.
Proof.
  revert cur. induction s as [|c s IH]; intros cur; cbn [JS.splitLines_go].
  - eauto.
  - destruct (Ascii.eqb c JS.LF); [eauto|].
    destruct s as [|d s']; [eauto|].
    destruct (Ascii.eqb c JS.CR && Ascii.eqb d JS.LF)%bool; [eauto | apply IH].
Qed.

(** Without carriage returns the lines are the pieces between the line
    feeds. *)
Lemma splitLines_go_noCR (s : string) :
  forall cur, noCR s ->
    JS.splitLines_go cur s
    = if JS.truthy s
      then match s with
           | String c r =>
               if Ascii.eqb c JS.LF then cur :: JS.splitLines_go EmptyString r
               else JS.splitLines_go (JS.snoc cur c) r
           | EmptyString => [cur]
           end
      else [cur].
Proof.
  intros cur H. destruct s as [|c r]; [reflexivity|].
  cbn [JS.truthy JS.splitLines_go].
  destruct (Ascii.eqb c JS.LF); [reflexivity|].
  destruct r as [|d r']; [reflexivity|].
  apply includes_cons in H. destruct H as [Hc _].
  apply Ascii.eqb_neq in Hc. now rewrite Hc.
Qed.

Lemma join_splitLines_go (s : string) :
  forall cur, noCR s ->
    JS.join (JS.str JS.LF) (JS.splitLines_go cur s) = (cur ++ s)%string.
Proof.
  induction s as [|c s IH]; intros cur H.
  - simpl. now rewrite append_nil_r.
  - rewrite splitLines_go_noCR by assumption. cbn [JS.truthy].
    apply includes_cons in H. destruct H as [Hc H].
    destruct (Ascii.eqb_spec c JS.LF) as [->|Hlf].
    + destruct (splitLines_go_cons "" s) as (x & l & E).
      rewrite join_cons by (rewrite E; discriminate).
      rewrite IH by assumption. reflexivity.
    + rewrite IH by assumption. apply snoc_append.
Qed.

Lemma splitLines_go_Forall_noCR (s : string) :
  forall cur, noCR cur -> noCR s -> Forall noCR (JS.splitLines_go cur s).
Proof.
  induction s as [|c s IH]; intros cur Hcur H.
  - repeat constructor. exact Hcur.
  - rewrite splitLines_go_noCR by assumption. cbn [JS.truthy].
    apply includes_cons in H. destruct H as [Hc H].
    destruct (Ascii.eqb c JS.LF).
    + constructor; [exact Hcur|]. now apply IH.
    + apply IH; [now apply noCR_snoc | exact H].
Qed.

Lemma snoc_not_empty (cur : string) (c : ascii) : JS.snoc cur c <> EmptyString.
Proof. destruct cur; discriminate. Qed.

Lemma splitLines_go_last (s : string) :
  forall cur, noCR s ->
    last (JS.splitLines_go cur s) EmptyString = EmptyString ->
    (s = EmptyString /\ cur = EmptyString) \/ lastUnit s = Some JS.LF.
Proof.
  induction s as [|c s IH]; intros cur H Hlast.
  - left. simpl in Hlast. now split.
  - right. rewrite splitLines_go_noCR in Hlast by assumption.
    cbn [JS.truthy] in Hlast.
    apply includes_cons in H. destruct H as [Hc H].
    destruct (Ascii.eqb_spec c JS.LF) as [->|Hlf].
    + destruct (splitLines_go_cons "" s) as (x & l & E).
      rewrite E in Hlast.
      change (last (cur :: x :: l) "") with (last (x :: l) "") in Hlast.
      rewrite <- E in Hlast.
      destruct (IH _ H Hlast) as [[-> _]|Hs]; [reflexivity|].
      destruct s; [discriminate | exact Hs].
    + destruct (IH _ H Hlast) as [[_ Hsn]|Hs].
      * now apply snoc_not_empty in Hsn.
      * destruct s; [discriminate | exact Hs].
Qed.

(** ** The rows of an export *)

Lemma exportRows_rows (blocks : list Block) :
  exportRows blocks
  = [ "Subtitle" :: map (fun b => JS.or (subtitle b) EmptyString) blocks;
      "CodeType" :: map codeType blocks;
      "QRErrorCorrection" :: map qrErrorCorrection blocks;
      "BarcodeFormat" :: map barcodeFormat blocks;
      "SizeOverride" :: map sizeOverride blocks ]
    ++ map (contentRow (blockContents blocks))
           (seq 0 (maxLength (blockContents blocks))).
Proof. reflexivity. Qed.

Lemma maxLength_ge (contents : list (list string)) (j : nat) (lines : list string) :
  nth_error contents j = Some lines -> List.length lines <= maxLength contents.
Proof.
  revert j. induction contents as [|l contents IH]; intros j H.
  - destruct j; discriminate.
  - unfold maxLength in *. simpl. destruct j as [|j]; simpl in H.
    + injection H as ->. lia.
    + apply IH in H. lia.
Qed.

Lemma lineOr_seq (lines : list string) (n : nat) :
  List.length lines <= n ->
  map (lineOr lines) (seq 0 n) = lines ++ repeat EmptyString (n - List.length lines).
Proof.
  revert n. induction lines as [|l lines IH]; intros n Hn.
  - simpl. rewrite Nat.sub_0_r. clear Hn.
    generalize 0 as start. induction n as [|n IHn]; intros start; simpl.
    + reflexivity.
    + rewrite IHn. unfold lineOr, JS.at_. now destruct start.
  - destruct n as [|n]; simpl in Hn; [lia|].
    cbn [seq map List.length Nat.sub app].
    rewrite <- seq_shift, map_map.
    f_equal.
    + unfold lineOr. simpl. apply or_empty.
    + rewrite <- IH by lia. apply map_ext. intros i. reflexivity.
Qed.

Lemma dropTrailingEmpty_repeat (k : nat) :
  dropTrailingEmpty (repeat EmptyString k) = [].
Proof.
  unfold dropTrailingEmpty. induction k as [|k IH]; simpl.
  - reflexivity.
  - now rewrite IH.
Qed.

Lemma dropTrailingEmpty_app (l t : list string) :
  dropTrailingEmpty t = [] ->
  dropTrailingEmpty (l ++ t) = dropTrailingEmpty l.
Proof.
  intros Ht. unfold dropTrailingEmpty in *. rewrite fold_right_app, Ht.
  reflexivity.
Qed.

Lemma dropTrailingEmpty_id (l : list string) :
  l <> [] -> last l EmptyString <> EmptyString -> dropTrailingEmpty l = l.
Proof.
  induction l as [|x l IH]; intros Hne Hlast; [congruence|].
  destruct l as [|y l].
  - simpl in *. destruct (String.eqb_spec x ""); [congruence | reflexivity].
  - change (dropTrailingEmpty (x :: y :: l))
      with (match dropTrailingEmpty (y :: l) with
            | [] => if String.eqb x "" then [] else [x]
            | _ => x :: dropTrailingEmpty (y :: l)
            end).
    rewrite IH; [reflexivity | discriminate | exact Hlast].
Qed.

Lemma existsb_eqb_In_string (s : string) (l : list string) :
  existsb (String.eqb s) l = true -> In s l.
Proof.
  intros H. apply existsb_exists in H. destruct H as (x & Hin & Heq).
  apply String.eqb_eq in Heq. now subst.
Qed.

(** What the type of a block gives for its enumerated fields. *)
Lemma wellTyped_fields (b : Block) :
  wellTypedBlock b = true ->
  (noCR (codeType b) /\ noCR (qrErrorCorrection b)
   /\ noCR (barcodeFormat b) /\ noCR (sizeOverride b))
  /\ (if String.eqb (codeType b) "barcode" then "barcode" else "qr") = codeType b
  /\ JS.or (qrErrorCorrection b) "M" = qrErrorCorrection b
  /\ JS.or (barcodeFormat b) "CODE128" = barcodeFormat b
  /\ JS.or (sizeOverride b) "auto" = sizeOverride b.
Proof.
  unfold wellTypedBlock. intros H.
  apply andb_true_iff in H. destruct H as [H H4].
  apply andb_true_iff in H. destruct H as [H H3].
  apply andb_true_iff in H. destruct H as [H1 H2].
  apply existsb_eqb_In_string in H1, H2, H3, H4.
  assert (F1 : noCR (codeType b)
               /\ (if String.eqb (codeType b) "barcode" then "barcode" else "qr")
                  = codeType b).
  { simpl in H1. destruct H1 as [<-|[<-|[]]]; split; reflexivity. }
  assert (F2 : noCR (qrErrorCorrection b)
               /\ JS.or (qrErrorCorrection b) "M" = qrErrorCorrection b).
  { simpl in H2. destruct H2 as [<-|[<-|[<-|[<-|[]]]]]; split; reflexivity. }
  assert (F3 : noCR (barcodeFormat b)
               /\ JS.or (barcodeFormat b) "CODE128" = barcodeFormat b).
  { simpl in H3.
    destruct H3 as [<-|[<-|[<-|[<-|[<-|[]]]]]]; split; reflexivity. }
  assert (F4 : noCR (sizeOverride b)
               /\ JS.or (sizeOverride b) "auto" = sizeOverride b).
  { simpl in H4. destruct H4 as [<-|[<-|[<-|[<-|[]]]]]; split; reflexivity. }
  tauto.
Qed.

Lemma exportable_lines (b : Block) :
  exportable b ->
  let lines := JS.splitLines (content b) in
  (if negb (JS.truthy (content b)) then [] else lines) = lines
  /\ lines <> []
  /\ last lines EmptyString <> EmptyString
  /\ Forall noCR lines
  /\ JS.join (JS.str JS.LF) lines = content b.
Proof.
  intros (_ & _ & Hcr & Hne & Hlast) lines. unfold lines, JS.splitLines.
  split; [destruct (content b); [congruence | reflexivity]|].
  split.
  { destruct (splitLines_go_cons "" (content b)) as (x & l & ->). discriminate. }
  split.
  { intros H. apply splitLines_go_last in H; [|exact Hcr]. tauto. }
  split; [now apply splitLines_go_Forall_noCR|].
  now rewrite join_splitLines_go.
Qed.

Lemma blockContents_nth (blocks : list Block) (j : nat) (b : Block) :
  Forall exportable blocks -> nth_error blocks j = Some b ->
  nth_error (blockContents blocks) j = Some (JS.splitLines (content b)).
Proof.
  intros Hall Hj. unfold blockContents.
  erewrite map_nth_error by exact Hj. f_equal.
  rewrite Forall_forall in Hall.
  apply (exportable_lines (Hall _ (nth_error_In _ _ Hj))).
Qed.

Lemma Forall_last {A} (P : A -> Prop) (l : list A) (d : A) :
  Forall P l -> l <> [] -> P (last l d).
Proof.
  induction 1 as [|x l Hx Hl IH]; intros Hne; [congruence|].
  destruct l as [|y l]; [exact Hx|]. apply IH. discriminate.
Qed.

Lemma lineOr_noCR (lines : list string) (i : nat) :
  Forall noCR lines -> noCR (lineOr lines i).
Proof.
  intros H. unfold lineOr, JS.at_.
  destruct (nth_error lines i) as [l|] eqn:E; [|reflexivity].
  rewrite or_empty. rewrite Forall_forall in H.
  apply H. eapply nth_error_In. exact E.
Qed.

Lemma exportRows_noCR (blocks : list Block) :
  Forall exportable blocks -> Forall (Forall noCR) (exportRows blocks).
Proof.
  intros Hall. rewrite exportRows_rows.
  assert (Hmap : forall f : Block -> string,
             (forall b, exportable b -> noCR (f b)) ->
             Forall noCR (map f blocks)).
  { intros f Hf. apply Forall_map. eapply Forall_impl; [|exact Hall]. exact Hf. }
  apply Forall_app. split.
  - repeat apply Forall_cons; try apply Forall_nil; try reflexivity; apply Hmap;
      intros b Hb.
    + rewrite or_empty. apply Hb.
    + destruct Hb as [Hb _]. now apply wellTyped_fields in Hb.
    + destruct Hb as [Hb _]. now apply wellTyped_fields in Hb.
    + destruct Hb as [Hb _]. now apply wellTyped_fields in Hb.
    + destruct Hb as [Hb _]. now apply wellTyped_fields in Hb.
  - apply Forall_map. apply Forall_forall. intros i _. unfold contentRow.
    constructor; [destruct (Nat.eqb i 0); reflexivity|].
    apply Forall_map. unfold blockContents. apply Forall_map.
    eapply Forall_impl; [|exact Hall]. intros b Hb. apply lineOr_noCR.
    destruct (@exportable_lines _ Hb) as (-> & _ & _ & Hl & _). exact Hl.
Qed.

Lemma exportRows_width (blocks : list Block) :
  Forall (fun r => List.length r = S (List.length blocks)) (exportRows blocks).
Proof.
  rewrite exportRows_rows. apply Forall_app. split.
  - repeat constructor; simpl; now rewrite length_map.
  - apply Forall_map. apply Forall_forall. intros i _. unfold contentRow, blockContents.
    simpl. now rewrite !length_map.
Qed.

Lemma parseCSV_exportCSV (blocks : list Block) :
  blocks <> [] -> Forall exportable blocks ->
  parseCSV (exportCSV blocks) = exportRows blocks.
Proof.
  intros Hne Hall. unfold exportCSV. apply parseCSV_written_rows.
  - eapply Forall_impl; [|apply exportRows_width].
    intros r Hr ->. discriminate.
  - now apply exportRows_noCR.
  - intros H.
    assert (Hw : List.length (last (exportRows blocks) []) = S (List.length blocks)).
    { apply (Forall_last _ (exportRows_width blocks)).
      rewrite exportRows_rows. discriminate. }
    rewrite H in Hw. destruct blocks; [congruence | discriminate].
Qed.

(** ** The import of an export *)

Lemma contentBelow_rows (contents : list (list string)) (col n : nat) :
  forall a,
    contentBelow col (map (contentRow contents) (seq (S a) n))
    = map (fun i => cell (contentRow contents i) col) (seq (S a) n).
Proof.
  induction n as [|n IH]; intros a; simpl.
  - reflexivity.
  - now rewrite IH.
Qed.

Lemma cell_contentRow (contents : list (list string)) (i j : nat)
    (lines : list string) :
  nth_error contents j = Some lines ->
  cell (contentRow contents i) (S j) = lineOr lines i.
Proof.
  intros H. unfold cell, contentRow, JS.at_. simpl.
  now erewrite map_nth_error by exact H.
Qed.

Lemma contentLines_rows (contents : list (list string)) (j m : nat)
    (lines : list string) :
  nth_error contents j = Some lines ->
  contentLines (S j) (map (contentRow contents) (seq 0 (S m)))
  = map (lineOr lines) (seq 0 (S m)).
Proof.
  intros H. cbn [seq map contentLines].
  rewrite contentBelow_rows. rewrite (@cell_contentRow _ 0 _ _ H). f_equal.
  apply map_ext. intros i. now apply cell_contentRow.
Qed.

Lemma cell_header (key : string) (f : Block -> string) (blocks : list Block)
    (j : nat) (b : Block) :
  nth_error blocks j = Some b ->
  JS.at_ (key :: map f blocks) (S j) = Some (f b).
Proof. intros H. unfold JS.at_. simpl. now apply map_nth_error. Qed.

(** The block read from column [j + 1] of the rows written for [blocks]
    is the block at position [j]. *)
Lemma importBlock_exportRows (blocks : list Block) (uuid : string) (j : nat)
    (b : Block) :
  Forall exportable blocks -> nth_error blocks j = Some b ->
  sameBlock (importBlock (exportRows blocks) uuid (S j)) b.
Proof.
  intros Hall Hj.
  assert (Hb : exportable b).
  { rewrite Forall_forall in Hall. apply Hall. eapply nth_error_In. exact Hj. }
  pose proof (@blockContents_nth _ _ _ Hall Hj) as Hlines.
  destruct (@exportable_lines _ Hb) as (_ & Hne & Hlast & _ & Hjoin).
  destruct Hb as (Hty & _).
  destruct (@wellTyped_fields _ Hty) as (_ & Hct & Hqr & Hbf & Hso).
  pose proof (@maxLength_ge _ _ _ Hlines) as Hmax.
  destruct (maxLength (blockContents blocks)) as [|m] eqn:Em.
  { destruct (JS.splitLines (content b)); [congruence | simpl in Hmax; lia]. }
  assert (Hcontent :
            JS.join (JS.str JS.LF)
              (dropTrailingEmpty
                 (contentLines (S j)
                    (map (contentRow (blockContents blocks)) (seq 0 (S m)))))
            = content b).
  { rewrite (@contentLines_rows _ _ m _ Hlines).
    rewrite lineOr_seq by exact Hmax.
    rewrite dropTrailingEmpty_app by apply dropTrailingEmpty_repeat.
    rewrite dropTrailingEmpty_id by assumption. exact Hjoin. }
  unfold importBlock. rewrite exportRows_rows, Em.
  cbn [findRow find firstCellIs JS.at_ nth_error app String.eqb Ascii.eqb
       Bool.eqb seq map contentRow JS.findIndex option_map skipn Nat.eqb].
  unfold cellOr, cell.
  rewrite !(@cell_header _ _ _ _ _ Hj).
  unfold sameBlock; cbn [spreadBlock spread subtitle codeType qrErrorCorrection
    barcodeFormat sizeOverride content upd_subtitle upd_codeType
    upd_qrErrorCorrection upd_barcodeFormat upd_sizeOverride upd_content
    createNewBlock DEFAULTS.block].
  rewrite !or_empty, Hct, Hqr, Hbf, Hso.
  repeat split.
  exact Hcontent.
Qed.

Lemma Forall2_columns {A B} (R : A -> B -> Prop) (F : nat -> A) (l : list B) :
  forall k,
    (forall j b, nth_error l j = Some b -> R (F (S (k + j))) b) ->
    Forall2 R (map F (seq (S k) (List.length l))) l.
Proof.
  induction l as [|x l IH]; intros k H; simpl.
  - constructor.
  - constructor.
    + rewrite <- (Nat.add_0_r k) at 1. now apply (H 0).
    + apply IH. intros j b Hj. rewrite <- Nat.add_succ_r. now apply (H (S j)).
Qed.

(** C4, as the code has it.  A list of at least one block, whose blocks
    hold values of their types in the enumerated fields, no carriage
    return in the subtitle and the content, and a content that is not
    empty and does not end with a line feed, is exported to a text from
    which the import of the columnar format rebuilds as many blocks, equal
    to the exported ones in the subtitle, the code type, the error
    correction level, the barcode format, the size override and the
    content. *)
Theorem export_import_roundtrip (uuid : nat -> string) (blocks : list Block)
    (Hne : blocks <> [])
    (Hall : Forall exportable blocks) :
  exists newBlocks,
    importColumnar uuid (parseCSV (exportCSV blocks)) = NewBlocks newBlocks
    /\ Forall2 sameBlock newBlocks blocks.
Proof.
  rewrite parseCSV_exportCSV by assumption.
  exists (map (fun col => importBlock (exportRows blocks) (uuid col) col)
              (seq 1 (List.length blocks))).
  split.
  - unfold importColumnar. rewrite exportRows_rows at 1.
    cbn [app List.length]. rewrite length_map.
    destruct blocks as [|b0 blocks0]; [congruence|].
    replace (S (List.length (b0 :: blocks0)) - 1) with (S (List.length blocks0))
      by (simpl; lia).
    reflexivity.
  - apply Forall2_columns. intros j b Hj. simpl.
    now apply importBlock_exportRows.
Qed.

Lemma export_import_roundtrip_witness :
  [eanBlock] <> [] /\ Forall exportable [eanBlock]
  /\ exists newBlocks,
       importColumnar (fun _ => "u")
         (parseCSV (exportCSV [eanBlock])) = NewBlocks newBlocks
       /\ Forall2 sameBlock newBlocks [eanBlock].
Proof.
  assert (H1 : [eanBlock] <> []) by discriminate.
  assert (H2 : Forall exportable [eanBlock]).
  { repeat constructor; try reflexivity; simpl; discriminate. }
  split; [exact H1|]. split; [exact H2|].
  exact (export_import_roundtrip (fun _ => "u") H1 H2).
Defined.

(** C4, as the specification words it.  The import drops the empty lines
    at the end of a column: a block of the declared types whose content is
    one line with a line feed after it comes back without the line feed. *)
Lemma export_import_trailing_newline :
  wellTypedBlock trailingBlock = true
  /\ content trailingBlock <> EmptyString
  /\ importColumnar (fun _ => "u") (parseCSV (exportCSV [trailingBlock]))
     = NewBlocks [mkBlock "u" "" "qr" "M" "CODE128" "auto" "a"]
  /\ ~ (exists newBlocks,
          importColumnar (fun _ => "u") (parseCSV (exportCSV [trailingBlock]))
          = NewBlocks newBlocks
          /\ Forall2 sameBlock newBlocks [trailingBlock]).
Proof.
  split; [reflexivity|]. split; [discriminate|].
  assert (Himp : importColumnar (fun _ => "u")
                   (parseCSV (exportCSV [trailingBlock]))
                 = NewBlocks [mkBlock "u" "" "qr" "M" "CODE128" "auto" "a"])
    by (vm_compute; reflexivity).
  split; [exact Himp|].
  intros (newBlocks & Hnew & Hsame). rewrite Himp in Hnew.
  injection Hnew as <-.
  inversion Hsame as [|x y l l' Hxy _]; subst.
  destruct Hxy as (_ & _ & _ & _ & _ & Hcontent).
  discriminate Hcontent.
Qed.

(** The split at [\r?\n] reads a carriage return before a line feed as
    part of the line break, and the import joins the lines by line feeds:
    the content comes back without the carriage return. *)
Lemma export_import_crlf :
  importColumnar (fun _ => "u") (parseCSV (exportCSV [crlfBlock]))
  = NewBlocks
      [mkBlock "u" "" "qr" "M" "CODE128" "auto"
               ("a" ++ JS.str JS.LF ++ "b")%string].
Proof. vm_compute. reflexivity. Qed.

(** An export of no block has no column to import. *)
Lemma export_import_no_block :
  exists description,
    importColumnar (fun _ => "u") (parseCSV (exportCSV [])) = ImportError description.
Proof. eexists. vm_compute. reflexivity. Qed.

(* ================================================================== *)
(** * Further properties of the store *)
(* ================================================================== *)

Lemma recordHistory_last (st : AppStore) :
  historyInv st ->
  historyIndex (Store.recordHistory st)
  = (Z.of_nat (List.length (history (Store.recordHistory st))) - 1)%Z
  /\ (0 <= historyIndex (Store.recordHistory st))%Z.
Proof.
  intros [Hidx Hlen].
  unfold Store.recordHistory, CONSTANTS.MAX_HISTORY in *.
  rewrite slice0_nonneg by lia.
  set (kept := firstn _ _).
  assert (Hkept : List.length kept = Z.to_nat (historyIndex st + 1)).
  { unfold kept. rewrite length_firstn. lia. }
  set (entry := deepCloneSnapshot (blocks (state st)) (settings (state st))).
  destruct (Nat.ltb_spec 20 (List.length (kept ++ [entry]))) as [Hgt|Hle];
    rewrite length_app in *; simpl in *.
  - destruct kept as [|x kept']; simpl in *; [lia|].
    rewrite length_app; simpl. lia.
  - rewrite length_app; simpl. lia.
Qed.

Lemma recordHistory_index (st : AppStore) :
  historyInv st ->
  historyIndex (Store.recordHistory st)
  = if (historyIndex st <? 19)%Z then (historyIndex st + 1)%Z
    else historyIndex st.
Proof.
  intros [Hidx Hlen].
  unfold Store.recordHistory, CONSTANTS.MAX_HISTORY in *.
  rewrite slice0_nonneg by lia.
  set (kept := firstn _ _).
  assert (Hkept : List.length kept = Z.to_nat (historyIndex st + 1)).
  { unfold kept. rewrite length_firstn. lia. }
  set (entry := deepCloneSnapshot (blocks (state st)) (settings (state st))).
  destruct (Nat.ltb_spec 20 (List.length (kept ++ [entry]))) as [Hgt|Hle];
    rewrite length_app in *; simpl in *;
    destruct (Z.ltb_spec (historyIndex st) 19); lia.
Qed.

Lemma restore_Some (i : Z) (st : AppStore) (entry : Snapshot) :
  JS.atZ (history st) i = Some entry ->
  exists st',
    Store.restore i st = Some st'
    /\ history st' = history st /\ historyIndex st' = i
    /\ snapshotOf st' = entry
    /\ generatedCodes (state st') = generatedCodes (state st)
    /\ errors (state st') = errors (state st)
    /\ mode (state st') = mode (state st)
    /\ isGenerating (state st') = isGenerating (state st)
    /\ progress (state st') = progress (state st).
Proof.
  intros H. unfold Store.restore. rewrite H. eexists. split; [reflexivity|].
  unfold snapshotOf. simpl.
  rewrite deepCloneBlocks_id, deepCloneSettings_id.
  destruct entry. repeat split.
Qed.

Lemma atZ_Some {A} (l : list A) (i : Z) :
  (0 <= i < Z.of_nat (List.length l))%Z -> exists x, JS.atZ l i = Some x.
Proof.
  intros H. unfold JS.atZ. destruct (Z.ltb_spec i 0); [lia|].
  destruct (nth_error l (Z.to_nat i)) eqn:E; [eauto|].
  apply nth_error_None in E. lia.
Qed.

Lemma setState_cursor (u : StateUpdate) (record : bool) (st : AppStore) :
  historyInv st -> cursorInv st -> cursorInv (Store.setState u record st).
Proof.
  intros Hinv Hc. unfold Store.setState. destruct record.
  - right. simpl. destruct (recordHistory_last Hinv) as [E H0].
    split; [exact H0 | lia].
  - exact Hc.
Qed.

Lemma restore_cursor (i : Z) (st st' : AppStore) :
  (0 <= i < Z.of_nat (List.length (history st)))%Z ->
  Store.restore i st = Some st' -> cursorInv st'.
Proof.
  intros Hi. unfold Store.restore.
  destruct (JS.atZ (history st) i); [|discriminate].
  intros [= <-]. right. simpl. exact Hi.
Qed.

Lemma step_cursor (st st' : AppStore) :
  step st st' -> historyInv st -> cursorInv st -> cursorInv st'.
Proof.
  intros Hstep Hinv Hc. destruct Hstep;
    try (now apply setState_cursor).
  - unfold Store.removeBlock.
    destruct (Nat.leb _ _); [exact Hc | now apply setState_cursor].
  - unfold Store.duplicateBlock.
    destruct (find _ _); [|exact Hc].
    destruct (JS.findIndex _ _); [now apply setState_cursor | exact Hc].
  - unfold Store.reorderBlocks in H.
    destruct (JS.at_ _ _); [|discriminate].
    injection H as <-. now apply setState_cursor.
  - left. split; reflexivity.
  - unfold Store.undo, Store.canUndo in H.
    destruct (Z.ltb_spec 0 (historyIndex st)); simpl in H.
    + eapply restore_cursor; [|exact H]. destruct Hinv; lia.
    + injection H as <-. exact Hc.
  - unfold Store.redo, Store.canRedo in H.
    destruct (Z.ltb_spec (historyIndex st)
                         (Z.of_nat (List.length (history st)) - 1)); simpl in H.
    + eapply restore_cursor; [|exact H]. destruct Hinv; lia.
    + injection H as <-. exact Hc.
Qed.

Lemma reachable_cursor (st : AppStore) : reachable st -> cursorInv st.
Proof.
  induction 1 as [uuid | st st' Hr IH Hstep].
  - left. split; reflexivity.
  - eapply step_cursor; [exact Hstep | now apply reachable_inv | exact IH].
Qed.

(** X1.  On a reachable store the cursor is -1 with an empty log or
    points into the log.  [undo] and [redo] never read past the log: each
    returns a store with the same log; when [canUndo] (resp. [canRedo])
    holds the cursor has moved by one and the live blocks and settings
    are the entry it now points to, otherwise the store is unchanged. *)
Theorem undo_redo_defined (st : AppStore) (Hr : reachable st) :
  cursorInv st
  /\ (exists st',
        Store.undo st = Some st' /\ history st' = history st
        /\ if Store.canUndo st
           then historyIndex st' = (historyIndex st - 1)%Z
                /\ JS.atZ (history st) (historyIndex st - 1) = Some (snapshotOf st')
           else st' = st)
  /\ (exists st',
        Store.redo st = Some st' /\ history st' = history st
        /\ if Store.canRedo st
           then historyIndex st' = (historyIndex st + 1)%Z
                /\ JS.atZ (history st) (historyIndex st + 1) = Some (snapshotOf st')
           else st' = st).
Proof.
  pose proof (reachable_inv Hr) as [Hidx Hlen].
  split; [now apply reachable_cursor|]. split.
  - unfold Store.undo. destruct (Store.canUndo st) eqn:E; simpl.
    + unfold Store.canUndo in E. apply Z.ltb_lt in E.
      destruct (@atZ_Some _ (history st) (historyIndex st - 1)) as [e He]; [lia|].
      destruct (restore_Some _ _ He) as (st' & Hs & Hh & Hi & Hsnap & _).
      exists st'. rewrite He, Hsnap. repeat split; assumption.
    + exists st. repeat split.
  - unfold Store.redo. destruct (Store.canRedo st) eqn:E; simpl.
    + unfold Store.canRedo in E. apply Z.ltb_lt in E.
      destruct (@atZ_Some _ (history st) (historyIndex st + 1)) as [e He]; [lia|].
      destruct (restore_Some _ _ He) as (st' & Hs & Hh & Hi & Hsnap & _).
      exists st'. rewrite He, Hsnap. repeat split; assumption.
    + exists st. repeat split.
Qed.

Lemma threeBlocks_reachable : reachable threeBlocks.
Proof.
  unfold threeBlocks.
  eapply reach_step; [eapply reach_step; [apply reach_new|]|]; apply step_addBlock.
Qed.

Lemma undo_redo_defined_witness :
  reachable threeBlocks
  /\ exists st',
       Store.undo threeBlocks = Some st' /\ history st' = history threeBlocks
       /\ if Store.canUndo threeBlocks
          then historyIndex st' = (historyIndex threeBlocks - 1)%Z
               /\ JS.atZ (history threeBlocks) (historyIndex threeBlocks - 1)
                  = Some (snapshotOf st')
          else st' = threeBlocks.
Proof.
  split; [apply threeBlocks_reachable|].
  apply (undo_redo_defined threeBlocks_reachable).
Defined.

(** X2.  A recording [setState] on a reachable store leaves the cursor
    on the last entry of the log, so [redo] is no longer available; and
    [undo] is available after it exactly when the log held an entry
    before: the first mutation of a new or reset store cannot be undone. *)
Theorem setState_discards_redo (st : AppStore) (u : StateUpdate)
    (Hr : reachable st) :
  let st' := Store.setState u true st in
  historyIndex st' = (Z.of_nat (List.length (history st')) - 1)%Z
  /\ Store.canRedo st' = false
  /\ (Store.canUndo st' = true <-> history st <> [])
  /\ (forall st'', Store.redo st' = Some st'' -> st'' = st').
Proof.
  intros st'.
  pose proof (reachable_inv Hr) as Hinv.
  pose proof (reachable_cursor Hr) as Hc.
  destruct (recordHistory_last Hinv) as [Elast H0].
  assert (Hidx : historyIndex st'
                 = (Z.of_nat (List.length (history st')) - 1)%Z) by exact Elast.
  assert (Hredo : Store.canRedo st' = false).
  { unfold Store.canRedo. apply Z.ltb_ge. lia. }
  split; [exact Hidx|]. split; [exact Hredo|]. split.
  - unfold Store.canUndo. rewrite Z.ltb_lt.
    change (historyIndex st') with (historyIndex (Store.recordHistory st)).
    rewrite (recordHistory_index Hinv).
    destruct Hinv as [Hi Hlen].
    destruct Hc as [[Hnil Hm1]|Hpos].
    + rewrite Hnil, Hm1. simpl. split; [lia | congruence].
    + split; [intros _ E; rewrite E in Hpos; simpl in Hpos; lia|].
      intros _. destruct (Z.ltb_spec (historyIndex st) 19); lia.
  - intros st''. unfold Store.redo. rewrite Hredo. simpl. congruence.
Qed.

Lemma setState_discards_redo_witness :
  reachable threeBlocks
  /\ Store.canRedo (Store.setState noUpdate true threeBlocks) = false.
Proof.
  split; [apply threeBlocks_reachable|].
  apply (setState_discards_redo noUpdate threeBlocks_reachable).
Defined.

Lemma restore_eq (i : Z) (st : AppStore) (entry : Snapshot) :
  JS.atZ (history st) i = Some entry ->
  Store.restore i st = Some (restored st entry i).
Proof.
  intros H. unfold Store.restore, restored. rewrite H.
  now rewrite deepCloneBlocks_id, deepCloneSettings_id.
Qed.

(** X3.  On a reachable store where [canUndo] holds, [undo] followed by
    [redo] gives back the log and the cursor, leaves the results, the
    mode, the flag and the progress as they were, and makes the live
    blocks and settings the entry at the cursor; the same pair applied
    once more changes nothing. *)
Theorem undo_then_redo (st : AppStore) (Hr : reachable st)
    (Hcan : Store.canUndo st = true) :
  exists st1 st2,
    Store.undo st = Some st1 /\ Store.redo st1 = Some st2
    /\ history st2 = history st /\ historyIndex st2 = historyIndex st
    /\ JS.atZ (history st) (historyIndex st) = Some (snapshotOf st2)
    /\ generatedCodes (state st2) = generatedCodes (state st)
    /\ errors (state st2) = errors (state st)
    /\ mode (state st2) = mode (state st)
    /\ isGenerating (state st2) = isGenerating (state st)
    /\ progress (state st2) = progress (state st)
    /\ (exists st3, Store.undo st2 = Some st3 /\ Store.redo st3 = Some st2).
Proof.
  pose proof (reachable_inv Hr) as [Hidx Hlen].
  assert (Hpos : (0 < historyIndex st)%Z)
    by (unfold Store.canUndo in Hcan; now apply Z.ltb_lt in Hcan).
  set (i := historyIndex st) in *.
  destruct (@atZ_Some _ (history st) (i - 1)) as [e1 He1]; [lia|].
  destruct (@atZ_Some _ (history st) i) as [e2 He2]; [lia|].
  assert (Hlt : (i - 1 <? Z.of_nat (List.length (history st)) - 1)%Z = true)
    by (apply Z.ltb_lt; lia).
  assert (Hback : (i - 1 + 1)%Z = i) by lia.
  assert (Hundo : forall s, history s = history st -> historyIndex s = i ->
                    Store.undo s = Some (restored s e1 (i - 1))).
  { intros s Hh Hi. unfold Store.undo, Store.canUndo. rewrite Hi.
    fold i in Hcan. unfold Store.canUndo in Hcan. fold i in Hcan.
    rewrite Hcan. simpl. apply restore_eq. now rewrite Hh. }
  assert (Hredo : forall s, history s = history st -> historyIndex s = (i - 1)%Z ->
                    Store.redo s = Some (restored s e2 i)).
  { intros s Hh Hi. unfold Store.redo, Store.canRedo. rewrite Hi, Hh, Hlt.
    simpl. rewrite Hback. apply restore_eq. now rewrite Hh. }
  exists (restored st e1 (i - 1)), (restored (restored st e1 (i - 1)) e2 i).
  split; [now apply Hundo|].
  split; [now apply Hredo|].
  split; [reflexivity|]. split; [reflexivity|].
  split; [rewrite He2; destruct e2; reflexivity|].
  split; [reflexivity|]. split; [reflexivity|]. split; [reflexivity|].
  split; [reflexivity|]. split; [reflexivity|].
  eexists. split; [now apply Hundo|].
  rewrite Hredo by reflexivity. reflexivity.
Qed.

Lemma undo_then_redo_witness :
  reachable threeBlocks /\ Store.canUndo threeBlocks = true
  /\ exists st1 st2,
       Store.undo threeBlocks = Some st1 /\ Store.redo st1 = Some st2
       /\ history st2 = history threeBlocks
       /\ historyIndex st2 = historyIndex threeBlocks.
Proof.
  split; [apply threeBlocks_reachable|]. split; [reflexivity|].
  destruct (undo_then_redo threeBlocks_reachable eq_refl)
    as (st1 & st2 & H1 & H2 & H3 & H4 & _).
  exists st1, st2. repeat split; assumption.
Defined.

(** X4.  [reset] forgets everything: whatever the store, the result is
    the store [new AppStore()] builds with the same identifier; neither
    [undo] nor [redo] is available after it. *)
Theorem reset_is_new (uuid : string) (st : AppStore) :
  Store.reset uuid st = Store.constructor uuid
  /\ Store.canUndo (Store.reset uuid st) = false
  /\ Store.canRedo (Store.reset uuid st) = false.
Proof.
  assert (E : Store.reset uuid st = Store.constructor uuid).
  { unfold Store.reset, Store.setState, Store.constructor. simpl. reflexivity. }
  rewrite E. repeat split.
Qed.

(** X5.  Neither [generateCodes], on either path, nor the handling of a
    message of the worker changes the blocks, the settings, the log or
    the cursor: generation makes no undo entry. *)
Theorem generation_keeps_log (toUpperCase : string -> string)
    (qrcode : option (string -> string -> option (string * nat)))
    (JsBarcode : option (string -> string -> Drawing))
    (app : QRBarcodeApp) (m : WorkerMessage) :
  let unchanged (st st' : AppStore) :=
    blocks (state st') = blocks (state st)
    /\ settings (state st') = settings (state st)
    /\ mode (state st') = mode (state st)
    /\ history st' = history st
    /\ historyIndex st' = historyIndex st in
  unchanged (store app)
            (store (fst (generateCodes toUpperCase qrcode JsBarcode app)))
  /\ unchanged (store app)
               (store (handleWorkerMessage toUpperCase qrcode JsBarcode m app)).
Proof.
  intros unchanged. unfold unchanged. split.
  - unfold generateCodes.
    destruct (Nat.leb _ _ && _)%bool; simpl; repeat split.
  - destruct m; simpl; repeat split.
Qed.

(** ** Lists of blocks *)

Lemma removeAt_perm {A} (l : list A) (i : nat) (x : A) :
  nth_error l i = Some x -> Permutation (x :: JS.removeAt i l) l.
Proof.
  revert i. induction l as [|y l IH]; intros i H.
  - destruct i; discriminate.
  - destruct i as [|i]; simpl in *.
    + injection H as ->. reflexivity.
    + rewrite perm_swap. constructor. now apply IH.
Qed.

Lemma insertAt_perm {A} (i : nat) (x : A) (l : list A) :
  Permutation (JS.insertAt i x l) (x :: l).
Proof.
  revert i. induction l as [|y l IH]; intros i.
  - destruct i; reflexivity.
  - destruct i as [|i]; simpl; [reflexivity|].
    rewrite (IH i). apply perm_swap.
Qed.

Lemma insertAt_split {A} (i : nat) (x : A) (l : list A) :
  JS.insertAt i x l = firstn i l ++ x :: skipn i l.
Proof.
  revert i. induction l as [|y l IH]; intros i.
  - destruct i; reflexivity.
  - destruct i as [|i]; simpl; [reflexivity|]. now rewrite IH.
Qed.

Lemma insertAt_nth {A} (i : nat) (x : A) (l : list A) :
  nth_error (JS.insertAt i x l) (Nat.min i (List.length l)) = Some x.
Proof.
  revert i. induction l as [|y l IH]; intros i.
  - destruct i; reflexivity.
  - destruct i as [|i]; simpl; [reflexivity | apply IH].
Qed.

Lemma removeAt_length {A} (l : list A) (i : nat) (x : A) :
  nth_error l i = Some x -> S (List.length (JS.removeAt i l)) = List.length l.
Proof.
  intros H. apply removeAt_perm in H. apply Permutation_length in H. exact H.
Qed.

(** X6.  [reorderBlocks] from a position of the list only moves a
    block: the new list is a permutation of the old one, of the same
    length, and the block that was at [fromIndex] is at [toIndex], or
    last when [toIndex] is past the end. *)
Theorem reorderBlocks_permutation (fromIndex toIndex : nat) (st st' : AppStore)
    (H : Store.reorderBlocks fromIndex toIndex st = Some st') :
  Permutation (blocks (state st')) (blocks (state st))
  /\ List.length (blocks (state st')) = List.length (blocks (state st))
  /\ fromIndex < List.length (blocks (state st))
  /\ nth_error (blocks (state st'))
               (Nat.min toIndex (List.length (blocks (state st)) - 1))
     = nth_error (blocks (state st)) fromIndex
  /\ settings (state st') = settings (state st).
Proof.
  unfold Store.reorderBlocks, JS.at_ in H.
  destruct (nth_error (blocks (state st)) fromIndex) as [removed|] eqn:E;
    [|discriminate].
  injection H as <-. rewrite setState_blocks.
  assert (Hperm : Permutation
                    (JS.insertAt toIndex removed
                       (JS.removeAt fromIndex (blocks (state st))))
                    (blocks (state st))).
  { rewrite insertAt_perm. now apply removeAt_perm. }
  pose proof (removeAt_length _ _ E) as Hlen.
  split; [exact Hperm|].
  split; [now apply Permutation_length|].
  split; [apply nth_error_Some; congruence|].
  split.
  - replace (List.length (blocks (state st)) - 1)
      with (List.length (JS.removeAt fromIndex (blocks (state st)))) by lia.
    apply insertAt_nth.
  - unfold Store.setState. simpl. now rewrite recordHistory_state.
Qed.

Lemma reorderBlocks_permutation_witness :
  Store.reorderBlocks 0 2 threeBlocks
  = Some (Store.setState
            (Store.withBlocks
               [createNewBlock "block-1"; createNewBlock "block-2";
                createNewBlock "block-0"]) true threeBlocks)
  /\ Permutation
       [createNewBlock "block-1"; createNewBlock "block-2";
        createNewBlock "block-0"]
       (blocks (state threeBlocks)).
Proof.
  assert (H : Store.reorderBlocks 0 2 threeBlocks
              = Some (Store.setState
                        (Store.withBlocks
                           [createNewBlock "block-1"; createNewBlock "block-2";
                            createNewBlock "block-0"]) true threeBlocks))
    by reflexivity.
  split; [exact H|].
  apply (reorderBlocks_permutation _ _ _ H).
Defined.

Lemma ids_filter_NoDup (p : Block -> bool) (l : list Block) :
  NoDup (ids l) -> NoDup (ids (filter p l)).
Proof.
  unfold ids. induction l as [|b l IH]; intros H; simpl; [constructor|].
  inversion H as [|x xs Hnotin Hnd]; subst.
  destruct (p b); simpl.
  - constructor; [|now apply IH].
    intros Hin. apply Hnotin. apply in_map_iff in Hin.
    destruct Hin as (c & Hc & Hinc). apply filter_In in Hinc.
    apply in_map_iff. exists c. tauto.
  - now apply IH.
Qed.

Lemma filter_absent (id0 : string) (l : list Block) :
  ~ In id0 (ids l) ->
  filter (fun b => negb (String.eqb (id b) id0)) l = l.
Proof.
  unfold ids. induction l as [|b l IH]; intros H; simpl; [reflexivity|].
  simpl in H. destruct (String.eqb_spec (id b) id0); simpl.
  - tauto.
  - rewrite IH; tauto.
Qed.

Lemma filter_present (id0 : string) (l : list Block) :
  NoDup (ids l) -> In id0 (ids l) ->
  S (List.length (filter (fun b => negb (String.eqb (id b) id0)) l))
  = List.length l.
Proof.
  unfold ids. induction l as [|b l IH]; intros Hnd Hin; [destruct Hin|].
  inversion Hnd as [|x xs Hnotin Hnd']; subst. simpl.
  destruct (String.eqb_spec (id b) id0) as [E|E]; simpl.
  - rewrite filter_absent; [reflexivity|]. unfold ids. now rewrite <- E.
  - f_equal. apply IH; [exact Hnd'|]. simpl in Hin. tauto.
Qed.

Lemma filter_gone (id0 : string) (l : list Block) :
  ~ In id0 (ids (filter (fun b => negb (String.eqb (id b) id0)) l)).
Proof.
  unfold ids. intros H. apply in_map_iff in H. destruct H as (b & Hb & Hin).
  apply filter_In in Hin. destruct Hin as [_ Hneq].
  rewrite <- Hb, String.eqb_refl in Hneq. discriminate.
Qed.

(** X7.  With identifiers that are all different, [removeBlock] on a
    list of two blocks or more removes the block of the given identifier
    and no other: the list is one shorter, holds the identifier no more,
    keeps the other blocks in their order, and is not empty.  An
    identifier no block has leaves the list as it is. *)
Theorem removeBlock_distinct (id0 : string) (st : AppStore)
    (Hnd : NoDup (ids (blocks (state st))))
    (Hlen : 2 <= List.length (blocks (state st))) :
  let after := blocks (state (Store.removeBlock id0 st)) in
  (In id0 (ids (blocks (state st))) ->
     S (List.length after) = List.length (blocks (state st)))
  /\ (~ In id0 (ids (blocks (state st))) -> after = blocks (state st))
  /\ ~ In id0 (ids after)
  /\ subsequence after (blocks (state st))
  /\ NoDup (ids after)
  /\ after <> [].
Proof.
  intros after. unfold after, Store.removeBlock.
  destruct (Nat.leb_spec (List.length (blocks (state st))) 1); [lia|].
  rewrite setState_blocks.
  split; [now apply filter_present|].
  split; [now apply filter_absent|].
  split; [apply filter_gone|].
  split; [apply filter_subsequence|].
  split; [now apply ids_filter_NoDup|].
  intros E.
  destruct (in_dec string_dec id0 (ids (blocks (state st)))) as [Hin|Hout].
  - pose proof (@filter_present id0 _ Hnd Hin) as Hp. rewrite E in Hp. simpl in Hp. lia.
  - rewrite (@filter_absent id0 _ Hout) in E. rewrite E in Hlen. simpl in Hlen. lia.
Qed.

Lemma removeBlock_distinct_witness :
  NoDup (ids (blocks (state threeBlocks)))
  /\ 2 <= List.length (blocks (state threeBlocks))
  /\ ids (blocks (state (Store.removeBlock "block-1" threeBlocks)))
     = ["block-0"; "block-2"]
  /\ blocks (state (Store.removeBlock "block-1" threeBlocks)) <> [].
Proof.
  assert (H1 : NoDup (ids (blocks (state threeBlocks)))).
  { repeat constructor; simpl; intuition discriminate. }
  assert (H2 : 2 <= List.length (blocks (state threeBlocks))) by (simpl; lia).
  split; [exact H1|]. split; [exact H2|]. split; [reflexivity|].
  apply (@removeBlock_distinct "block-1" threeBlocks H1 H2).
Defined.

Lemma find_findIndex {A} (p : A -> bool) (l : list A) :
  match find p l with
  | Some b =>
      exists i, JS.findIndex p l = Some i /\ nth_error l i = Some b
                /\ p b = true
                /\ (forall j c, j < i -> nth_error l j = Some c -> p c = false)
  | None => JS.findIndex p l = None /\ (forall b, In b l -> p b = false)
  end.
Proof.
  induction l as [|x l IH]; simpl.
  - split; [reflexivity | intros b []].
  - destruct (p x) eqn:E.
    + exists 0. repeat split; try assumption. intros j c Hj. exfalso. lia.
    + destruct (find p l) as [b|].
      * destruct IH as (i & Hi & Hn & Hp & Hbefore).
        exists (S i). rewrite Hi. repeat split; try assumption.
        intros [|j] c Hj Hc; simpl in Hc.
        -- now injection Hc as <-.
        -- apply (Hbefore j); [lia | exact Hc].
      * destruct IH as [Hi Hall]. rewrite Hi. split; [reflexivity|].
        intros b [<-|Hin]; [exact E | now apply Hall].
Qed.

(** X8.  [duplicateBlock] with an identifier no block has changes
    nothing, the log included.  Otherwise a copy of the first block of
    that identifier, equal to it in everything but the identifier, which
    is the new one, is put right after it, and the rest of the list is
    as before. *)
Theorem duplicateBlock_inserts (id0 newId : string) (st : AppStore) :
  (~ In id0 (ids (blocks (state st))) -> Store.duplicateBlock id0 newId st = st)
  /\ (In id0 (ids (blocks (state st))) ->
      exists i b copy,
        nth_error (blocks (state st)) i = Some b /\ id b = id0
        /\ (forall j c, j < i -> nth_error (blocks (state st)) j = Some c ->
                        id c <> id0)
        /\ id copy = newId /\ sameBlock copy b
        /\ blocks (state (Store.duplicateBlock id0 newId st))
           = firstn (S i) (blocks (state st)) ++ copy
             :: skipn (S i) (blocks (state st))
        /\ List.length (blocks (state (Store.duplicateBlock id0 newId st)))
           = S (List.length (blocks (state st)))).
Proof.
  pose proof (find_findIndex (fun b => String.eqb (id b) id0) (blocks (state st)))
    as H.
  unfold Store.duplicateBlock.
  destruct (find (fun b => String.eqb (id b) id0) (blocks (state st)))
    as [b|] eqn:Ef.
  - destruct H as (i & Hi & Hn & Hp & Hbefore). rewrite Hi. split.
    + intros Hout. exfalso. apply Hout. unfold ids. apply in_map_iff.
      exists b. apply String.eqb_eq in Hp. split; [exact Hp|].
      eapply nth_error_In. exact Hn.
    + intros _. exists i, b. eexists.
      split; [exact Hn|]. split; [now apply String.eqb_eq|].
      split.
      { intros j c Hj Hc. apply String.eqb_neq. now apply (Hbefore j). }
      rewrite setState_blocks, insertAt_split, Nat.add_1_r.
      split; [|split; [|split; [reflexivity|]]].
      * reflexivity.
      * rewrite deepCloneBlock_id. repeat split.
      * assert (Hlt : i < List.length (blocks (state st)))
          by (apply nth_error_Some; congruence).
        rewrite length_app. cbn [List.length].
        rewrite length_firstn, length_skipn. lia.
  - destruct H as [Hi Hall]. split; [reflexivity|].
    intros Hin. exfalso. unfold ids in Hin. apply in_map_iff in Hin.
    destruct Hin as (b & Hb & Hinb).
    specialize (Hall b Hinb). simpl in Hall.
    rewrite Hb, String.eqb_refl in Hall. discriminate.
Qed.

(** ** Proper lists of blocks are kept *)

Lemma removeBlock_kept (id0 : string) (st : AppStore) :
  NoDup (ids (blocks (state st))) ->
  2 <= List.length (blocks (state st)) ->
  properBlocks (filter (fun b => negb (String.eqb (id b) id0))
                       (blocks (state st))).
Proof.
  intros Hnd Hlen. split; [|now apply ids_filter_NoDup].
  intros E.
  destruct (in_dec string_dec id0 (ids (blocks (state st)))) as [Hin|Hout].
  - pose proof (@filter_present id0 _ Hnd Hin) as Hp.
    rewrite E in Hp. simpl in Hp. lia.
  - rewrite (@filter_absent id0 _ Hout) in E. rewrite E in Hlen.
    simpl in Hlen. lia.
Qed.

Lemma reorderBlocks_moves (fromIndex toIndex : nat) (st st' : AppStore) :
  Store.reorderBlocks fromIndex toIndex st = Some st' ->
  Permutation (blocks (state st)) (blocks (state st')).
Proof.
  unfold Store.reorderBlocks, JS.at_.
  destruct (nth_error (blocks (state st)) fromIndex) as [removed|] eqn:E;
    [|discriminate].
  intros [= <-]. rewrite setState_blocks.
  symmetry. rewrite insertAt_perm. now apply removeAt_perm.
Qed.


Lemma Forall_firstn_kept {A} (P : A -> Prop) (n : nat) (l : list A) :
  Forall P l -> Forall P (firstn n l).
Proof.
  intros H. rewrite <- (firstn_skipn n l) in H.
  apply Forall_app in H. apply H.
Qed.

Lemma recordHistory_proper (st : AppStore) :
  properStore st ->
  Forall (fun entry => properBlocks (snap_blocks entry))
         (history (Store.recordHistory st)).
Proof.
  intros [Hlive Hhist]. unfold Store.recordHistory.
  assert (Hkept : Forall (fun entry => properBlocks (snap_blocks entry))
                    (JS.slice0 (historyIndex st + 1) (history st)
                     ++ [deepCloneSnapshot (blocks (state st))
                                           (settings (state st))])).
  { apply Forall_app. split.
    - unfold JS.slice0.
      destruct (historyIndex st + 1 <? 0)%Z; now apply Forall_firstn_kept.
    - constructor; [|constructor]. rewrite deepCloneSnapshot_id. exact Hlive. }
  destruct (Nat.ltb _ _); simpl; [|exact Hkept].
  destruct (JS.slice0 (historyIndex st + 1) (history st)
            ++ [deepCloneSnapshot (blocks (state st)) (settings (state st))]);
    simpl; [constructor | now inversion Hkept].
Qed.

Lemma setState_proper (u : StateUpdate) (record : bool) (st : AppStore) :
  properStore st ->
  properBlocks (spread (blocks (state st)) (new_blocks u)) ->
  properStore (Store.setState u record st).
Proof.
  intros Hst Hnew. unfold properStore, Store.setState. simpl.
  destruct record.
  - rewrite recordHistory_state. split; [exact Hnew|].
    now apply recordHistory_proper.
  - split; [exact Hnew | apply Hst].
Qed.

Lemma restore_proper (i : Z) (st st' : AppStore) :
  properStore st -> Store.restore i st = Some st' -> properStore st'.
Proof.
  intros [Hlive Hhist]. unfold Store.restore, JS.atZ.
  destruct (i <? 0)%Z; [discriminate|].
  destruct (nth_error (history st) (Z.to_nat i)) as [entry|] eqn:E;
    [|discriminate].
  intros [= <-]. split; simpl; [|exact Hhist].
  rewrite deepCloneBlocks_id. rewrite Forall_forall in Hhist.
  apply Hhist. eapply nth_error_In. exact E.
Qed.

Lemma properBlocks_single (b : Block) : properBlocks [b].
Proof.
  split; [discriminate|]. repeat constructor. intros [].
Qed.

Lemma properBlocks_perm (l l' : list Block) :
  Permutation l l' -> properBlocks l -> properBlocks l'.
Proof.
  intros Hp [Hne Hnd]. split.
  - intros ->. apply Permutation_sym, Permutation_nil in Hp. congruence.
  - unfold ids in *. eapply Permutation_NoDup; [|exact Hnd].
    now apply Permutation_map.
Qed.

Lemma properBlocks_cons (b : Block) (l : list Block) :
  ~ In (id b) (ids l) -> NoDup (ids l) -> properBlocks (b :: l).
Proof.
  intros Hout Hnd. split; [discriminate|]. unfold ids in *. simpl.
  now constructor.
Qed.

Lemma freshStep_proper (st st' : AppStore) :
  freshStep st st' -> properStore st -> properStore st'.
Proof.
  intros Hstep Hst. pose proof Hst as [[Hne Hnd] Hhist].
  destruct Hstep;
    try (apply setState_proper; [exact Hst | simpl; now split]).
  - (* addBlock *)
    apply setState_proper; [exact Hst|]. simpl.
    apply (@properBlocks_perm (createNewBlock uuid :: blocks (state st))).
    + apply Permutation_cons_append.
    + now apply properBlocks_cons.
  - (* removeBlock *)
    unfold Store.removeBlock.
    destruct (Nat.leb_spec (List.length (blocks (state st))) 1); [exact Hst|].
    apply setState_proper; [exact Hst|]. simpl.
    apply (@removeBlock_kept id0 st Hnd). lia.
  - (* updateBlock *)
    apply setState_proper; [exact Hst|]. simpl. split.
    + destruct (blocks (state st)); [congruence | discriminate].
    + unfold ids. rewrite map_map.
      erewrite map_ext; [exact Hnd|].
      intros b. simpl. destruct (String.eqb (id b) id0); [|reflexivity].
      unfold spreadBlock. simpl. now rewrite H.
  - (* duplicateBlock *)
    unfold Store.duplicateBlock.
    destruct (find _ _) as [b|]; [|exact Hst].
    destruct (JS.findIndex _ _) as [i|]; [|exact Hst].
    apply setState_proper; [exact Hst|]. simpl.
    eapply properBlocks_perm; [symmetry; apply insertAt_perm|].
    now apply properBlocks_cons.
  - (* reorderBlocks *)
    pose proof (reorderBlocks_moves _ _ _ H) as Hperm.
    unfold Store.reorderBlocks in H.
    destruct (JS.at_ _ _); [|discriminate].
    injection H as <-.
    apply setState_proper; [exact Hst|]. simpl.
    eapply properBlocks_perm; [exact Hperm | now split].
  - (* reset *)
    split; simpl; [apply properBlocks_single | constructor].
  - (* undo *)
    unfold Store.undo in H. destruct (negb (Store.canUndo st)).
    + now injection H as <-.
    + eapply restore_proper; eassumption.
  - (* redo *)
    unfold Store.redo in H. destruct (negb (Store.canRedo st)).
    + now injection H as <-.
    + eapply restore_proper; eassumption.
  - (* fromJSON *)
    apply setState_proper; [exact Hst|]. simpl.
    destruct (Store.data_blocks data); [exact H | apply properBlocks_single].
  - (* import *)
    apply setState_proper; [exact Hst|]. simpl. exact H.
Qed.

(** X9.  When the identifiers drawn are fresh, no update sets [id] and
    the files loaded hold at least one block and no identifier twice,
    every store reached from [new AppStore()] holds at least one block
    and no identifier twice, and so does every entry of its log. *)
Theorem fresh_stores_proper (st : AppStore) (Hr : freshlyReachable st) :
  blocks (state st) <> []
  /\ NoDup (ids (blocks (state st)))
  /\ Forall (fun entry => snap_blocks entry <> []
                          /\ NoDup (ids (snap_blocks entry))) (history st).
Proof.
  assert (H : properStore st).
  { induction Hr as [uuid | st st' _ IH Hstep].
    - split; simpl; [apply properBlocks_single | constructor].
    - eapply freshStep_proper; eassumption. }
  destruct H as [[Hne Hnd] Hhist]. repeat split; assumption.
Qed.

Lemma fresh_stores_proper_witness :
  freshlyReachable threeBlocks
  /\ blocks (state threeBlocks) <> []
  /\ NoDup (ids (blocks (state threeBlocks))).
Proof.
  assert (H : freshlyReachable threeBlocks).
  { unfold threeBlocks.
    eapply fresh_step; [eapply fresh_step; [apply fresh_new|]|];
      apply fresh_addBlock; simpl; intuition discriminate. }
  split; [exact H|].
  destruct (fresh_stores_proper H) as (H1 & H2 & _). split; assumption.
Defined.

(* ================================================================== *)
(** * Further properties of the CSV layer *)
(* ================================================================== *)

Lemma loop_result_nonempty (n : nat) :
  forall (text : string) (st : CsvState),
    String.length text <= n ->
    Forall (fun r => r <> []) (result st) ->
    Forall (fun r => r <> []) (result (parseCSV_loop text st)).
Proof.
  induction n as [|n IH]; intros text st Hn Hst.
  - destruct text; [exact Hst | simpl in Hn; lia].
  - destruct text as [|char rest]; [exact Hst|].
    assert (Hpush : Forall (fun r : list string => r <> [])
                      (result st ++ [row st ++ [current st]])).
    { apply Forall_app. split; [exact Hst|].
      constructor; [|constructor]. destruct (row st); discriminate. }
    assert (Hrest : String.length rest <= n) by (simpl in Hn; lia).
    assert (Hskip : forall st', Forall (fun r => r <> []) (result st') ->
              Forall (fun r => r <> [])
                (result match rest with
                        | String _ rest' => parseCSV_loop rest' st'
                        | EmptyString => st'
                        end)).
    { intros st' Hst'. destruct rest as [|d rest']; [exact Hst'|].
      apply IH; [simpl in Hrest; lia | exact Hst']. }
    cbn [parseCSV_loop].
    destruct (inQuote st).
    + destruct (Ascii.eqb char JS.DQUOTE).
      * destruct (match rest with
                  | String n0 _ => Ascii.eqb n0 JS.DQUOTE
                  | EmptyString => false
                  end).
        -- apply Hskip. exact Hst.
        -- apply IH; assumption.
      * apply IH; assumption.
    + destruct (Ascii.eqb char JS.DQUOTE); [apply IH; assumption|].
      destruct (Ascii.eqb char JS.COMMA); [apply IH; assumption|].
      destruct (Ascii.eqb char JS.LF || Ascii.eqb char JS.CR)%bool;
        [|apply IH; assumption].
      destruct (Ascii.eqb char JS.CR &&
                match rest with
                | String n0 _ => Ascii.eqb n0 JS.LF
                | EmptyString => false
                end)%bool.
      * apply Hskip. exact Hpush.
      * apply IH; assumption.
Qed.

(** X10.  Whatever the text, [parseCSV] returns no empty row: every row
    has one cell at least, so the import can read [row[0]] and the width
    of the first row from it. *)
Theorem parseCSV_rows_nonempty (text : string) :
  Forall (fun r => r <> []) (parseCSV text).
Proof.
  unfold parseCSV.
  set (st := parseCSV_loop text (mkCsv [] [] EmptyString false)).
  assert (H : Forall (fun r : list string => r <> []) (result st)).
  { apply (loop_result_nonempty (n := String.length text)); [lia | constructor]. }
  destruct (JS.truthy (current st) || Nat.ltb 0 (List.length (row st)))%bool;
    [|exact H].
  apply Forall_app. split; [exact H|].
  constructor; [|constructor]. destruct (row st); discriminate.
Qed.

Lemma loop_crlf (rest : string) res r cur :
  parseCSV_loop (CRLF ++ rest) (mkCsv res r cur false)
  = parseCSV_loop rest (mkCsv (res ++ [r ++ [cur]]) [] EmptyString false).
Proof. reflexivity. Qed.

Lemma loop_lf_eol (rest : string) res r cur :
  parseCSV_loop (JS.str JS.LF ++ rest) (mkCsv res r cur false)
  = parseCSV_loop rest (mkCsv (res ++ [r ++ [cur]]) [] EmptyString false).
Proof. reflexivity. Qed.

(** The rows written with an end of line the loop reads as one row
    break, followed by any text that does not start with a quote. *)
Lemma loop_rows_eol (eol : string)
    (Heol : forall rest res r cur,
        parseCSV_loop (eol ++ rest) (mkCsv res r cur false)
        = parseCSV_loop rest (mkCsv (res ++ [r ++ [cur]]) [] EmptyString false))
    (Hquote : forall rest, noQuoteAhead (eol ++ rest)) :
  forall (rs : list (list string)) (fs : list string) (f rest : string) res,
    Forall (fun r => r <> []) rs ->
    Forall (Forall noCR) (rs ++ [fs ++ [f]]) ->
    noQuoteAhead rest ->
    parseCSV_loop (joinRows eol (rs ++ [fs ++ [f]]) ++ rest)
                  (mkCsv res [] EmptyString false)
    = parseCSV_loop rest (mkCsv (res ++ rs) fs f false).
Proof.
  induction rs as [|r rs IH]; intros fs f rest res Hne Hcr Hrest.
  - cbn [app]. unfold joinRows. cbn [map JS.join String.concat].
    inversion Hcr; subst. unfold rowText.
    rewrite loop_row by assumption. now rewrite app_nil_r.
  - inversion Hne; subst. inversion Hcr; subst.
    destruct (exists_last H1) as (gs & g & ->).
    cbn [app]. unfold joinRows. cbn [map].
    rewrite join_cons by (destruct rs; discriminate).
    rewrite !append_assoc. unfold rowText at 1.
    rewrite loop_row; [|assumption|apply Hquote].
    rewrite Heol. cbn [app].
    change (JS.join eol (map rowText (rs ++ [fs ++ [f]])))
      with (joinRows eol (rs ++ [fs ++ [f]])).
    rewrite IH by assumption. now rewrite <- app_assoc.
Qed.

Lemma eol_lf_quote (rest : string) : noQuoteAhead (JS.str JS.LF ++ rest).
Proof. simpl. discriminate. Qed.

Lemma eol_crlf_quote (rest : string) : noQuoteAhead (CRLF ++ rest).
Proof. simpl. discriminate. Qed.

Lemma toCSV_joinRows (data : list (list string)) :
  toCSV data = joinRows (JS.str JS.LF) data.
Proof. reflexivity. Qed.

(** X11.  A line feed after the last row ends the table and adds no
    row: a table of at least one row, whose rows have one field at least
    and whose fields hold no carriage return, is read back from the text
    of [toCSV] followed by a line feed, a last row that is a single
    empty field included. *)
Theorem parseCSV_final_newline (rows : list (list string))
    (Hrows : rows <> [])
    (Hfields : Forall (fun r => r <> []) rows)
    (Hcr : Forall (Forall noCR) rows) :
  parseCSV (toCSV rows ++ JS.str JS.LF) = rows.
Proof.
  destruct (exists_last Hrows) as (rs & r & ->).
  apply Forall_app in Hfields. destruct Hfields as [Hrs Hr].
  assert (Hne : r <> []) by now inversion Hr.
  destruct (exists_last Hne) as (fs & f & ->).
  unfold parseCSV. rewrite toCSV_joinRows.
  rewrite (@loop_rows_eol (JS.str JS.LF) loop_lf_eol eol_lf_quote) by
    (try assumption; simpl; discriminate).
  change (JS.str JS.LF) with (JS.str JS.LF ++ "")%string.
  rewrite loop_lf_eol. reflexivity.
Qed.

Lemma parseCSV_final_newline_witness :
  [["a"; "b"]; [EmptyString]] <> []
  /\ Forall (fun r : list string => r <> []) [["a"; "b"]; [EmptyString]]
  /\ Forall (Forall noCR) [["a"; "b"]; [EmptyString]]
  /\ parseCSV (toCSV [["a"; "b"]; [EmptyString]] ++ JS.str JS.LF)
     = [["a"; "b"]; [EmptyString]].
Proof.
  assert (H1 : [["a"; "b"]; [EmptyString]] <> []) by discriminate.
  assert (H2 : Forall (fun r : list string => r <> [])
                 [["a"; "b"]; [EmptyString]])
    by (repeat constructor; discriminate).
  assert (H3 : Forall (Forall noCR) [["a"; "b"]; [EmptyString]])
    by (repeat constructor).
  split; [exact H1|]. split; [exact H2|]. split; [exact H3|].
  exact (parseCSV_final_newline H1 H2 H3).
Defined.

(** X12.  Rows ended by a carriage return and a line feed are read as
    rows ended by a line feed: a table as in the round trip of [toCSV],
    written with CR LF between its rows, is read back as it is. *)
Theorem parseCSV_crlf (rows : list (list string))
    (Hrows : rows <> [])
    (Hfields : Forall (fun r => r <> []) rows)
    (Hcr : Forall (Forall noCR) rows)
    (Hlast : last rows [] <> [EmptyString]) :
  parseCSV (joinRows CRLF rows) = rows.
Proof.
  destruct (exists_last Hrows) as (rs & r & ->).
  rewrite last_last in Hlast.
  apply Forall_app in Hfields. destruct Hfields as [Hrs Hr].
  assert (Hne : r <> []) by now inversion Hr.
  destruct (exists_last Hne) as (fs & f & ->).
  unfold parseCSV.
  rewrite <- (append_nil_r (joinRows CRLF (rs ++ [fs ++ [f]]))).
  rewrite (@loop_rows_eol CRLF loop_crlf eol_crlf_quote) by
    (try assumption; exact I).
  cbn [parseCSV_loop current row result].
  destruct f as [|c f]; simpl.
  - destruct fs as [|g fs]; [simpl in Hlast; congruence | reflexivity].
  - reflexivity.
Qed.

Lemma parseCSV_crlf_witness :
  sampleTable <> []
  /\ Forall (fun r => r <> []) sampleTable
  /\ Forall (Forall noCR) sampleTable
  /\ last sampleTable [] <> [EmptyString]
  /\ parseCSV (joinRows CRLF sampleTable) = sampleTable.
Proof.
  assert (H1 : sampleTable <> []) by discriminate.
  assert (H2 : Forall (fun r : list string => r <> []) sampleTable)
    by (repeat constructor; discriminate).
  assert (H3 : Forall (Forall noCR) sampleTable) by (repeat constructor).
  assert (H4 : last sampleTable [] <> [EmptyString]) by (simpl; discriminate).
  split; [exact H1|]. split; [exact H2|]. split; [exact H3|].
  split; [exact H4|].
  exact (parseCSV_crlf H1 H2 H3 H4).
Defined.

Lemma firstCells_contentRows (contents : list (list string)) (m a : nat) :
  firstCells (map (contentRow contents) (seq (S a) m)) = repeat EmptyString m.
Proof.
  unfold firstCells. revert a. induction m as [|m IH]; intros a; simpl.
  - reflexivity.
  - now rewrite IH.
Qed.

(** X13.  The table [exportData] writes is rectangular: five rows of
    keys and one row for each line of the longest content, every row
    with one cell more than there are blocks; the first cells are the
    five keys, then Content on the first content row and the empty
    string on the others. *)
Theorem exportRows_shape (blocks : list Block) :
  let maxLines := maxLength (blockContents blocks) in
  List.length (exportRows blocks) = 5 + maxLines
  /\ Forall (fun r => List.length r = S (List.length blocks)) (exportRows blocks)
  /\ firstCells (exportRows blocks) = knownKeys ++ contentKeys maxLines
  /\ (forall j b, nth_error blocks j = Some b -> content b <> EmptyString ->
        List.length (JS.splitLines (content b)) <= maxLines).
Proof.
  intros maxLines. split; [|split; [|split]].
  - rewrite exportRows_rows, length_app, length_map, length_seq. reflexivity.
  - apply exportRows_width.
  - rewrite exportRows_rows. unfold firstCells. rewrite map_app.
    fold maxLines. destruct maxLines as [|m]; [reflexivity|].
    cbn [seq map contentKeys]. f_equal. f_equal.
    apply (firstCells_contentRows (blockContents blocks) m 0).
  - intros j b Hj Hne. apply (@maxLength_ge _ j).
    unfold blockContents. erewrite map_nth_error by exact Hj.
    destruct (content b); [congruence | reflexivity].
Qed.

(** The columnar branch on the rows of an export. *)
Lemma importColumnar_exportRows (uuid : nat -> string) (blocks : list Block) :
  blocks <> [] -> Forall exportable blocks ->
  exists newBlocks,
    importColumnar uuid (exportRows blocks) = NewBlocks newBlocks
    /\ Forall2 sameBlock newBlocks blocks.
Proof.
  intros Hne Hall.
  exists (map (fun col => importBlock (exportRows blocks) (uuid col) col)
              (seq 1 (List.length blocks))).
  split.
  - unfold importColumnar. rewrite exportRows_rows at 1.
    cbn [app List.length]. rewrite length_map.
    destruct blocks as [|b0 blocks0]; [congruence|].
    replace (S (List.length (b0 :: blocks0)) - 1) with (S (List.length blocks0))
      by (simpl; lia).
    reflexivity.
  - apply Forall2_columns. intros j b Hj. simpl.
    now apply importBlock_exportRows.
Qed.

Lemma rowIncludes_In (key : string) (row : list string) :
  rowIncludes key row = true <-> In key row.
Proof.
  unfold rowIncludes. rewrite existsb_exists. split.
  - intros (x & Hin & E). apply String.eqb_eq in E. now subst.
  - intros Hin. exists key. split; [exact Hin | apply String.eqb_refl].
Qed.

(** X14.  The CSV import as a whole gives back the blocks of an export
    (of a list the columnar format keeps) unless one subtitle is the
    word CodeType and one is the word Content, which is what makes the
    detector take the export for the row-oriented format. *)
Theorem importCSV_exportCSV (uuid : nat -> string) (blocks : list Block)
    (Hne : blocks <> [])
    (Hall : Forall exportable blocks)
    (Hsub : ~ (In "CodeType" (map subtitle blocks)
               /\ In "Content" (map subtitle blocks))) :
  isNewFormat (exportRows blocks) = true
  /\ exists newBlocks,
       importCSV uuid (exportCSV blocks) = NewBlocks newBlocks
       /\ Forall2 sameBlock newBlocks blocks.
Proof.
  assert (Hold : isOldFormat (exportRows blocks) = false).
  { rewrite exportRows_rows. cbn [app isOldFormat].
    destruct (rowIncludes "CodeType" _) eqn:E1; [|reflexivity].
    destruct (rowIncludes "Content" _) eqn:E2; [|reflexivity].
    exfalso. apply Hsub.
    apply rowIncludes_In in E1, E2.
    assert (Hmap : map (fun b => JS.or (subtitle b) "") blocks
                   = map subtitle blocks)
      by (apply map_ext; intros b; apply or_empty).
    rewrite Hmap in E1, E2.
    destruct E1 as [E1|E1]; [discriminate|].
    destruct E2 as [E2|E2]; [discriminate|]. now split. }
  assert (Hnew : isNewFormat (exportRows blocks) = true).
  { unfold isNewFormat. rewrite Hold. rewrite exportRows_rows. reflexivity. }
  split; [exact Hnew|].
  destruct (importColumnar_exportRows uuid Hne Hall) as (newBlocks & Himp & Hsame).
  exists newBlocks. split; [|exact Hsame].
  unfold importCSV. rewrite parseCSV_exportCSV by assumption.
  rewrite Hnew, Himp.
  rewrite exportRows_rows. reflexivity.
Qed.

Lemma importCSV_exportCSV_witness :
  [eanBlock] <> [] /\ Forall exportable [eanBlock]
  /\ ~ (In "CodeType" (map subtitle [eanBlock])
        /\ In "Content" (map subtitle [eanBlock]))
  /\ exists newBlocks,
       importCSV (fun _ => "u") (exportCSV [eanBlock]) = NewBlocks newBlocks
       /\ Forall2 sameBlock newBlocks [eanBlock].
Proof.
  assert (H1 : [eanBlock] <> []) by discriminate.
  assert (H2 : Forall exportable [eanBlock]).
  { repeat constructor; try reflexivity; simpl; discriminate. }
  assert (H3 : ~ (In "CodeType" (map subtitle [eanBlock])
                  /\ In "Content" (map subtitle [eanBlock]))).
  { simpl. intros [[E|[]] _]. discriminate E. }
  split; [exact H1|]. split; [exact H2|]. split; [exact H3|].
  apply (importCSV_exportCSV (fun _ => "u") H1 H2 H3).
Defined.

Lemma cellOr_nonempty (row : list string) (col : nat) (fallback : string) :
  fallback <> EmptyString -> cellOr row col fallback <> EmptyString.
Proof.
  intros H. unfold cellOr. destruct (JS.at_ row col) as [c|]; [|exact H].
  destruct c; [exact H | discriminate].
Qed.

Lemma cellIfTruthy_nonempty (row : list string) (k : nat) (old : string) :
  old <> EmptyString -> spread old (cellIfTruthy row k) <> EmptyString.
Proof.
  intros H. unfold cellIfTruthy. destruct (JS.at_ row k) as [c|]; [|exact H].
  destruct c; [exact H | discriminate].
Qed.

Lemma importBlock_shape (csvData : list (list string)) (uuid : string)
    (col : nat) (r : list string) :
  findRow csvData "CodeType" = Some r ->
  importedShape (importBlock csvData uuid col).
Proof.
  intros Hr. unfold importBlock. rewrite Hr.
  destruct (findRow csvData "Subtitle");
    destruct (findRow csvData "QRErrorCorrection");
    destruct (findRow csvData "BarcodeFormat");
    destruct (findRow csvData "SizeOverride");
    destruct (JS.findIndex (firstCellIs "Content") csvData);
    unfold importedShape; simpl;
    (split; [destruct (String.eqb (cell r col) "barcode"); auto|]);
    repeat split;
    try (apply cellOr_nonempty); discriminate.
Qed.

Lemma importLegacyFrom_shape (uuid : nat -> string) (rows : list (list string)) :
  forall i, Forall importedShape (importLegacyFrom uuid i rows).
Proof.
  induction rows as [|row rows IH]; intros i; simpl; [constructor|].
  destruct (Nat.ltb (List.length row) 3); [apply IH|].
  constructor; [|apply IH].
  unfold importedShape, importLegacyBlock. simpl.
  split; [destruct (String.eqb (cell row 1) "barcode"); auto|].
  repeat split; apply cellIfTruthy_nonempty; discriminate.
Qed.

Lemma cellOr_default (row : list string) (col : nat) (fallback : string) :
  cellOr row col fallback = cellOrDefault (JS.at_ row col) fallback.
Proof.
  unfold cellOr, cellOrDefault.
  destruct (JS.at_ row col) as [[|c v]|]; reflexivity.
Qed.

Lemma cell_default (row : list string) (col : nat) :
  cell row col = cellOrDefault (JS.at_ row col) EmptyString.
Proof.
  unfold cell, cellOrDefault.
  destruct (JS.at_ row col) as [[|c v]|]; reflexivity.
Qed.

Lemma cellIfTruthy_default (row : list string) (k : nat) (old : string) :
  spread old (cellIfTruthy row k) = cellOrDefault (JS.at_ row k) old.
Proof.
  unfold cellIfTruthy, cellOrDefault.
  destruct (JS.at_ row k) as [[|c v]|]; reflexivity.
Qed.

(** The block of a column holds, key by key, the cell of the row of the
    key or the default. *)
Lemma importBlock_column (csvData : list (list string)) (uuid : string)
    (col : nat) :
  id (importBlock csvData uuid col) = uuid
  /\ columnBlock csvData col (importBlock csvData uuid col).
Proof.
  unfold importBlock, columnBlock, keyCell, codeTypeOf.
  destruct (findRow csvData "Subtitle") as [r1|];
    destruct (findRow csvData "CodeType") as [r2|];
    destruct (findRow csvData "QRErrorCorrection") as [r3|];
    destruct (findRow csvData "BarcodeFormat") as [r4|];
    destruct (findRow csvData "SizeOverride") as [r5|];
    destruct (JS.findIndex (firstCellIs "Content") csvData);
    cbn [spreadBlock spread id subtitle codeType qrErrorCorrection
         barcodeFormat sizeOverride content createNewBlock DEFAULTS.block
         upd_id upd_subtitle upd_codeType upd_qrErrorCorrection
         upd_barcodeFormat upd_sizeOverride upd_content cellOrDefault];
    rewrite ?cellOr_default, ?cell_default;
    repeat split; reflexivity.
Qed.

Lemma importLegacyFrom_rows (uuid : nat -> string) (rows : list (list string)) :
  forall i,
    Forall2 rowBlock
            (filter (fun row => Nat.leb 3 (List.length row)) rows)
            (importLegacyFrom uuid i rows).
Proof.
  induction rows as [|row rows IH]; intros i; cbn [filter importLegacyFrom];
    [constructor|].
  rewrite Nat.ltb_antisym.
  destruct (Nat.leb 3 (List.length row)); cbn [negb]; [|apply IH].
  constructor; [|apply IH].
  unfold rowBlock, importLegacyBlock, codeTypeOf.
  cbn [spreadBlock spread id subtitle codeType qrErrorCorrection
       barcodeFormat sizeOverride content createNewBlock DEFAULTS.block
       upd_id upd_subtitle upd_codeType upd_qrErrorCorrection
       upd_barcodeFormat upd_sizeOverride upd_content].
  rewrite !cellOr_default, cell_default.
  repeat split; apply cellIfTruthy_default.
Qed.

(** X15.  Whatever the text of the file, the blocks the CSV import hands
    to the store are one at least, have the code type qr or barcode, and
    have no empty error correction level, barcode format or size
    override: a missing or empty cell is replaced by the default.  In
    the columnar format there is one block for each column after the
    first, and its subtitle, error correction level, barcode format and
    size override are the cells of the column in the rows of those keys,
    or the empty string, M, CODE128 and auto where the row is missing,
    ends before the column, or holds an empty cell.  In the row-oriented
    format there is one block for each row of three cells or more, the
    first row left out when it starts with Subtitle, read from the cells
    of the row in the same way. *)
Theorem importCSV_blocks (uuid : nat -> string) (text : string)
    (newBlocks : list Block)
    (H : importCSV uuid text = NewBlocks newBlocks) :
  let csvData := parseCSV text in
  newBlocks <> []
  /\ Forall importedShape newBlocks
  /\ (isNewFormat csvData = true ->
      List.length newBlocks = List.length (hd [] csvData) - 1
      /\ forall (k : nat) (b : Block),
           nth_error newBlocks k = Some b ->
           id b = uuid (S k) /\ columnBlock csvData (S k) b)
  /\ (isNewFormat csvData = false ->
      Forall2 rowBlock (legacyRows csvData) newBlocks).
Proof.
  intros csvData. unfold csvData. unfold importCSV in H.
  destruct (parseCSV text) as [|headerRow rows] eqn:Ecsv; [discriminate|].
  destruct (isNewFormat (headerRow :: rows)) eqn:Enew.
  - unfold isNewFormat in Enew. apply andb_true_iff in Enew.
    destruct Enew as [_ Hrow].
    assert (Hfind : exists r, findRow (headerRow :: rows) "CodeType" = Some r).
    { unfold findRow. apply existsb_exists in Hrow.
      destruct Hrow as (r & Hin & Hr).
      destruct (find (firstCellIs "CodeType") (headerRow :: rows)) eqn:Ef;
        [eauto|].
      pose proof (find_none _ _ Ef _ Hin) as Hn. congruence. }
    destruct Hfind as [r Hr].
    unfold importColumnar in H.
    destruct (Nat.ltb (List.length headerRow - 1) 1); [discriminate|].
    destruct (map _ (seq 1 (List.length headerRow - 1))) as [|b l] eqn:Emap;
      [discriminate|].
    injection H as <-. split; [discriminate|].
    rewrite <- Emap.
    split.
    { apply Forall_map. apply Forall_forall. intros col _.
      eapply importBlock_shape. exact Hr. }
    split; [|discriminate].
    intros _. split; [now rewrite length_map, length_seq|].
    intros k b0 Hk. rewrite nth_error_map in Hk.
    destruct (nth_error (seq 1 (List.length headerRow - 1)) k) as [col|] eqn:Ek;
      [|discriminate].
    injection Hk as <-.
    assert (Hlt : k < List.length (seq 1 (List.length headerRow - 1)))
      by (apply nth_error_Some; congruence).
    rewrite length_seq in Hlt.
    assert (Ecol : col = S k).
    { apply (nth_error_nth _ _ 0) in Ek. rewrite seq_nth in Ek by exact Hlt.
      lia. }
    subst col. apply importBlock_column.
  - destruct (importLegacy uuid (headerRow :: rows)) as [|b l] eqn:El;
      [discriminate|].
    injection H as <-. split; [discriminate|].
    rewrite <- El. unfold importLegacy.
    split; [apply importLegacyFrom_shape|].
    split; [discriminate|].
    intros _. unfold legacyRows.
    destruct (firstCellIs "Subtitle" headerRow); cbn [skipn];
      apply importLegacyFrom_rows.
Qed.

(** A columnar file whose cell for the error correction level is empty
    and which has no row for the barcode format and the size override:
    the block gets M, CODE128 and auto. *)
Lemma importCSV_blocks_witness :
  importCSV (fun _ => "u") sparseFile
  = NewBlocks [mkBlock "u" "s" "barcode" "M" "CODE128" "auto" "abc"]
  /\ isNewFormat (parseCSV sparseFile) = true
  /\ keyCell (parseCSV sparseFile) "QRErrorCorrection" 1 = Some EmptyString
  /\ keyCell (parseCSV sparseFile) "BarcodeFormat" 1 = None
  /\ columnBlock (parseCSV sparseFile) 1
                 (mkBlock "u" "s" "barcode" "M" "CODE128" "auto" "abc").
Proof.
  assert (H : importCSV (fun _ => "u") sparseFile
              = NewBlocks [mkBlock "u" "s" "barcode" "M" "CODE128" "auto" "abc"])
    by (vm_compute; reflexivity).
  assert (Hnew : isNewFormat (parseCSV sparseFile) = true)
    by (vm_compute; reflexivity).
  split; [exact H|]. split; [exact Hnew|].
  split; [vm_compute; reflexivity|]. split; [vm_compute; reflexivity|].
  destruct (importCSV_blocks _ _ H) as (_ & _ & Hcolumns & _).
  destruct (Hcolumns Hnew) as [_ Hcolumn].
  exact (proj2 (Hcolumn 0 _ eq_refl)).
Defined.

(* ================================================================== *)
(** * Further properties of the generators and of the worker *)
(* ================================================================== *)

Lemma getFormatConfig_known (format : string) :
  In (getFormatConfig format) ["CODE128"; "EAN13"; "CODE39"; "ITF"].
Proof.
  unfold getFormatConfig.
  destruct (String.eqb format "CODE128"); [simpl; auto|].
  destruct (String.eqb format "EAN13"); [simpl; auto|].
  destruct (String.eqb format "JAN"); [simpl; auto|].
  destruct (String.eqb format "CODE39"); [simpl; auto|].
  destruct (String.eqb format "ITF"); simpl; auto.
Qed.

(** The validator always gives a message with a refusal, and accepts
    for the five formats of the type definitions only. *)
Lemma validateBarcodeFormat_refusal (toUpperCase : string -> string)
    (text format : string) :
  (valid (validateBarcodeFormat toUpperCase text format) = false ->
   exists e, validateBarcodeFormat toUpperCase text format = Invalid e)
  /\ (valid (validateBarcodeFormat toUpperCase text format) = true ->
      isBarcodeFormat format = true).
Proof.
  unfold validateBarcodeFormat, validateEAN, isBarcodeFormat.
  cbn [existsb].
  destruct (String.eqb format "CODE128").
  { split; [|reflexivity].
    destruct (negb (isAscii text)); [eauto | discriminate]. }
  destruct (String.eqb format "EAN13").
  { split; [|reflexivity]. cbn [orb].
    destruct (negb (isNumeric text)); [eauto|].
    destruct (_ && _)%bool; [eauto | discriminate]. }
  destruct (String.eqb format "JAN").
  { split; [|reflexivity]. cbn [orb].
    destruct (negb (isNumeric text)); [eauto|].
    destruct (_ && _)%bool; [eauto | discriminate]. }
  cbn [orb].
  destruct (String.eqb format "CODE39").
  { split; [|reflexivity].
    destruct (negb (isCode39Compatible (toUpperCase text)));
      [eauto | discriminate]. }
  destruct (String.eqb format "ITF").
  { split; [|reflexivity].
    destruct (negb (isNumeric text)); [eauto|].
    destruct (negb _); [eauto | discriminate]. }
  split; [eauto | discriminate].
Qed.

(** X16.  In the result of [BarcodeGenerator.generate] the picture is
    present exactly when [validation.valid] is true, and then the library
    is loaded, the validator accepts the text and the drawing did not
    throw.  Without a picture [validation.valid] is false, and
    [validation] is the message of the missing library, the refusal of
    the validator with its message, or what the library threw: its
    message, or no message at all, which is the one case where
    [validation.error] is undefined.  The library is called at most
    once, never for a text the validator rejects, and then for one of the
    four symbologies CODE128, EAN13, CODE39 and ITF (JAN is drawn as
    EAN13). *)
Theorem BarcodeGenerator_generate_result (toUpperCase : string -> string)
    (JsBarcode : option (string -> string -> Drawing)) (text format : string) :
  let data := fst (BarcodeGenerator_generate toUpperCase JsBarcode text format) in
  let log := snd (BarcodeGenerator_generate toUpperCase JsBarcode text format) in
  let checked := validateBarcodeFormat toUpperCase text format in
  let accepted := valid checked in
  let config := getFormatConfig format in
  (svg data <> None <-> valid (validation data) = true)
  /\ (forall picture, svg data = Some picture ->
        accepted = true
        /\ barcodeSize data = getBarcodeSize (String.length text)
        /\ exists draw, JsBarcode = Some draw
                        /\ draw text config = Drawn picture)
  /\ (svg data = None ->
      valid (validation data) = false
      /\ (JsBarcode = None -> validation data = Invalid Msg.barcodeLibrary)
      /\ (JsBarcode <> None -> accepted = false ->
          validation data = checked
          /\ exists e, checked = Invalid e)
      /\ (forall draw m,
            JsBarcode = Some draw -> accepted = true ->
            draw text config = Throws m -> validation data = Invalid m)
      /\ (error (validation data) = None
          <-> exists draw, JsBarcode = Some draw /\ accepted = true
                           /\ draw text config = ThrowsNoMessage))
  /\ (log = []
      \/ (log = [CallBarcode text config] /\ accepted = true
          /\ isBarcodeFormat format = true
          /\ In config ["CODE128"; "EAN13"; "CODE39"; "ITF"]))
  /\ (accepted = false -> log = [] /\ svg data = None)
  /\ getFormatConfig "JAN" = "EAN13".
Proof.
  intros data log checked accepted config.
  destruct (validateBarcodeFormat_refusal toUpperCase text format)
    as [Hrefused Haccepted].
  fold checked in Hrefused, Haccepted. fold accepted in Hrefused, Haccepted.
  unfold data, log, BarcodeGenerator_generate.
  fold checked. fold accepted. fold config.
  destruct JsBarcode as [draw|].
  - destruct accepted eqn:Ea; cbn [negb].
    + destruct (draw text config) as [picture|m|] eqn:Ed; cbn [fst snd svg
        validation barcodeSize valid error].
      * split; [split; [reflexivity | discriminate]|].
        split; [intros p [= <-]; repeat split; exists draw; now split|].
        split; [discriminate|].
        split; [right; repeat split; auto; apply getFormatConfig_known|].
        split; [discriminate | reflexivity].
      * split; [split; [congruence | discriminate]|].
        split; [discriminate|].
        split.
        { intros _. split; [reflexivity|]. split; [discriminate|].
          split; [discriminate|].
          split; [intros d m' [= <-] _ Hm; congruence|].
          split; [discriminate|].
          intros (d & [= <-] & _ & Hd). congruence. }
        split; [right; repeat split; auto; apply getFormatConfig_known|].
        split; [discriminate | reflexivity].
      * split; [split; [congruence | discriminate]|].
        split; [discriminate|].
        split.
        { intros _. split; [reflexivity|]. split; [discriminate|].
          split; [discriminate|].
          split; [intros d m' [= <-] _ Hm; congruence|].
          split; [intros _; exists draw; auto | reflexivity]. }
        split; [right; repeat split; auto; apply getFormatConfig_known|].
        split; [discriminate | reflexivity].
    + cbn [fst snd svg validation barcodeSize].
      destruct (Hrefused eq_refl) as [e He].
      split; [split; [congruence | rewrite He; discriminate]|].
      split; [discriminate|].
      split.
      { intros _. split; [rewrite He; reflexivity|]. split; [discriminate|].
        split; [intros _ _; split; [reflexivity | eauto]|].
        split; [discriminate|].
        rewrite He. split; [discriminate|].
        intros (d & _ & Hd & _). discriminate. }
      split; [now left|].
      split; [intros _; now split | reflexivity].
  - cbn [fst snd svg validation barcodeSize valid error].
    split; [split; [congruence | discriminate]|].
    split; [discriminate|].
    split.
    { intros _. split; [reflexivity|]. split; [reflexivity|].
      split; [congruence|].
      split; [discriminate|].
      split; [discriminate|].
      intros (d & Hd & _). discriminate. }
    split; [now left|].
    split; [intros _; now split | reflexivity].
Qed.

(** ** The worker and the planner read the content alike *)

Lemma Worker_getDelimiter_eq (delimiterType customDelimiter : string) :
  Worker.getDelimiter delimiterType customDelimiter
  = getDelimiter delimiterType customDelimiter.
Proof.
  unfold Worker.getDelimiter, getDelimiter, CONSTANTS.DELIMITERS.
  cbn [lookup].
  destruct (String.eqb_spec "newline" delimiterType) as [<-|H1]; [reflexivity|].
  destruct (String.eqb_spec "comma" delimiterType) as [<-|H2]; [reflexivity|].
  destruct (String.eqb_spec "semicolon" delimiterType) as [<-|H3]; [reflexivity|].
  destruct (String.eqb_spec "tab" delimiterType) as [<-|H4]; [reflexivity|].
  rewrite (String.eqb_sym "custom" delimiterType).
  destruct (String.eqb delimiterType "custom"); [|reflexivity].
  destruct customDelimiter; reflexivity.
Qed.

Lemma Worker_parseContent_eq (content : string) (settings : GlobalSettings) :
  Worker.parseContent content settings
  = parseContent content
      (getDelimiter (delimiter settings) (customDelimiter settings)).
Proof.
  unfold Worker.parseContent, parseContent. now rewrite Worker_getDelimiter_eq.
Qed.

Lemma Worker_countItems_from (settings : GlobalSettings) (blocks : list Block)
    (n : nat) :
  fold_left
    (fun totalItems block =>
       if JS.truthy (JS.trim (content block))
       then totalItems
            + List.length (Worker.parseContent (content block) settings)
       else totalItems)
    blocks n
  = n + totalCount blocks
          (getDelimiter (delimiter settings) (customDelimiter settings)).
Proof.
  revert n. induction blocks as [|b blocks IH]; intros n; simpl.
  - unfold totalCount; simpl. lia.
  - rewrite IH, Worker_parseContent_eq. unfold totalCount, itemsOf; simpl.
    destruct (JS.truthy (JS.trim (content b))); simpl; lia.
Qed.

Lemma Worker_countItems_eq (blocks : list Block) (settings : GlobalSettings) :
  Worker.countItems blocks settings
  = totalCount blocks
      (getDelimiter (delimiter settings) (customDelimiter settings)).
Proof. unfold Worker.countItems. now rewrite Worker_countItems_from. Qed.

Lemma workItems_length (settings : GlobalSettings) (b : Block) (blockIndex : nat) :
  List.length (workItems settings b blockIndex)
  = List.length
      (itemsOf (getDelimiter (delimiter settings) (customDelimiter settings)) b).
Proof.
  unfold workItems, itemsOf. rewrite Worker_parseContent_eq.
  destruct (JS.truthy (JS.trim (content b))); [|reflexivity].
  rewrite length_map, length_combine, length_seq. lia.
Qed.

Lemma enumerate_length (settings : GlobalSettings) (blocks : list Block) :
  forall blockIndex,
    List.length (enumerate settings blocks blockIndex)
    = totalCount blocks
        (getDelimiter (delimiter settings) (customDelimiter settings)).
Proof.
  induction blocks as [|b blocks IH]; intros blockIndex; simpl.
  - reflexivity.
  - rewrite length_app, IH, workItems_length. reflexivity.
Qed.

Lemma workItems_texts (settings : GlobalSettings) (b : Block) (blockIndex : nat) :
  map item_text (workItems settings b blockIndex)
  = itemsOf (getDelimiter (delimiter settings) (customDelimiter settings)) b.
Proof.
  unfold workItems, itemsOf. rewrite Worker_parseContent_eq.
  destruct (JS.truthy (JS.trim (content b))); [|reflexivity].
  rewrite map_map. simpl.
  set (items := parseContent _ _). clearbody items.
  generalize 0 as start. induction items as [|t items IH]; intros start; simpl.
  - reflexivity.
  - now rewrite IH.
Qed.

(** X17.  The worker resolves the delimiter, splits a content and counts
    the items exactly as the planner does, for every selection and custom
    string; the delimiter is never the empty string.  The list the worker
    builds has as many entries as the planner counted, and their texts
    are the items of the blocks in order. *)
Theorem worker_reads_as_planner (blocks : list Block) (settings : GlobalSettings) :
  let d := getDelimiter (delimiter settings) (customDelimiter settings) in
  (forall delimiterType customDelimiter,
     Worker.getDelimiter delimiterType customDelimiter
     = getDelimiter delimiterType customDelimiter
     /\ getDelimiter delimiterType customDelimiter <> EmptyString)
  /\ (forall content, Worker.parseContent content settings = parseContent content d)
  /\ Worker.countItems blocks settings = countItems blocks d
  /\ List.length (enumerate settings blocks 0) = countItems blocks d
  /\ map item_text (enumerate settings blocks 0) = flat_map (itemsOf d) blocks.
Proof.
  intros d. split; [|split; [|split; [|split]]].
  - intros. split; [apply Worker_getDelimiter_eq | apply getDelimiter_nonempty].
  - intros. apply Worker_parseContent_eq.
  - rewrite countItems_totalCount. apply Worker_countItems_eq.
  - rewrite countItems_totalCount. apply enumerate_length.
  - generalize 0 as blockIndex.
    induction blocks as [|b blocks IH]; intros blockIndex; simpl.
    + reflexivity.
    + rewrite map_app, workItems_texts, IH. reflexivity.
Qed.

(** ** The messages of the worker *)

Lemma seq_app_S (first n m : nat) :
  seq (S first) n ++ seq (S (first + n)) m = seq (S first) (n + m).
Proof. rewrite seq_app. f_equal. Qed.

Lemma progressOf_app (total first n m : nat) :
  progressOf total first n ++ progressOf total (first + n) m
  = progressOf total first (n + m).
Proof.
  unfold progressOf. rewrite <- map_app, <- filter_app. now rewrite seq_app_S.
Qed.

Lemma forItems_spec (total : nat) (b : Block) (blockIndex : nat)
    (items : list string) :
  forall (itemIndex : nat) (p : Worker.Progress),
    let p' := Worker.forItems total b blockIndex items itemIndex p in
    Worker.results p'
    = Worker.results p
      ++ map (fun it : nat * string =>
                mkWorkItem (id b) blockIndex (fst it) (snd it) (codeType b)
                           (qrErrorCorrection b) (barcodeFormat b)
                           (sizeOverride b))
             (combine (seq itemIndex (List.length items)) items)
    /\ Worker.processedItems p' = Worker.processedItems p + List.length items
    /\ Worker.posted p'
       = Worker.posted p
         ++ progressOf total (Worker.processedItems p) (List.length items).
Proof.
  induction items as [|t items IH]; intros itemIndex p p'.
  - unfold p'. simpl. unfold progressOf. simpl. rewrite !app_nil_r.
    repeat split. lia.
  - unfold p'. cbn [Worker.forItems].
    set (p1 := Worker.mkProgress _ _ _).
    destruct (IH (itemIndex + 1) p1) as (Hr & Hn & Hp).
    rewrite Hr, Hn, Hp. unfold p1. cbn [Worker.results Worker.processedItems
                                        Worker.posted].
    split; [|split].
    + rewrite <- app_assoc. f_equal. simpl. f_equal.
      now rewrite Nat.add_1_r.
    + simpl. lia.
    + change (List.length (t :: items)) with (1 + List.length items).
      rewrite <- (progressOf_app total (Worker.processedItems p) 1
                                 (List.length items)).
      rewrite app_assoc. f_equal.
      unfold progressOf. cbn [seq filter]. unfold reported.
      rewrite Nat.add_1_r.
      destruct (Nat.eqb (Nat.modulo (S (Worker.processedItems p)) 10) 0
                || Nat.eqb (S (Worker.processedItems p)) total)%bool;
        cbn [map]; [reflexivity | now rewrite app_nil_r].
Qed.

Lemma forBlocks_spec (total : nat) (settings : GlobalSettings)
    (blocks : list Block) :
  forall (blockIndex : nat) (p : Worker.Progress),
    let d := getDelimiter (delimiter settings) (customDelimiter settings) in
    let p' := Worker.forBlocks total settings blocks blockIndex p in
    Worker.results p' = Worker.results p ++ enumerate settings blocks blockIndex
    /\ Worker.processedItems p' = Worker.processedItems p + totalCount blocks d
    /\ Worker.posted p'
       = Worker.posted p
         ++ progressOf total (Worker.processedItems p) (totalCount blocks d).
Proof.
  induction blocks as [|b blocks IH]; intros blockIndex p d p'.
  - unfold p', totalCount, progressOf. simpl. rewrite !app_nil_r.
    repeat split. lia.
  - unfold p'. cbn [Worker.forBlocks enumerate].
    set (p1 := if JS.truthy (JS.trim (content b)) then _ else p).
    destruct (IH (blockIndex + 1) p1) as (Hr & Hn & Hp). fold d in Hn, Hp.
    assert (H1 : Worker.results p1
                 = Worker.results p ++ workItems settings b blockIndex
                 /\ Worker.processedItems p1
                    = Worker.processedItems p + List.length (itemsOf d b)
                 /\ Worker.posted p1
                    = Worker.posted p
                      ++ progressOf total (Worker.processedItems p)
                                    (List.length (itemsOf d b))).
    { unfold p1, workItems, itemsOf, d. rewrite <- Worker_parseContent_eq.
      destruct (JS.truthy (JS.trim (content b))).
      - apply forItems_spec.
      - unfold progressOf. simpl. rewrite !app_nil_r. repeat split. lia. }
    destruct H1 as (Hr1 & Hn1 & Hp1).
    rewrite Hr, Hn, Hp, Hr1, Hn1, Hp1.
    assert (Ht : totalCount (b :: blocks) d
                 = List.length (itemsOf d b) + totalCount blocks d)
      by reflexivity.
    rewrite Ht, Nat.add_1_r.
    split; [now rewrite <- app_assoc|]. split; [lia|].
    rewrite <- app_assoc. now rewrite progressOf_app.
Qed.

Lemma nth_error_combine_seq {A} (l : list A) (start k i : nat) (t : A) :
  nth_error (combine (seq start (List.length l)) l) k = Some (i, t) ->
  i = start + k /\ nth_error l k = Some t.
Proof.
  revert start k. induction l as [|x l IH]; intros start k H.
  - destruct k; discriminate.
  - destruct k as [|k]; simpl in H.
    + injection H as <- <-. split; [lia | reflexivity].
    + apply IH in H. destruct H as [-> H]. split; [lia | exact H].
Qed.

(** The messages for one request, all of them. *)
Lemma onmessage_messages (blocks : list Block) (settings : GlobalSettings) :
  let total :=
    totalCount blocks
      (getDelimiter (delimiter settings) (customDelimiter settings)) in
  Worker.onmessage (GENERATE_CODES blocks settings)
  = progressOf total 0 total ++ [COMPLETE (enumerate settings blocks 0)].
Proof.
  intros total. unfold Worker.onmessage.
  rewrite Worker_countItems_eq. fold total.
  destruct (forBlocks_spec total settings blocks 0 (Worker.mkProgress [] 0 []))
    as (Hr & _ & Hp).
  rewrite Hr, Hp. reflexivity.
Qed.

(** X18.  For one request the worker posts its progress messages and
    then, last, one completion message; the list it carries holds, block
    after block and for the blocks whose content is not blank only, one
    entry for each item, with the index of the block, the index of the
    item in the block counted from 0, and the fields of the block. *)
Theorem onmessage_complete (blocks : list Block) (settings : GlobalSettings) :
  let total := Worker.countItems blocks settings in
  exists progress,
    Worker.onmessage (GENERATE_CODES blocks settings)
    = progress ++ [COMPLETE (enumerate settings blocks 0)]
    /\ Forall (fun m => exists current, m = PROGRESS current total) progress
    /\ List.length (enumerate settings blocks 0) = total
    /\ (forall b blockIndex,
          JS.truthy (JS.trim (content b)) = false ->
          workItems settings b blockIndex = [])
    /\ (forall b blockIndex k item,
          nth_error (workItems settings b blockIndex) k = Some item ->
          item_blockId item = id b /\ item_blockIndex item = blockIndex
          /\ item_itemIndex item = k
          /\ nth_error (Worker.parseContent (content b) settings) k
             = Some (item_text item)
          /\ item_codeType item = codeType b
          /\ item_qrErrorCorrection item = qrErrorCorrection b
          /\ item_barcodeFormat item = barcodeFormat b
          /\ item_sizeOverride item = sizeOverride b).
Proof.
  intros total. unfold total. rewrite Worker_countItems_eq.
  eexists. split; [apply onmessage_messages|].
  split.
  { unfold progressOf. apply Forall_map. apply Forall_forall. eauto. }
  split; [apply enumerate_length|].
  split.
  { intros b blockIndex H. unfold workItems. now rewrite H. }
  intros b blockIndex k item. unfold workItems.
  destruct (JS.truthy (JS.trim (content b))); [|destruct k; discriminate].
  set (items := Worker.parseContent (content b) settings).
  rewrite nth_error_map.
  destruct (nth_error (combine (seq 0 (List.length items)) items) k)
    as [[i t]|] eqn:Hnth; [|discriminate].
  intros [= <-]. simpl.
  destruct (nth_error_combine_seq _ _ _ Hnth) as [-> Ht].
  repeat split. exact Ht.
Qed.

Lemma filter_seq_sorted (f : nat -> bool) (n : nat) :
  forall a, StronglySorted lt (filter f (seq a n)).
Proof.
  induction n as [|n IH]; intros a; simpl; [constructor|].
  destruct (f a); [|apply IH].
  constructor; [apply IH|].
  apply Forall_forall. intros x Hx. apply filter_In in Hx.
  destruct Hx as [Hx _]. apply in_seq in Hx. lia.
Qed.

(** X19.  The progress messages of one request carry, in increasing
    order, the counts from 1 to the total that are multiples of ten or
    the total itself, each with the total; so when there is an item at
    all the last of them has [current] equal to [total], and none is
    posted for an empty batch. *)
Theorem onmessage_progress (blocks : list Block) (settings : GlobalSettings) :
  let total := Worker.countItems blocks settings in
  let currents := filter (reported total) (seq 1 total) in
  Worker.onmessage (GENERATE_CODES blocks settings)
  = map (fun current => PROGRESS current total) currents
    ++ [COMPLETE (enumerate settings blocks 0)]
  /\ (forall c, In c currents
                <-> 1 <= c <= total /\ (Nat.modulo c 10 = 0 \/ c = total))
  /\ StronglySorted lt currents
  /\ (0 < total -> last currents 0 = total)
  /\ (total = 0 -> currents = []).
Proof.
  intros total currents. unfold currents, total.
  rewrite Worker_countItems_eq.
  set (n := totalCount blocks _).
  split; [apply onmessage_messages|].
  split.
  { intros c. rewrite filter_In, in_seq. unfold reported.
    rewrite orb_true_iff, !Nat.eqb_eq. split; intros [H1 H2]; split;
      try lia; exact H2. }
  split; [apply filter_seq_sorted|].
  split.
  - intros Hpos. destruct n as [|m]; [lia|].
    replace (S m) with (m + 1) at 2 by lia.
    rewrite seq_app, filter_app. cbn [seq filter]. unfold reported at 2.
    replace (1 + m) with (S m) by lia.
    rewrite Nat.eqb_refl, orb_true_r. apply last_last.
  - intros ->. reflexivity.
Qed.

(** ** What the direct path makes of the items *)

Lemma codesOf_errorsOf_length (entries : list Entry) :
  List.length (codesOf entries) + List.length (errorsOf entries)
  = List.length entries.
Proof.
  induction entries as [|[c|v] entries IH]; simpl; lia.
Qed.

Section Runs.

Variable toUpperCase : string -> string.
Variable qrcode : option (string -> string -> option (string * nat)).
Variable JsBarcode : option (string -> string -> Drawing).

Lemma getQRSize_small_medium (n : nat) :
  getQRSize n = "small" \/ getQRSize n = "medium".
Proof. unfold getQRSize. destruct (Nat.leb n 33); auto. Qed.

Lemma getBarcodeSize_small_medium (n : nat) :
  getBarcodeSize n = "small" \/ getBarcodeSize n = "medium".
Proof. unfold getBarcodeSize. destruct (Nat.leb n 16); auto. Qed.

(** One item adds one code at most, of the shape its block gives, and
    one call at most. *)
Lemma encodeItem_code (b : Block) (blockIndex itemIndex : nat) (r : Run)
    (text : string) :
  let r' := fst (encodeItem toUpperCase qrcode JsBarcode b blockIndex
                            (r, itemIndex) text) in
  (codes r' = codes r
   \/ exists c, codes r' = codes r ++ [c] /\ codeOfItem b text c)
  /\ (calls r' = calls r \/ exists call, calls r' = calls r ++ [call]).
Proof.
  intros r'. unfold r', encodeItem, QRGenerator_generate,
    BarcodeGenerator_generate, codeOfItem.
  destruct (String.eqb_spec (codeType b) "qr") as [Eqr|Eqr].
  - destruct qrcode as [make|]; simpl.
    + destruct (make text (qrErrorCorrection b)) as [[svgTag count]|]; simpl.
      * split; [right | right; eauto].
        eexists. split; [reflexivity|]. simpl.
        repeat split; auto.
        destruct (String.eqb (sizeOverride b) "auto");
          [apply getQRSize_small_medium | reflexivity].
      * split; [now left | right; eauto].
    + rewrite app_nil_r. split; now left.
  - destruct (valid (validateBarcodeFormat toUpperCase text (barcodeFormat b)));
      simpl.
    + destruct JsBarcode as [draw|]; simpl.
      * destruct (draw text (getFormatConfig (barcodeFormat b))); simpl.
        -- split; [right | right; eauto].
           eexists. split; [reflexivity|]. simpl.
           repeat split; auto; try discriminate; try tauto.
           destruct (String.eqb (sizeOverride b) "auto");
             [apply getBarcodeSize_small_medium | reflexivity].
        -- split; [now left | right; eauto].
        -- split; [now left | right; eauto].
      * rewrite app_nil_r. split; now left.
    + rewrite app_nil_r. split; now left.
Qed.

Lemma encodeItem_counter (b : Block) (blockIndex itemIndex : nat) (r : Run)
    (text : string) :
  snd (encodeItem toUpperCase qrcode JsBarcode b blockIndex (r, itemIndex) text)
  = S itemIndex.
Proof.
  destruct (encodeItem_entry toUpperCase qrcode JsBarcode b blockIndex itemIndex
                             r text) as (e & _ & _ & _ & _ & H).
  rewrite H. lia.
Qed.

Lemma encodeItems_codes (P : GeneratedCode -> Prop) (b : Block)
    (blockIndex : nat) (items : list string) :
  (forall c text, In text items -> codeOfItem b text c -> P c) ->
  forall (r : Run) (k : nat),
    let r' := fst (fold_left (encodeItem toUpperCase qrcode JsBarcode b blockIndex)
                             items (r, k)) in
    Forall P (codes r) ->
    Forall P (codes r')
    /\ List.length (calls r') <= List.length (calls r) + List.length items.
Proof.
  induction items as [|text items IH]; intros HP r k r' Hr.
  - unfold r'. simpl. split; [exact Hr | lia].
  - unfold r'. cbn [fold_left].
    destruct (encodeItem_code b blockIndex k r text) as [Hc Hcalls].
    pose proof (encodeItem_counter b blockIndex k r text) as Hk.
    destruct (encodeItem toUpperCase qrcode JsBarcode b blockIndex (r, k) text)
      as [r1 k1]. simpl in Hc, Hcalls, Hk. subst k1.
    assert (Hr1 : Forall P (codes r1)).
    { destruct Hc as [->|(c & -> & Hshape)]; [exact Hr|].
      apply Forall_app. split; [exact Hr|].
      constructor; [|constructor]. apply (HP c text); [now left | exact Hshape]. }
    destruct (IH (fun c t Ht => HP c t (or_intror Ht)) r1 (S k) Hr1) as [H1 H2].
    split; [exact H1|]. cbn [List.length].
    destruct Hcalls as [E|(call & E)]; rewrite E in H2;
      [|rewrite length_app in H2; simpl in H2]; lia.
Qed.

Lemma encodeBlock_counts (delimiter : string) (b : Block) (blockIndex : nat)
    (r : Run) :
  let r' := encodeBlock toUpperCase qrcode JsBarcode delimiter b blockIndex r in
  List.length (codes r') + List.length (run_errors r')
  = List.length (codes r) + List.length (run_errors r)
    + List.length (itemsOf delimiter b).
Proof.
  intros r'. unfold r', encodeBlock, itemsOf.
  destruct (JS.truthy (JS.trim (content b))); simpl; [|lia].
  destruct (encodeItems_entries toUpperCase qrcode JsBarcode b blockIndex
              (parseContent (content b) delimiter) r 1)
    as (entries & _ & Ht & Hc & He & _).
  rewrite Hc, He, !length_app.
  pose proof (codesOf_errorsOf_length entries) as Hl.
  rewrite <- Ht, length_map. lia.
Qed.

Lemma encodeBlock_codes (P : GeneratedCode -> Prop) (delimiter : string)
    (b : Block) (blockIndex : nat) (r : Run) :
  (forall c, codeOfBlock delimiter b c -> P c) ->
  let r' := encodeBlock toUpperCase qrcode JsBarcode delimiter b blockIndex r in
  Forall P (codes r) ->
  Forall P (codes r')
  /\ List.length (calls r')
     <= List.length (calls r) + List.length (itemsOf delimiter b).
Proof.
  intros HP r' Hr. unfold r', encodeBlock, itemsOf in *.
  destruct (JS.truthy (JS.trim (content b))) eqn:E; simpl; [|split; [exact Hr|lia]].
  apply encodeItems_codes; [|exact Hr].
  intros c text Hin (H1 & H2 & H3 & H4 & H5 & H6). apply HP.
  unfold codeOfBlock, itemsOf. rewrite E, H3. repeat split; try assumption;
    apply H4.
Qed.

Lemma encodeBlocks_facts (delimiter : string) (all blocks : list Block) :
  incl blocks all ->
  forall (blockIndex : nat) (r : Run),
    let r' := encodeBlocks toUpperCase qrcode JsBarcode delimiter blocks
                           blockIndex r in
    let P c := exists b, In b all /\ codeOfBlock delimiter b c in
    Forall P (codes r) ->
    Forall P (codes r')
    /\ List.length (calls r')
       <= List.length (calls r) + totalCount blocks delimiter
    /\ List.length (codes r') + List.length (run_errors r')
       = List.length (codes r) + List.length (run_errors r)
         + totalCount blocks delimiter.
Proof.
  induction blocks as [|b blocks IH]; intros Hincl blockIndex r r' P Hr.
  - unfold r', totalCount. simpl. repeat split; [exact Hr | lia | lia].
  - unfold r'. cbn [encodeBlocks].
    assert (Hb : In b all) by (apply Hincl; now left).
    destruct (@encodeBlock_codes P delimiter b blockIndex r) as [H1 H2];
      [intros c Hc; exists b; now split | exact Hr |].
    pose proof (encodeBlock_counts delimiter b blockIndex r) as H3.
    simpl in H3.
    destruct (IH (fun x Hx => Hincl x (or_intror Hx)) (blockIndex + 1)
                 (encodeBlock toUpperCase qrcode JsBarcode delimiter b
                              blockIndex r) H1)
      as (G1 & G2 & G3).
    assert (Ht : totalCount (b :: blocks) delimiter
                 = List.length (itemsOf delimiter b) + totalCount blocks delimiter)
      by reflexivity.
    rewrite Ht. split; [exact G1|]. split; lia.
Qed.

(** X20.  On the direct path every item ends as exactly one code or one
    error: the two lists together have as many entries as the planner
    counted items; and the drawing libraries are called once per item at
    most. *)
Theorem generateDirect_counts (blocks : list Block) (settings : GlobalSettings) :
  let run := generateDirect toUpperCase qrcode JsBarcode blocks settings in
  let total :=
    countItems blocks
      (getDelimiter (delimiter settings) (customDelimiter settings)) in
  List.length (codes run) + List.length (run_errors run) = total
  /\ List.length (calls run) <= total.
Proof.
  intros run total. unfold run, total, generateDirect.
  rewrite countItems_totalCount.
  destruct (@encodeBlocks_facts
              (getDelimiter (delimiter settings) (customDelimiter settings))
              blocks blocks (incl_refl _) 0 emptyRun (Forall_nil _))
    as (_ & H2 & H3).
  simpl in H2, H3. split; lia.
Qed.

(** X21.  Every code of the direct path belongs to one of the blocks:
    it carries the identifier and the subtitle of the block, its text is
    an item of the block, its type is qr for a block of code type qr and
    barcode for any other, and its size is the size override of the
    block, or small or medium when the override is auto, never large. *)
Theorem generateDirect_codes (blocks : list Block) (settings : GlobalSettings) :
  let d := getDelimiter (delimiter settings) (customDelimiter settings) in
  Forall (fun c => exists b, In b blocks /\ codeOfBlock d b c)
         (codes (generateDirect toUpperCase qrcode JsBarcode blocks settings)).
Proof.
  intros d. unfold generateDirect.
  apply (@encodeBlocks_facts d blocks blocks (incl_refl _) 0 emptyRun
                             (Forall_nil _)).
Qed.

End Runs.

(** ** The delegated path against the direct path *)

Section Delegated.

Variable toUpperCase : string -> string.
Variable qrcode : option (string -> string -> option (string * nat)).
Variable JsBarcode : option (string -> string -> Drawing).

(** The entry the worker makes for an item draws what the direct path
    draws for it. *)
Lemma finalizeItem_sameCodes (b : Block) (blockIndex i : nat) (text : string)
    (r r' : Run) :
  sameCodes r r' ->
  sameCodes
    (fst (encodeItem toUpperCase qrcode JsBarcode b blockIndex (r, S i) text))
    (finalizeItem toUpperCase qrcode JsBarcode r'
       (mkWorkItem (id b) blockIndex i text (codeType b) (qrErrorCorrection b)
                   (barcodeFormat b) (sizeOverride b))).
Proof.
  intros [Hc Hk].
  unfold sameCodes, encodeItem, finalizeItem, QRGenerator_generate,
    BarcodeGenerator_generate.
  cbn [item_codeType item_text item_qrErrorCorrection item_barcodeFormat
       item_sizeOverride item_blockId item_blockIndex item_itemIndex].
  rewrite (Nat.add_1_r i).
  destruct (String.eqb (codeType b) "qr").
  - destruct qrcode as [make|]; simpl.
    + destruct (make text (qrErrorCorrection b)) as [[svgTag count]|]; simpl;
        rewrite ?map_app, Hc, Hk; split; reflexivity.
    + rewrite Hc, Hk. split; reflexivity.
  - destruct JsBarcode as [draw|]; simpl.
    + destruct (valid (validateBarcodeFormat toUpperCase text (barcodeFormat b)));
        simpl.
      * destruct (draw text (getFormatConfig (barcodeFormat b))); simpl;
          rewrite ?map_app, Hc, Hk; split; reflexivity.
      * rewrite Hc, Hk. split; reflexivity.
    + destruct (valid (validateBarcodeFormat toUpperCase text (barcodeFormat b)));
        simpl; rewrite Hc, Hk; split; reflexivity.
Qed.

Lemma finalizeItems_sameCodes (b : Block) (blockIndex : nat)
    (items : list string) :
  forall (i : nat) (r r' : Run),
    sameCodes r r' ->
    sameCodes
      (fst (fold_left (encodeItem toUpperCase qrcode JsBarcode b blockIndex)
                      items (r, S i)))
      (fold_left (finalizeItem toUpperCase qrcode JsBarcode)
         (map (fun it : nat * string =>
                 mkWorkItem (id b) blockIndex (fst it) (snd it) (codeType b)
                            (qrErrorCorrection b) (barcodeFormat b)
                            (sizeOverride b))
              (combine (seq i (List.length items)) items))
         r').
Proof.
  induction items as [|text items IH]; intros i r r' H.
  - exact H.
  - cbn [List.length seq combine map fold_left fst snd].
    pose proof (finalizeItem_sameCodes b blockIndex i text H) as H1.
    pose proof (encodeItem_counter toUpperCase qrcode JsBarcode b blockIndex
                                   (S i) r text) as Hk.
    destruct (encodeItem toUpperCase qrcode JsBarcode b blockIndex (r, S i) text)
      as [r1 k1].
    simpl in H1, Hk. subst k1.
    apply IH. exact H1.
Qed.

Lemma workItems_sameCodes (settings : GlobalSettings) (b : Block)
    (blockIndex : nat) (r r' : Run) :
  sameCodes r r' ->
  sameCodes
    (encodeBlock toUpperCase qrcode JsBarcode
       (getDelimiter (delimiter settings) (customDelimiter settings))
       b blockIndex r)
    (fold_left (finalizeItem toUpperCase qrcode JsBarcode)
               (workItems settings b blockIndex) r').
Proof.
  intros H. unfold encodeBlock, workItems.
  destruct (JS.truthy (JS.trim (content b))); simpl; [|exact H].
  rewrite Worker_parseContent_eq.
  apply finalizeItems_sameCodes. exact H.
Qed.

Lemma enumerate_sameCodes (settings : GlobalSettings) (blocks : list Block) :
  forall (blockIndex : nat) (r r' : Run),
    sameCodes r r' ->
    sameCodes
      (encodeBlocks toUpperCase qrcode JsBarcode
         (getDelimiter (delimiter settings) (customDelimiter settings))
         blocks blockIndex r)
      (fold_left (finalizeItem toUpperCase qrcode JsBarcode)
                 (enumerate settings blocks blockIndex) r').
Proof.
  induction blocks as [|b blocks IH]; intros blockIndex r r' H.
  - exact H.
  - cbn [encodeBlocks enumerate]. rewrite fold_left_app, Nat.add_1_r.
    apply IH. apply workItems_sameCodes. exact H.
Qed.

(** X22.  Finalizing the list the worker returns for the blocks gives
    the codes of the direct path on the same blocks, in the same order
    and with the same numbers, texts, types, data and sizes, but without
    the subtitle; and it makes the same calls to the drawing libraries. *)
Theorem finalizeRun_generateDirect (blocks : list Block)
    (settings : GlobalSettings) :
  let direct := generateDirect toUpperCase qrcode JsBarcode blocks settings in
  let delegated :=
    finalizeRun toUpperCase qrcode JsBarcode (enumerate settings blocks 0) in
  codes delegated = map withoutSubtitle (codes direct)
  /\ calls delegated = calls direct
  /\ List.length (codes delegated) = List.length (codes direct).
Proof.
  intros direct delegated.
  assert (H : sameCodes direct delegated).
  { unfold direct, delegated, generateDirect, finalizeRun.
    apply enumerate_sameCodes. split; reflexivity. }
  destruct H as [Hc Hk].
  split; [exact Hc|]. split; [exact Hk|].
  rewrite Hc. apply length_map.
Qed.

(** ** The whole delegated generation *)

Lemma last_cons_default {A} (l : list A) :
  forall a d : A, last (a :: l) d = last l a.
Proof.
  induction l as [|b l IH]; intros a d; [reflexivity|].
  change (last (a :: b :: l) d) with (last (b :: l) d).
  rewrite (IH b d), (IH b a). reflexivity.
Qed.

Lemma last_map_cons {A B} (f : A -> B) (l : list A) :
  forall (a : A) (d : B) (d' : A),
    last (map f (a :: l)) d = f (last (a :: l) d').
Proof.
  induction l as [|b l IH]; intros a d d'; [reflexivity|].
  change (last (map f (a :: b :: l)) d) with (last (map f (b :: l)) d).
  change (last (a :: b :: l) d') with (last (b :: l) d').
  apply IH.
Qed.

Lemma last_reported (total : nat) :
  0 < total -> last (filter (reported total) (seq 1 total)) 0 = total.
Proof.
  intros Hpos. destruct total as [|m]; [lia|].
  replace (S m) with (m + 1) at 2 by lia.
  rewrite seq_app, filter_app. cbn [seq filter]. unfold reported at 2.
  replace (1 + m) with (S m) by lia.
  rewrite Nat.eqb_refl, orb_true_r. apply last_last.
Qed.

(** Handling progress messages writes the progress only; the last one
    stays. *)
Lemma progress_handled (total : nat) (currents : list nat) :
  forall app : QRBarcodeApp,
    let app' :=
      fold_left (fun a m => handleWorkerMessage toUpperCase qrcode JsBarcode m a)
                (map (fun current => PROGRESS current total) currents) app in
    worker app' = worker app
    /\ history (store app') = history (store app)
    /\ historyIndex (store app') = historyIndex (store app)
    /\ blocks (state (store app')) = blocks (state (store app))
    /\ settings (state (store app')) = settings (state (store app))
    /\ generatedCodes (state (store app')) = generatedCodes (state (store app))
    /\ errors (state (store app')) = errors (state (store app))
    /\ mode (state (store app')) = mode (state (store app))
    /\ isGenerating (state (store app')) = isGenerating (state (store app))
    /\ progress (state (store app'))
       = last (map (fun current => (current, total)) currents)
              (progress (state (store app))).
Proof.
  induction currents as [|c currents IH]; intros app app'.
  - unfold app'. simpl. repeat split.
  - unfold app'. cbn [map fold_left].
    specialize (IH (handleWorkerMessage toUpperCase qrcode JsBarcode
                                        (PROGRESS c total) app)).
    cbv zeta in IH.
    destruct IH as (H1 & H2 & H3 & H4 & H5 & H6 & H7 & H8 & H9 & H10).
    rewrite H1, H2, H3, H4, H5, H6, H7, H8, H9, H10.
    rewrite last_cons_default. simpl. repeat split.
Qed.

(** X23.  A generation delegated to the worker, from the call of
    [generateCodes] to the handling of the last message: the request is
    posted with the blocks and the settings of the store and the
    generating flag is raised; when all the messages of the worker have
    been handled the flag is down, the progress stands at the total, the
    codes are those of the direct path without their subtitles, and the
    errors are still those the store held before. *)
Theorem delegated_generation (app : QRBarcodeApp) (sent : list WorkerRequest)
    (Hworker : worker app = Some sent)
    (Hmany : CONSTANTS.PROGRESS_THRESHOLD
             <= countItems (blocks (state (store app)))
                  (getDelimiter (delimiter (settings (state (store app))))
                                (customDelimiter (settings (state (store app)))))) :
  let bs := blocks (state (store app)) in
  let ss := settings (state (store app)) in
  let total := countItems bs (getDelimiter (delimiter ss) (customDelimiter ss)) in
  let app1 := fst (generateCodes toUpperCase qrcode JsBarcode app) in
  let app2 :=
    fold_left (fun a m => handleWorkerMessage toUpperCase qrcode JsBarcode m a)
              (Worker.onmessage (GENERATE_CODES bs ss)) app1 in
  worker app1 = Some (sent ++ [GENERATE_CODES bs ss])
  /\ isGenerating (state (store app1)) = true
  /\ isGenerating (state (store app2)) = false
  /\ progress (state (store app2)) = (total, total)
  /\ generatedCodes (state (store app2))
     = map withoutSubtitle
           (codes (generateDirect toUpperCase qrcode JsBarcode bs ss))
  /\ errors (state (store app2)) = errors (state (store app)).
Proof.
  intros bs ss total app1 app2.
  assert (E1 : app1 = generateWithWorker bs ss app).
  { unfold app1, generateCodes. fold bs ss. fold total.
    apply Nat.leb_le in Hmany. fold bs ss in Hmany. fold total in Hmany.
    rewrite Hmany, Hworker. reflexivity. }
  assert (Hpos : 0 < total).
  { unfold total, bs, ss. unfold CONSTANTS.PROGRESS_THRESHOLD in Hmany. lia. }
  assert (Htotal : totalCount bs (getDelimiter (delimiter ss) (customDelimiter ss))
                   = total).
  { unfold total. symmetry. apply countItems_totalCount. }
  unfold app2. rewrite onmessage_messages. cbv zeta. rewrite Htotal.
  unfold progressOf.
  rewrite fold_left_app.
  destruct (progress_handled total (filter (reported total) (seq 1 total)) app1)
    as (H1 & H2 & H3 & H4 & H5 & H6 & H7 & H8 & H9 & H10).
  set (app' := fold_left _ (map _ _) app1) in *.
  cbn [fold_left handleWorkerMessage finalizeCodesFromWorker].
  split; [rewrite E1; unfold generateWithWorker; simpl; rewrite Hworker;
          reflexivity|].
  split; [rewrite E1; reflexivity|].
  split; [reflexivity|].
  split.
  { simpl. rewrite H10.
    assert (Hne : filter (reported total) (seq 1 total) <> []).
    { intros E. pose proof (last_reported Hpos) as L. rewrite E in L.
      simpl in L. lia. }
    pose proof (last_reported Hpos) as L.
    destruct (filter (reported total) (seq 1 total)) as [|c cs] eqn:Ef;
      [congruence|].
    rewrite (@last_map_cons _ _ (fun current => (current, total)) cs c _ 0), L.
    reflexivity. }
  split.
  { simpl.
    destruct (enumerate_sameCodes ss bs 0 (r:=emptyRun) (r':=emptyRun))
      as [Hc _]; [split; reflexivity|].
    exact Hc. }
  simpl. rewrite H7, E1. reflexivity.
Qed.

End Delegated.

(** The delegated generation on fifty lines. *)
Lemma delegated_generation_witness :
  worker fiftyLines = Some []
  /\ isGenerating
       (state (store
          (fold_left
             (fun a m => handleWorkerMessage (fun s => s) None None m a)
             (Worker.onmessage
                (GENERATE_CODES (blocks (state (store fiftyLines)))
                                (settings (state (store fiftyLines)))))
             (fst (generateCodes (fun s => s) None None fiftyLines)))))
     = false.
Proof.
  split; [reflexivity|].
  assert (H : CONSTANTS.PROGRESS_THRESHOLD
              <= countItems (blocks (state (store fiftyLines)))
                   (getDelimiter
                      (delimiter (settings (state (store fiftyLines))))
                      (customDelimiter (settings (state (store fiftyLines))))))
    by (vm_compute; lia).
  exact (proj1 (proj2 (proj2
           (@delegated_generation (fun s => s) None None fiftyLines []
                                 eq_refl H)))).
Defined.

(** X24.  Every item [parseContent] returns is trimmed: it is not empty,
    trimming it again changes nothing, and neither its first nor its
    last unit is white space; and a content of white space only has no
    item, whatever the delimiter, so that the test of the planner on the
    trimmed content skips no item: the items of a block are those of its
    content. *)
Theorem parseContent_trimmed (text delimiter : string) :
  Forall (fun item =>
            item <> EmptyString
            /\ JS.trim item = item
            /\ notWhiteSpace (firstUnit item)
            /\ notWhiteSpace (lastUnit item))
         (parseContent text delimiter)
  /\ (JS.truthy (JS.trim text) = false -> parseContent text delimiter = [])
  /\ (forall b : Block,
        itemsOf delimiter b = parseContent (content b) delimiter).
Proof.
  assert (Hblank : forall s, JS.truthy (JS.trim s) = false ->
                             parseContent s delimiter = []).
  { intros s H.
    assert (E : JS.trim s = EmptyString)
      by (destruct (JS.trim s); [reflexivity | discriminate]).
    apply trim_blank in E.
    pose proof (split_all JS.isWhiteSpace delimiter s E) as Hp.
    unfold parseContent.
    induction Hp as [|piece pieces Hpiece _ IH]; [reflexivity|].
    cbn [map filter]. apply trim_blank in Hpiece. rewrite Hpiece. exact IH. }
  split; [|split; [apply Hblank|]].
  - apply Forall_forall. intros item Hin. unfold parseContent in Hin.
    apply filter_In in Hin. destruct Hin as [Hin Hlen].
    apply in_map_iff in Hin. destruct Hin as (piece & <- & _).
    destruct (trim_facts piece) as (H1 & H2 & H3).
    split; [|split; [exact H1 | split; [exact H2 | exact H3]]].
    intros E. rewrite E in Hlen. discriminate.
  - intros b. unfold itemsOf.
    destruct (JS.truthy (JS.trim (content b))) eqn:E; [reflexivity|].
    symmetry. apply Hblank. exact E.
Qed.

(** ** Updating a block *)

(** X25.  [updateBlock] rewrites the blocks that carry the identifier and
    no other: the list keeps its length, every block with another
    identifier stays where it is, and when the update sets no [id] the
    identifiers stay as they were, so that a proper list stays proper.
    With an identifier no block carries the list is unchanged, yet an
    entry is still written to the log. *)
Theorem updateBlock_named (id0 : string) (updates : BlockUpdates)
    (st : AppStore) :
  let bs := blocks (state st) in
  let st' := Store.updateBlock id0 updates st in
  let bs' := blocks (state st') in
  List.length bs' = List.length bs
  /\ (forall i b, nth_error bs i = Some b -> id b <> id0 ->
                  nth_error bs' i = Some b)
  /\ (forall i b, nth_error bs i = Some b -> id b = id0 ->
                  nth_error bs' i = Some (spreadBlock b updates))
  /\ (upd_id updates = None ->
      ids bs' = ids bs /\ (properBlocks bs -> properBlocks bs'))
  /\ (~ In id0 (ids bs) -> bs' = bs)
  /\ history st' = history (Store.recordHistory st)
  /\ historyIndex st' = historyIndex (Store.recordHistory st).
Proof.
  intros bs st' bs'.
  set (f := fun b => if String.eqb (id b) id0 then spreadBlock b updates else b).
  assert (E : bs' = map f bs).
  { unfold bs', st', Store.updateBlock. rewrite setState_blocks. reflexivity. }
  split; [rewrite E; apply length_map|].
  split.
  { intros i b Hi Hne. rewrite E, nth_error_map, Hi. simpl. unfold f.
    apply String.eqb_neq in Hne. rewrite Hne. reflexivity. }
  split.
  { intros i b Hi He. rewrite E, nth_error_map, Hi. simpl. unfold f.
    apply String.eqb_eq in He. rewrite He. reflexivity. }
  split.
  { intros Hid.
    assert (Eids : ids bs' = ids bs).
    { rewrite E. unfold ids. rewrite map_map. apply map_ext. intros b.
      unfold f. destruct (String.eqb (id b) id0); [|reflexivity].
      unfold spreadBlock. simpl. rewrite Hid. reflexivity. }
    split; [exact Eids|].
    intros [Hne Hnd]. split; [|rewrite Eids; exact Hnd].
    intros E0. apply Hne. rewrite E in E0.
    destruct bs; [reflexivity | discriminate]. }
  split.
  { intros Hnot. rewrite E. rewrite <- (map_id bs) at 2.
    apply map_ext_in. intros b Hb. unfold f.
    destruct (String.eqb_spec (id b) id0) as [He|]; [|reflexivity].
    exfalso. apply Hnot. unfold ids. rewrite <- He. apply in_map. exact Hb. }
  split; reflexivity.
Qed.
